(** * The deployment pipeline engine of Automaker, embedded in Rocq

    The development follows [apps/server/src/services/deployment-service.ts]
    and [libs/types/src/deployment.ts]:

    - [Js]        the few JavaScript primitives the service relies on;
    - [Exec]      the promise built by [executeCommand] and its callbacks;
    - the data model of [libs/types/src/deployment.ts];
    - the service itself, in a state-and-exception monad whose state holds
      the singleton [DeploymentService], the clock, the file system and the
      record of the processes spawned so far;
    - [Events]    the emitter of [apps/server/src/lib/events.ts];
    - [Http] and the handlers of [apps/server/src/routes/deployment], with
      [generateDeploymentConfig] and the patterns it reads ports with.

    JavaScript strings are modelled by [string] (code units below 256),
    numbers by [Z] (the service only handles integers: versions, exit
    codes, millisecond counts), instants by the millisecond clock value
    they were taken at. *)

From Stdlib Require Import ZArith NArith List String Ascii Bool Lia.
From Stdlib Require Import DecimalString DecimalZ DecimalPos.
From stdpp Require Import gmap strings.
Import ListNotations.

Set Warnings "-register-all".
Local Open Scope Z_scope.

(* ================================================================== *)
(** * JavaScript primitives *)
(* ================================================================== *)

Module Js.

(** [String(n)] and [`${n}`] for an integer [n]. *)
Definition show (n : Z) : string := NilZero.string_of_int (Z.to_int n).

(** [`${code}`] for [code : number | null]. *)
Definition show_nullable (code : option Z) : string :=
  match code with
  | Some n => show n
  | None => "null"
  end.

(** Truthiness of a string: only the empty string is falsy. *)
Definition truthy (s : string) : bool := negb (String.eqb s "").

(** Truthiness of an optional string property ([undefined] is falsy). *)
Definition truthy_opt (o : option string) : bool :=
  match o with
  | Some s => truthy s
  | None => false
  end.

(** [n || d] for an optional number: [undefined] and [0] are falsy. *)
Definition num_or (o : option Z) (d : Z) : Z :=
  match o with
  | Some n => if n =? 0 then d else n
  | None => d
  end.

(** [b] read as a condition, for an optional boolean property. *)
Definition flag (o : option bool) : bool :=
  match o with
  | Some b => b
  | None => false
  end.

(** The delay [setTimeout] really arms: Node replaces a delay below 1 or
    above 2^31-1 by 1. *)
Definition timer_delay (ms : Z) : Z :=
  if (ms <? 1) || (2147483647 <? ms) then 1 else ms.

Definition digit36 (d : Z) : ascii :=
  if d <? 10 then ascii_of_nat (Z.to_nat (48 + d))
  else ascii_of_nat (Z.to_nat (87 + d)).

Fixpoint to_radix36 (fuel : nat) (n : Z) (acc : string) : string :=
  match fuel with
  | O => acc
  | S fuel =>
      let acc := String (digit36 (n mod 36)) acc in
      if n / 36 =? 0 then acc else to_radix36 fuel (n / 36) acc
  end.

(** [n.toString(36)] for an integer [n]. *)
Definition toString36 (n : Z) : string :=
  let digits m := to_radix36 (S (Z.to_nat (Z.log2 m))) m "" in
  if n <? 0 then "-" +:+ digits (- n) else digits n.

(** [path.join(a, b)] on already normalised segments. *)
Definition path_join (a b : string) : string := a +:+ "/" +:+ b.

End Js.

(* ================================================================== *)
(** * The promise of [executeCommand] *)
(* ================================================================== *)

Module Exec.

(** What [executeCommand] resolves to. *)
Record CmdResult := mkCmdResult {
  success : bool;
  output : string;
  error : option string
}.

Inductive Signal := SIGTERM | SIGKILL.

(** What a spawned child does, as its [ChildProcess] reports it: chunks
    on its two pipes, ['close'] with the exit code ([null] when a signal
    ended it), ['error'] when it could not be spawned. *)
Inductive ChildEvent :=
| StdoutData (data : string)
| StderrData (data : string)
| Close (code : option Z)
| SpawnError (message : string).

(** The behaviour of one child: its events, each with the number of
    milliseconds after [spawn] at which the event loop delivers it. *)
Definition ChildRun := list (Z * ChildEvent).

(** The callbacks registered by [executeCommand]. *)
Inductive Callback :=
| OnStdout (data : string)
| OnStderr (data : string)
| OnTimeout
| OnClose (code : option Z)
| OnError (message : string).

(** The closure of the promise executor: the two accumulators, the
    timer, the child handle (signals it was sent, whether ['close'] was
    seen) and the promise (its value and the time it was settled at). *)
Record Closure := mkClosure {
  stdout : string;
  stderr : string;
  timer_armed : bool;
  signals : list Signal;
  exited : bool;
  settled : option CmdResult;
  settled_at : Z
}.

Definition start : Closure :=
  {| stdout := ""; stderr := ""; timer_armed := true; signals := [];
     exited := false; settled := None; settled_at := 0 |}.

(** [resolve(value)]: only the first call settles the promise. *)
Definition resolve (at_ms : Z) (value : CmdResult) (c : Closure) : Closure :=
  match settled c with
  | Some _ => c
  | None =>
      {| stdout := stdout c; stderr := stderr c;
         timer_armed := timer_armed c; signals := signals c;
         exited := exited c; settled := Some value; settled_at := at_ms |}
  end.

Definition clearTimeout (c : Closure) : Closure :=
  {| stdout := stdout c; stderr := stderr c; timer_armed := false;
     signals := signals c; exited := exited c; settled := settled c;
     settled_at := settled_at c |}.

Definition kill (sig : Signal) (c : Closure) : Closure :=
  {| stdout := stdout c; stderr := stderr c; timer_armed := timer_armed c;
     signals := signals c ++ [sig]; exited := exited c;
     settled := settled c; settled_at := settled_at c |}.

Definition mark_exited (c : Closure) : Closure :=
  {| stdout := stdout c; stderr := stderr c; timer_armed := timer_armed c;
     signals := signals c; exited := true; settled := settled c;
     settled_at := settled_at c |}.

Definition timeout_message (timeoutMs : Z) : string :=
  "Command timed out after " +:+ Js.show timeoutMs +:+ "ms".

Definition exit_message (code : option Z) : string :=
  "Exit code: " +:+ Js.show_nullable code.

(** [stdout + (stderr ? `\n[stderr]\n${stderr}` : '')] *)
Definition combined (out err : string) : string :=
  out +:+ (if Js.truthy err
           then String "010" "[stderr]" +:+ String "010" err
           else "").

(** One callback, as written in the body of [executeCommand]. *)
Definition handle (timeoutMs : Z) (at_ms : Z) (cb : Callback) (c : Closure)
  : Closure :=
  match cb with
  | OnStdout data =>
      {| stdout := stdout c +:+ data; stderr := stderr c;
         timer_armed := timer_armed c; signals := signals c;
         exited := exited c; settled := settled c;
         settled_at := settled_at c |}
  | OnStderr data =>
      {| stdout := stdout c; stderr := stderr c +:+ data;
         timer_armed := timer_armed c; signals := signals c;
         exited := exited c; settled := settled c;
         settled_at := settled_at c |}
  | OnTimeout =>
      if timer_armed c then
        let c := clearTimeout c in
        let c := kill SIGTERM c in
        resolve at_ms
          {| success := false; output := stdout c;
             error := Some (timeout_message timeoutMs) |} c
      else c
  | OnClose code =>
      let c := mark_exited c in
      let c := clearTimeout c in
      resolve at_ms
        {| success := match code with Some 0 => true | _ => false end;
           output := combined (stdout c) (stderr c);
           error := match code with
                    | Some 0 => None
                    | _ => Some (exit_message code)
                    end |} c
  | OnError message =>
      let c := clearTimeout c in
      resolve at_ms
        {| success := false; output := stdout c; error := Some message |} c
  end.

Definition callback_of (e : ChildEvent) : Callback :=
  match e with
  | StdoutData d => OnStdout d
  | StderrData d => OnStderr d
  | Close code => OnClose code
  | SpawnError m => OnError m
  end.

(** The order in which the event loop runs the callbacks: the child's
    events that arrive before the timer is due, the timer, the rest. *)
Fixpoint schedule (delay : Z) (run : ChildRun) : list (Z * Callback) :=
  match run with
  | [] => [(delay, OnTimeout)]
  | (t, e) :: rest =>
      if delay <=? t
      then (delay, OnTimeout) :: map (fun te => (fst te, callback_of (snd te))) run
      else (t, callback_of e) :: schedule delay rest
  end.

Definition run_callbacks (timeoutMs : Z) (cbs : list (Z * Callback))
    (c : Closure) : Closure :=
  fold_left (fun c tc => handle timeoutMs (fst tc) (snd tc) c) cbs c.

(** The closure once every callback of the child has run. *)
Definition finish (timeoutMs : Z) (run : ChildRun) : Closure :=
  run_callbacks timeoutMs (schedule (Js.timer_delay timeoutMs) run) start.

(** The closure at the moment the promise is settled, which is when the
    caller's [await] resumes. *)
Fixpoint until_settled (timeoutMs : Z) (cbs : list (Z * Callback))
    (c : Closure) : Closure :=
  match cbs with
  | [] => c
  | (t, cb) :: rest =>
      let c' := handle timeoutMs t cb c in
      match settled c' with
      | Some _ => c'
      | None => until_settled timeoutMs rest c'
      end
  end.

Definition at_settle (timeoutMs : Z) (run : ChildRun) : Closure :=
  until_settled timeoutMs (schedule (Js.timer_delay timeoutMs) run) start.

(** The value the promise is settled with, if it ever is. *)
Definition promise (timeoutMs : Z) (run : ChildRun) : option CmdResult :=
  settled (finish timeoutMs run).

(** The value of the promise; it always has one, see
    [at_settle_settled]. *)
Definition value (timeoutMs : Z) (run : ChildRun) : CmdResult :=
  match settled (at_settle timeoutMs run) with
  | Some v => v
  | None => {| success := false; output := ""; error := None |}
  end.

(** ** Vocabulary for statements about a child *)

Definition is_data (e : ChildEvent) : bool :=
  match e with
  | StdoutData _ | StderrData _ => true
  | Close _ | SpawnError _ => false
  end.

(** What the child wrote on each pipe during [run]. *)
Fixpoint stdout_of (run : ChildRun) : string :=
  match run with
  | [] => ""
  | (_, StdoutData d) :: rest => d +:+ stdout_of rest
  | _ :: rest => stdout_of rest
  end.

Fixpoint stderr_of (run : ChildRun) : string :=
  match run with
  | [] => ""
  | (_, StderrData d) :: rest => d +:+ stderr_of rest
  | _ :: rest => stderr_of rest
  end.

(** Every event of [run] is delivered before the timer is due. *)
Definition in_time (timeoutMs : Z) (run : ChildRun) : Prop :=
  Forall (fun te => fst te < Js.timer_delay timeoutMs) run.


(** [run] starts with [output], which is all the child does before the
    timer is due: it writes, and neither exits nor fails to start. *)
Definition overruns (timeoutMs : Z) (run output : ChildRun) : Prop :=
  Forall (fun te => is_data (snd te) = true) output /\
  in_time timeoutMs output /\
  (run = output \/
   exists t e later,
     run = output ++ (t, e) :: later /\ Js.timer_delay timeoutMs <= t).

End Exec.

(* ================================================================== *)
(** * The data model of [libs/types/src/deployment.ts] *)
(* ================================================================== *)

(** [Record<string, string>] *)
Abbreviation StringMap := (gmap string string).

Module DeploymentStep.
Record t := mk {
  name : string;
  command : string;
  workingDirectory : option string;
  env : option StringMap;
  timeout : option Z;
  continueOnError : option bool
}.
End DeploymentStep.

Module E2ETestConfig.
Record t := mk {
  command : string;
  workingDirectory : option string;
  waitForUrl : option string;
  waitTimeout : option Z;
  env : option StringMap;
  timeout : option Z
}.
End E2ETestConfig.

Module DeploymentConfig.
Record t := mk {
  version : Z;
  autoDeployOnComplete : bool;
  buildSteps : list DeploymentStep.t;
  deploySteps : list DeploymentStep.t;
  e2eTests : option E2ETestConfig.t;
  healthCheckUrl : option string;
  healthCheckTimeout : option Z
}.
End DeploymentConfig.

Definition DEFAULT_DEPLOYMENT_CONFIG : DeploymentConfig.t :=
  {| DeploymentConfig.version := 1;
     DeploymentConfig.autoDeployOnComplete := false;
     DeploymentConfig.buildSteps := [];
     DeploymentConfig.deploySteps := [];
     DeploymentConfig.e2eTests := None;
     DeploymentConfig.healthCheckUrl := None;
     DeploymentConfig.healthCheckTimeout := None |}.

Module DeploymentStatus.
Inductive t :=
| idle | building | deploying | waiting_for_health | running_tests
| success | failed.

Definition eqb (a b : t) : bool :=
  match a, b with
  | idle, idle | building, building | deploying, deploying
  | waiting_for_health, waiting_for_health
  | running_tests, running_tests | success, success | failed, failed => true
  | _, _ => false
  end.
End DeploymentStatus.

Module StepStatus.
Inductive t := success | failed | skipped.

Definition to_string (s : t) : string :=
  match s with
  | success => "success"
  | failed => "failed"
  | skipped => "skipped"
  end.
End StepStatus.

Module StepResult.
Record t := mk {
  stepName : string;
  status : StepStatus.t;
  output : string;
  error : option string;
  durationMs : Z
}.
End StepResult.

Module E2EStatus.
Inductive t := passed | failed | skipped.

Definition to_string (s : t) : string :=
  match s with
  | passed => "passed"
  | failed => "failed"
  | skipped => "skipped"
  end.
End E2EStatus.

Module E2ETestResult.
Record t := mk {
  status : E2EStatus.t;
  output : string;
  error : option string;
  durationMs : Z;
  passed : option Z;
  failed : option Z;
  skipped : option Z
}.
End E2ETestResult.

Inductive Trigger := manual | auto_mode_complete.

Module DeploymentResult.
Record t := mk {
  id : string;
  startedAt : Z;
  finishedAt : option Z;
  status : DeploymentStatus.t;
  buildResults : list StepResult.t;
  deployResults : list StepResult.t;
  e2eResult : option E2ETestResult.t;
  error : option string;
  trigger : Trigger;
  featureIds : option (list string)
}.

Definition set_status (v : DeploymentStatus.t) (d : t) : t :=
  mk (id d) (startedAt d) (finishedAt d) v (buildResults d)
     (deployResults d) (e2eResult d) (error d) (trigger d) (featureIds d).

Definition set_finishedAt (v : Z) (d : t) : t :=
  mk (id d) (startedAt d) (Some v) (status d) (buildResults d)
     (deployResults d) (e2eResult d) (error d) (trigger d) (featureIds d).

Definition set_error (v : string) (d : t) : t :=
  mk (id d) (startedAt d) (finishedAt d) (status d) (buildResults d)
     (deployResults d) (e2eResult d) (Some v) (trigger d) (featureIds d).

Definition set_e2eResult (v : E2ETestResult.t) (d : t) : t :=
  mk (id d) (startedAt d) (finishedAt d) (status d) (buildResults d)
     (deployResults d) (Some v) (error d) (trigger d) (featureIds d).

Definition push_buildResult (r : StepResult.t) (d : t) : t :=
  mk (id d) (startedAt d) (finishedAt d) (status d) (buildResults d ++ [r])
     (deployResults d) (e2eResult d) (error d) (trigger d) (featureIds d).

Definition push_deployResult (r : StepResult.t) (d : t) : t :=
  mk (id d) (startedAt d) (finishedAt d) (status d) (buildResults d)
     (deployResults d ++ [r]) (e2eResult d) (error d) (trigger d)
     (featureIds d).
End DeploymentResult.

Module DeploymentEventType.
Inductive t :=
| deployment_started
| build_step_started | build_step_completed
| deploy_step_started | deploy_step_completed
| health_check_started | health_check_completed
| e2e_started | e2e_output | e2e_completed
| deployment_completed | deployment_failed.

Definition eqb (a b : t) : bool :=
  match a, b with
  | deployment_started, deployment_started
  | build_step_started, build_step_started
  | build_step_completed, build_step_completed
  | deploy_step_started, deploy_step_started
  | deploy_step_completed, deploy_step_completed
  | health_check_started, health_check_started
  | health_check_completed, health_check_completed
  | e2e_started, e2e_started | e2e_output, e2e_output
  | e2e_completed, e2e_completed
  | deployment_completed, deployment_completed
  | deployment_failed, deployment_failed => true
  | _, _ => false
  end.

(** The two events that close a run. *)
Definition terminal (a : t) : bool :=
  match a with
  | deployment_completed | deployment_failed => true
  | _ => false
  end.
End DeploymentEventType.

(** [DeploymentEvent['data']['result']].  Subscribers are called inside
    [emit], so what they can read through the reference is the object as
    it is when the event is emitted: the event carries that value. *)
Inductive EventResult :=
| StepResultOf (r : StepResult.t)
| E2EResultOf (r : E2ETestResult.t)
| DeploymentResultOf (r : DeploymentResult.t).

Module EventData.
Record t := mk {
  stepName : option string;
  status : option string;
  output : option string;
  error : option string;
  result : option EventResult
}.

(** [{ status }] *)
Definition of_status (s : string) : t := mk None (Some s) None None None.
End EventData.

Module DeploymentEvent.
Record t := mk {
  type : DeploymentEventType.t;
  deploymentId : string;
  timestamp : Z;
  data : option EventData.t
}.
End DeploymentEvent.

(* ================================================================== *)
(** * The pattern used to read test counts *)
(* ================================================================== *)

Module Regex.

(** The pieces the pattern of [runE2ETests] is made of. *)
Inductive Node :=
| Digits              (** [(\d+)]: a capturing group, greedy *)
| Lit (text : string) (** literal text, compared ignoring case (flag [i]) *)
| Gap.                (** [.*?]: lazy, and [.] matches no line terminator *)

Definition is_digit (c : ascii) : bool :=
  let n := nat_of_ascii c in ((48 <=? n) && (n <=? 57))%nat.

(** Line terminators among the code units a [string] holds. *)
Definition is_line_terminator (c : ascii) : bool :=
  let n := nat_of_ascii c in ((n =? 10) || (n =? 13))%nat.

(** Canonicalisation under flag [i]: ASCII letters are compared in upper
    case; no other code unit below 256 is mapped onto an ASCII letter. *)
Definition canonicalize (c : ascii) : ascii :=
  let n := nat_of_ascii c in
  if ((97 <=? n) && (n <=? 122))%nat then ascii_of_nat (n - 32) else c.

Definition char_eq_ci (a b : ascii) : bool :=
  Ascii.eqb (canonicalize a) (canonicalize b).

(** [strip_ci text s]: what is left of [s] after [text], if [s] starts
    with [text] up to case. *)
Fixpoint strip_ci (text s : string) : option string :=
  match text, s with
  | EmptyString, _ => Some s
  | String a text', String b s' =>
      if char_eq_ci a b then strip_ci text' s' else None
  | String _ _, EmptyString => None
  end.

(** [(\d+)] followed by the rest of the pattern, [k]: the group is
    greedy, so it first tries to take one more digit, and gives it back
    if the rest does not match.  The result is the capture and what [k]
    returned. *)
Fixpoint digits_then (k : string -> option (list string)) (s : string)
  : option (string * list string) :=
  match s with
  | String c s' =>
      if is_digit c then
        match digits_then k s' with
        | Some (d, caps) => Some (String c d, caps)
        | None =>
            match k s' with
            | Some caps => Some (String c EmptyString, caps)
            | None => None
            end
        end
      else None
  | EmptyString => None
  end.

(** [.*?] followed by the rest of the pattern, [k]: the gap is lazy, so
    it first tries to stop, and takes one more character (never a line
    terminator) if the rest does not match. *)
Fixpoint gap_then (k : string -> option (list string)) (s : string)
  : option (list string) :=
  match k s with
  | Some caps => Some caps
  | None =>
      match s with
      | String c s' => if is_line_terminator c then None else gap_then k s'
      | EmptyString => None
      end
  end.

(** Backtracking match of a sequence of nodes at the start of [s], with
    the alternatives tried in the order the ECMAScript matcher tries
    them; the result lists the captures, in order. *)
Fixpoint match_here (p : list Node) (s : string) {struct p}
  : option (list string) :=
  match p with
  | [] => Some []
  | Lit text :: p' =>
      match strip_ci text s with
      | Some rest => match_here p' rest
      | None => None
      end
  | Digits :: p' =>
      option_map (fun dc : string * list string => fst dc :: snd dc)
                 (digits_then (match_here p') s)
  | Gap :: p' => gap_then (match_here p') s
  end.

(** [String.prototype.match] without flag [g]: the first start position,
    from the left, at which the pattern matches. *)
Fixpoint search (p : list Node) (s : string) : option (list string) :=
  match match_here p s with
  | Some caps => Some caps
  | None =>
      match s with
      | String _ s' => search p s'
      | EmptyString => None
      end
  end.

(** [/(\d+) passed.*?(\d+) failed.*?(\d+) skipped/i] *)
Definition playwright : list Node :=
  [Digits; Lit " passed"; Gap; Digits; Lit " failed"; Gap; Digits;
   Lit " skipped"].

(** [parseInt(text, 10)] on the text of a [(\d+)] capture. *)
Definition parseInt (text : string) : Z :=
  fold_left (fun acc c => 10 * acc + (Z.of_nat (nat_of_ascii c) - 48))
            (list_ascii_of_string text) 0.

(** ** What it means for a text to match *)

Definition digits (d : string) : Prop :=
  d <> EmptyString /\
  Forall (fun c => is_digit c = true) (list_ascii_of_string d).





End Regex.

(* ================================================================== *)
(** * JSON: values, [JSON.stringify(v, null, 2)] and [JSON.parse] *)
(* ================================================================== *)

Module Json.

(** A JSON value, which is also how a plain JavaScript object is seen
    here: an object is the list of its properties in insertion order. *)
Inductive t :=
| Null
| Bool (b : bool)
| Num (n : Z)
| Str (s : string)
| Arr (items : list t)
| Obj (fields : list (string * t)).

(** [o[key]] *)
Fixpoint get (key : string) (fields : list (string * t)) : option t :=
  match fields with
  | [] => None
  | (k, v) :: rest => if String.eqb k key then Some v else get key rest
  end.

(** [o[key] = v]: an existing property keeps its place. *)
Fixpoint set (key : string) (v : t) (fields : list (string * t))
  : list (string * t) :=
  match fields with
  | [] => [(key, v)]
  | (k, w) :: rest =>
      if String.eqb k key then (k, v) :: rest else (k, w) :: set key v rest
  end.

(** The own enumerable properties a spread copies.  Only objects have
    any here: the service spreads the parsed document, and spreading
    [null], a number or a boolean copies nothing. *)
Definition own_properties (v : t) : list (string * t) :=
  match v with
  | Obj fields => fields
  | _ => []
  end.

(** [{ ...a, ...b }] *)
Definition spread (a b : t) : t :=
  let copy := fold_left (fun acc kv => set (fst kv) (snd kv) acc) in
  Obj (copy (own_properties b) (copy (own_properties a) [])).

(** ** Printing *)

Definition hex_digit (n : nat) : ascii :=
  if (n <? 10)%nat then ascii_of_nat (48 + n) else ascii_of_nat (87 + n).

(** [QuoteJSONString] on one code unit. *)
Definition quote_char (c : ascii) : string :=
  let n := nat_of_ascii c in
  if (n =? 34)%nat then String "\" (String "034" "")
  else if (n =? 92)%nat then "\\"
  else if (n =? 8)%nat then "\b"
  else if (n =? 9)%nat then "\t"
  else if (n =? 10)%nat then "\n"
  else if (n =? 12)%nat then "\f"
  else if (n =? 13)%nat then "\r"
  else if (n <? 32)%nat then
    "\u00" +:+ String (hex_digit (n / 16)) (String (hex_digit (n mod 16)) "")
  else String c "".

Fixpoint quote_body (s : string) : string :=
  match s with
  | EmptyString => String "034" ""
  | String c s' => quote_char c +:+ quote_body s'
  end.

Definition quote (s : string) : string := String "034" (quote_body s).

Definition newline : string := String "010" "".

(** [SerializeJSONProperty] with gap ["  "]; [indent] is the current
    indentation. *)
Fixpoint print (indent : string) (v : t) : string :=
  match v with
  | Null => "null"
  | Bool true => "true"
  | Bool false => "false"
  | Num n => Js.show n
  | Str s => quote s
  | Arr [] => "[]"
  | Arr (x :: xs) =>
      let stepback := indent in
      let indent := indent +:+ "  " in
      "[" +:+ newline +:+ indent +:+ print indent x +:+
      (fix rest (xs : list t) : string :=
         match xs with
         | [] => ""
         | y :: ys => "," +:+ newline +:+ indent +:+ print indent y +:+ rest ys
         end) xs +:+
      newline +:+ stepback +:+ "]"
  | Obj [] => "{}"
  | Obj ((k, x) :: fields) =>
      let stepback := indent in
      let indent := indent +:+ "  " in
      "{" +:+ newline +:+ indent +:+ quote k +:+ ": " +:+ print indent x +:+
      (fix rest (fields : list (string * t)) : string :=
         match fields with
         | [] => ""
         | (k, y) :: more =>
             "," +:+ newline +:+ indent +:+ quote k +:+ ": " +:+
             print indent y +:+ rest more
         end) fields +:+
      newline +:+ stepback +:+ "}"
  end.

(** [JSON.stringify(data, null, 2)] *)
Definition stringify (v : t) : string := print "" v.

(** ** Parsing *)

Definition is_ws (c : ascii) : bool :=
  let n := nat_of_ascii c in
  ((n =? 32) || (n =? 9) || (n =? 10) || (n =? 13))%nat.

Fixpoint skip_ws (s : string) : string :=
  match s with
  | String c s' => if is_ws c then skip_ws s' else s
  | EmptyString => s
  end.

Definition hex_value (c : ascii) : option nat :=
  let n := nat_of_ascii c in
  if ((48 <=? n) && (n <=? 57))%nat then Some (n - 48)%nat
  else if ((97 <=? n) && (n <=? 102))%nat then Some (n - 87)%nat
  else if ((65 <=? n) && (n <=? 70))%nat then Some (n - 55)%nat
  else None.

(** The characters of a string literal, after its opening quote.  An
    escape [\uXXXX] above 255 names a code unit a [string] cannot hold:
    such a document is outside the model and is refused. *)
Fixpoint parse_string (s : string) : option (string * string) :=
  match s with
  | EmptyString => None
  | String c s' =>
      let n := nat_of_ascii c in
      if (n =? 34)%nat then Some (EmptyString, s')
      else if (n <? 32)%nat then None
      else if (n =? 92)%nat then
        match s' with
        | String e s'' =>
            let simple (x : ascii) :=
              match parse_string s'' with
              | Some (body, rest) => Some (String x body, rest)
              | None => None
              end in
            match nat_of_ascii e with
            | 34%nat => simple "034"%char
            | 92%nat => simple "\"%char
            | 47%nat => simple "/"%char
            | 98%nat => simple "008"%char
            | 116%nat => simple "009"%char
            | 110%nat => simple "010"%char
            | 102%nat => simple "012"%char
            | 114%nat => simple "013"%char
            | 117%nat =>
                match s'' with
                | String h1 (String h2 (String h3 (String h4 s4))) =>
                    match hex_value h1, hex_value h2, hex_value h3,
                          hex_value h4 with
                    | Some 0%nat, Some 0%nat, Some a, Some b =>
                        match parse_string s4 with
                        | Some (body, rest) =>
                            Some (String (ascii_of_nat (16 * a + b)) body,
                                  rest)
                        | None => None
                        end
                    | _, _, _, _ => None
                    end
                | _ => None
                end
            | _ => None
            end
        | EmptyString => None
        end
      else
        match parse_string s' with
        | Some (body, rest) => Some (String c body, rest)
        | None => None
        end
  end.

Definition is_number_char (c : ascii) : bool :=
  let n := nat_of_ascii c in
  ((n =? 45) || ((48 <=? n) && (n <=? 57)))%nat.

(** The longest prefix made of [-] and digits. *)
Fixpoint number_token (s : string) : string * string :=
  match s with
  | String c s' =>
      if is_number_char c
      then let '(tok, rest) := number_token s' in (String c tok, rest)
      else (EmptyString, s)
    | EmptyString => (EmptyString, s)
  end.

(** An integer literal in the form JSON allows (no sign [+], no leading
    zero).  Literals with a fraction or an exponent, and [-0], denote
    numbers that are not integers of [Z]: they are outside the model and
    are refused. *)
Definition parse_number (s : string) : option (Z * string) :=
  let '(tok, rest) := number_token s in
  match NilZero.int_of_string tok with
  | Some d =>
      let n := Z.of_int d in
      if String.eqb (Js.show n) tok then
        match rest with
        | String c _ =>
            if (Ascii.eqb c "." || Ascii.eqb c "e" || Ascii.eqb c "E")%bool
            then None else Some (n, rest)
        | EmptyString => Some (n, rest)
        end
      else None
  | None => None
  end.

Definition starts_with (c : ascii) (s : string) : option string :=
  match s with
  | String c' s' => if Ascii.eqb c c' then Some s' else None
  | EmptyString => None
  end.

Fixpoint strip (word s : string) : option string :=
  match word, s with
  | EmptyString, _ => Some s
  | String a word', String b s' =>
      if Ascii.eqb a b then strip word' s' else None
  | String _ _, EmptyString => None
  end.

(** Recursive descent.  [fuel] bounds the nesting and the number of
    elements; [parse] gives it the length of the text, which no document
    can exceed. *)
Fixpoint parse_value (fuel : nat) (s : string) : option (t * string) :=
  match fuel with
  | O => None
  | S fuel =>
      let s := skip_ws s in
      match s with
      | EmptyString => None
      | String c s' =>
          if Ascii.eqb c "n" then
            option_map (fun r => (Null, r)) (strip "ull" s')
          else if Ascii.eqb c "t" then
            option_map (fun r => (Bool true, r)) (strip "rue" s')
          else if Ascii.eqb c "f" then
            option_map (fun r => (Bool false, r)) (strip "alse" s')
          else if Ascii.eqb c "034" then
            option_map (fun br => (Str (fst br), snd br)) (parse_string s')
          else if Ascii.eqb c "[" then
            match starts_with "]" (skip_ws s') with
            | Some rest => Some (Arr [], rest)
            | None =>
                option_map (fun ir => (Arr (fst ir), snd ir))
                           (parse_items fuel s')
            end
          else if Ascii.eqb c "{" then
            match starts_with "}" (skip_ws s') with
            | Some rest => Some (Obj [], rest)
            | None =>
                option_map (fun fr => (Obj (fst fr), snd fr))
                           (parse_members fuel [] s')
            end
          else
            option_map (fun nr => (Num (fst nr), snd nr)) (parse_number s)
      end
  end

with parse_items (fuel : nat) (s : string) : option (list t * string) :=
  match fuel with
  | O => None
  | S fuel =>
      match parse_value fuel s with
      | Some (v, rest) =>
          match skip_ws rest with
          | String c rest' =>
              if Ascii.eqb c "]" then Some ([v], rest')
              else if Ascii.eqb c "," then
                match parse_items fuel rest' with
                | Some (vs, rest'') => Some (v :: vs, rest'')
                | None => None
                end
              else None
          | EmptyString => None
          end
      | None => None
      end
  end

with parse_members (fuel : nat) (acc : list (string * t)) (s : string)
  : option (list (string * t) * string) :=
  match fuel with
  | O => None
  | S fuel =>
      match starts_with "034" (skip_ws s) with
      | Some s1 =>
          match parse_string s1 with
          | Some (key, s2) =>
              match starts_with ":" (skip_ws s2) with
              | Some s3 =>
                  match parse_value fuel s3 with
                  | Some (v, rest) =>
                      let acc := set key v acc in
                      match skip_ws rest with
                      | String c rest' =>
                          if Ascii.eqb c "}" then Some (acc, rest')
                          else if Ascii.eqb c ","
                          then parse_members fuel acc rest'
                          else None
                      | EmptyString => None
                      end
                  | None => None
                  end
              | None => None
              end
          | None => None
          end
      | None => None
      end
  end.

(** [JSON.parse(text)]; [None] stands for the [SyntaxError]. *)
Definition parse (text : string) : option t :=
  match parse_value (S (String.length text)) text with
  | Some (v, rest) =>
      match skip_ws rest with
      | EmptyString => Some v
      | String _ _ => None
      end
  | None => None
  end.

End Json.

(* ================================================================== *)
(** * The configuration document *)
(* ================================================================== *)

(** How the typed values of [deployment.ts] sit in a JavaScript object: a
    property is present when the optional field is set.  Reading accepts
    what the TypeScript types describe and treats a [null] in an optional
    position like an absent property, as every use in the service does. *)
Module Document.

Definition opt_field {A} (key : string) (f : A -> Json.t) (o : option A)
  : list (string * Json.t) :=
  match o with
  | Some a => [(key, f a)]
  | None => []
  end.

Definition of_env (m : StringMap) : Json.t :=
  Json.Obj (map (fun kv => (fst kv, Json.Str (snd kv))) (map_to_list m)).

Definition of_step (s : DeploymentStep.t) : Json.t :=
  Json.Obj
    ([("name", Json.Str (DeploymentStep.name s));
      ("command", Json.Str (DeploymentStep.command s))]
     ++ opt_field "workingDirectory" Json.Str (DeploymentStep.workingDirectory s)
     ++ opt_field "env" of_env (DeploymentStep.env s)
     ++ opt_field "timeout" Json.Num (DeploymentStep.timeout s)
     ++ opt_field "continueOnError" Json.Bool (DeploymentStep.continueOnError s)).

Definition of_e2e (e : E2ETestConfig.t) : Json.t :=
  Json.Obj
    ([("command", Json.Str (E2ETestConfig.command e))]
     ++ opt_field "workingDirectory" Json.Str (E2ETestConfig.workingDirectory e)
     ++ opt_field "waitForUrl" Json.Str (E2ETestConfig.waitForUrl e)
     ++ opt_field "waitTimeout" Json.Num (E2ETestConfig.waitTimeout e)
     ++ opt_field "env" of_env (E2ETestConfig.env e)
     ++ opt_field "timeout" Json.Num (E2ETestConfig.timeout e)).

Definition of_config (c : DeploymentConfig.t) : Json.t :=
  Json.Obj
    ([("version", Json.Num (DeploymentConfig.version c));
      ("autoDeployOnComplete", Json.Bool (DeploymentConfig.autoDeployOnComplete c));
      ("buildSteps", Json.Arr (map of_step (DeploymentConfig.buildSteps c)));
      ("deploySteps", Json.Arr (map of_step (DeploymentConfig.deploySteps c)))]
     ++ opt_field "e2eTests" of_e2e (DeploymentConfig.e2eTests c)
     ++ opt_field "healthCheckUrl" Json.Str (DeploymentConfig.healthCheckUrl c)
     ++ opt_field "healthCheckTimeout" Json.Num
          (DeploymentConfig.healthCheckTimeout c)).

Definition as_num (v : Json.t) : option Z :=
  match v with Json.Num n => Some n | _ => None end.

Definition as_str (v : Json.t) : option string :=
  match v with Json.Str s => Some s | _ => None end.

Definition as_bool (v : Json.t) : option bool :=
  match v with Json.Bool b => Some b | _ => None end.

Definition required {A} (key : string) (f : Json.t -> option A)
    (fields : list (string * Json.t)) : option A :=
  match Json.get key fields with
  | Some v => f v
  | None => None
  end.

Definition optional {A} (key : string) (f : Json.t -> option A)
    (fields : list (string * Json.t)) : option (option A) :=
  match Json.get key fields with
  | Some Json.Null | None => Some None
  | Some v => option_map Some (f v)
  end.

Fixpoint all_some {A} (l : list (option A)) : option (list A) :=
  match l with
  | [] => Some []
  | Some a :: l' => option_map (cons a) (all_some l')
  | None :: _ => None
  end.

Definition as_env (v : Json.t) : option StringMap :=
  match v with
  | Json.Obj fields =>
      option_map (fun l : list (string * string) => list_to_map l)
        (all_some
           (map (fun kv => option_map (pair (fst kv)) (as_str (snd kv)))
                fields))
  | _ => None
  end.

Definition as_step (v : Json.t) : option DeploymentStep.t :=
  match v with
  | Json.Obj o =>
      name ← required "name" as_str o;
      command ← required "command" as_str o;
      workingDirectory ← optional "workingDirectory" as_str o;
      env ← optional "env" as_env o;
      timeout ← optional "timeout" as_num o;
      continueOnError ← optional "continueOnError" as_bool o;
      Some (DeploymentStep.mk name command workingDirectory env timeout
              continueOnError)
  | _ => None
  end.

Definition as_steps (v : Json.t) : option (list DeploymentStep.t) :=
  match v with
  | Json.Arr items => all_some (map as_step items)
  | _ => None
  end.

Definition as_e2e (v : Json.t) : option E2ETestConfig.t :=
  match v with
  | Json.Obj o =>
      command ← required "command" as_str o;
      workingDirectory ← optional "workingDirectory" as_str o;
      waitForUrl ← optional "waitForUrl" as_str o;
      waitTimeout ← optional "waitTimeout" as_num o;
      env ← optional "env" as_env o;
      timeout ← optional "timeout" as_num o;
      Some (E2ETestConfig.mk command workingDirectory waitForUrl
              waitTimeout env timeout)
  | _ => None
  end.

Definition as_config (v : Json.t) : option DeploymentConfig.t :=
  match v with
  | Json.Obj o =>
      version ← required "version" as_num o;
      autoDeployOnComplete ← required "autoDeployOnComplete" as_bool o;
      buildSteps ← required "buildSteps" as_steps o;
      deploySteps ← required "deploySteps" as_steps o;
      e2eTests ← optional "e2eTests" as_e2e o;
      healthCheckUrl ← optional "healthCheckUrl" as_str o;
      healthCheckTimeout ← optional "healthCheckTimeout" as_num o;
      Some (DeploymentConfig.mk version autoDeployOnComplete buildSteps
              deploySteps e2eTests healthCheckUrl healthCheckTimeout)
  | _ => None
  end.

(** A configuration is JSON-serialisable when writing it out and
    parsing the text gives it back. *)
Definition serializable (c : DeploymentConfig.t) : Prop :=
  Json.parse (Json.stringify (of_config c)) = Some (of_config c).

End Document.

(* ================================================================== *)
(** * The world the service runs in *)
(* ================================================================== *)

(** What another client of the server may ask for while the service is
    suspended on an [await]: the route [POST /api/deployment/cancel]. *)
Inductive Request := CancelRequest.

Inductive FetchOutcome :=
| Response (status : Z)
| NetworkError (message : string).

(** Everything the service does not decide: the behaviour of the children
    it spawns and of the URLs it probes, the requests that arrive while it
    waits, how long each wait lasts beyond its minimum, the random part of
    identifiers, and the platform. *)
Record Env := mkEnv {
  child_run : nat -> Exec.ChildRun;
  fetch_outcome : nat -> FetchOutcome;
  requests : nat -> list Request;
  lateness : nat -> N;
  random : nat -> string;
  process_env : StringMap;
  is_windows : bool;
  allowed : string -> bool
}.

(** One call of [spawn]: its arguments, and what became of the child, as
    the closure of [executeCommand] knows it when the promise is settled
    ([on_return]) and once the child has nothing more to report
    ([in_the_end]). *)
Record Child := mkChild {
  shell : string;
  shellArgs : list string;
  cwd : string;
  child_env : StringMap;
  on_return : Exec.Closure;
  in_the_end : Exec.Closure
}.

(** The singleton [DeploymentService] ([currentDeployment],
    [eventEmitter]: the attached emitter is seen through the events it has
    been given, oldest first) and the part of the world it acts on: the
    clock, the files, the children spawned and the requests sent (each
    with the time it was issued at), in order. *)
Record State := mkState {
  currentDeployment : option DeploymentResult.t;
  eventEmitter : option (list DeploymentEvent.t);
  clock : Z;
  files : StringMap;
  children : list Child;
  fetches : list (string * Z);
  suspensions : nat;
  randoms : nat
}.

Definition with_currentDeployment (v : option DeploymentResult.t) (s : State) :=
  mkState v (eventEmitter s) (clock s) (files s) (children s) (fetches s)
          (suspensions s) (randoms s).

Definition with_eventEmitter (v : option (list DeploymentEvent.t)) (s : State) :=
  mkState (currentDeployment s) v (clock s) (files s) (children s) (fetches s)
          (suspensions s) (randoms s).

Definition with_files (v : StringMap) (s : State) :=
  mkState (currentDeployment s) (eventEmitter s) (clock s) v (children s)
          (fetches s) (suspensions s) (randoms s).

Definition with_children (v : list Child) (s : State) :=
  mkState (currentDeployment s) (eventEmitter s) (clock s) (files s) v
          (fetches s) (suspensions s) (randoms s).

Definition with_fetches (v : list (string * Z)) (s : State) :=
  mkState (currentDeployment s) (eventEmitter s) (clock s) (files s)
          (children s) v (suspensions s) (randoms s).

Definition with_randoms (v : nat) (s : State) :=
  mkState (currentDeployment s) (eventEmitter s) (clock s) (files s)
          (children s) (fetches s) (suspensions s) v.

(** Time passes and one more suspension has been gone through. *)
Definition elapse (ms : Z) (s : State) :=
  mkState (currentDeployment s) (eventEmitter s) (clock s + ms) (files s)
          (children s) (fetches s) (S (suspensions s)) (randoms s).

(** ** Computations: state, exceptions, promises that never settle *)

Inductive Outcome (A : Type) :=
| Ok (a : A)
| Throw (message : string)
| Pending.

Arguments Ok {A} a.
Arguments Throw {A} message.
Arguments Pending {A}.

Definition M (A : Type) : Type := State -> Outcome A * State.

Definition ret {A} (a : A) : M A := fun s => (Ok a, s).

Definition bind {A B} (m : M A) (k : A -> M B) : M B :=
  fun s =>
    match m s with
    | (Ok a, s') => k a s'
    | (Throw e, s') => (Throw e, s')
    | (Pending, s') => (Pending, s')
    end.

Definition throw {A} (message : string) : M A := fun s => (Throw message, s).

(** [try { body } catch (error) { handler }]; the handler receives
    [error.message]. *)
Definition try_catch {A} (body : M A) (handler : string -> M A) : M A :=
  fun s =>
    match body s with
    | (Throw e, s') => handler e s'
    | r => r
    end.

Definition get : M State := fun s => (Ok s, s).
Definition modify (f : State -> State) : M unit := fun s => (Ok tt, f s).

#[global] Instance M_ret : MRet M := @ret.
#[global] Instance M_bind : MBind M := fun A B k m => bind m k.

(** [for (const x of xs) { body }] *)
Fixpoint for_of {A} (xs : list A) (body : A -> M unit) : M unit :=
  match xs with
  | [] => ret tt
  | x :: xs' => body x ;; for_of xs' body
  end.

(** [Date.now()] *)
Definition Date_now : M Z := fun s => (Ok (clock s), s).

(* ================================================================== *)
(** * [deployment-service.ts] *)
(* ================================================================== *)

(** The [stepType] argument of [executeStep]. *)
Module StepType.
Inductive t := build | deploy.
End StepType.

Section Service.

Variable E : Env.

(** ** The singleton's synchronous methods *)

(** [setEventEmitter(emitter)] *)
Definition setEventEmitter (emitter : list DeploymentEvent.t) : M unit :=
  modify (with_eventEmitter (Some emitter)).

(** [emitEvent(type, data)] *)
Definition emitEvent (type : DeploymentEventType.t) (data : option EventData.t)
  : M unit :=
  fun s =>
    match eventEmitter s, currentDeployment s with
    | Some emitted, Some current =>
        let event :=
          {| DeploymentEvent.type := type;
             DeploymentEvent.deploymentId := DeploymentResult.id current;
             DeploymentEvent.timestamp := clock s;
             DeploymentEvent.data := data |} in
        (Ok tt, with_eventEmitter (Some (emitted ++ [event])) s)
    | _, _ => (Ok tt, s)
    end.

(** [getCurrentDeployment()] *)
Definition getCurrentDeployment : M (option DeploymentResult.t) :=
  fun s => (Ok (currentDeployment s), s).

(** [!['success', 'failed', 'idle'].includes(status)] *)
Definition in_flight (status : DeploymentStatus.t) : bool :=
  match status with
  | DeploymentStatus.success | DeploymentStatus.failed
  | DeploymentStatus.idle => false
  | _ => true
  end.

Definition running (s : State) : bool :=
  match currentDeployment s with
  | Some current => in_flight (DeploymentResult.status current)
  | None => false
  end.

(** [isDeploymentRunning()] *)
Definition isDeploymentRunning : M bool := fun s => (Ok (running s), s).

(** [this.currentDeployment.field = ...] and [.push(...)]: a [TypeError]
    if there is no current deployment. *)
Definition update_current (f : DeploymentResult.t -> DeploymentResult.t)
  : M unit :=
  fun s =>
    match currentDeployment s with
    | Some current => (Ok tt, with_currentDeployment (Some (f current)) s)
    | None => (Throw "Cannot set properties of null", s)
    end.

(** [cancelDeployment()] *)
Definition cancelDeployment : M unit :=
  is_running ← isDeploymentRunning;
  current ← getCurrentDeployment;
  match current with
  | Some _ =>
      if is_running : bool then
        update_current (DeploymentResult.set_status DeploymentStatus.failed) ;;
        now ← Date_now;
        update_current (DeploymentResult.set_finishedAt now) ;;
        update_current (DeploymentResult.set_error "Deployment cancelled by user") ;;
        emitEvent DeploymentEventType.deployment_failed
          (Some (EventData.mk None (Some "failed") None
                   (Some "Cancelled by user") None))
      else ret tt
  | None => ret tt
  end.

(** ** Suspension *)

(** The route handlers that run while the service waits. *)
Definition serve (r : Request) (s : State) : State :=
  match r with
  | CancelRequest => snd (cancelDeployment s)
  end.

(** An [await] on an operation of the outside world that takes at least
    [ms] milliseconds: the clock moves on and the requests that arrived
    in the meantime have been served when the service resumes. *)
Definition suspend (ms : Z) : M unit :=
  fun s =>
    let n := suspensions s in
    let s := elapse (Z.max 0 ms + Z.of_N (lateness E n)) s in
    (Ok tt, fold_left (fun s r => serve r s) (requests E n) s).

(** [await new Promise((resolve) => setTimeout(resolve, ms))] *)
Definition sleep (ms : Z) : M unit := suspend (Js.timer_delay ms).

(** [await fetch(url, { method: 'GET' })], giving [response.status]; it
    throws when no response is received. *)
Definition fetch (url : string) : M Z :=
  s ← get;
  let n := length (fetches s) in
  modify (with_fetches (fetches s ++ [(url, clock s)])) ;;
  suspend 0 ;;
  match fetch_outcome E n with
  | Response status => ret status
  | NetworkError message => throw message
  end.

(** [response.ok || response.status < 500] *)
Definition reachable (status : Z) : bool :=
  ((200 <=? status) && (status <=? 299)) || (status <? 500).

(** ** [waitForUrl] *)

(** The [while] loop.  A round lasts at least one millisecond (the timer
    of its [setTimeout]), so the loop is entered at most [timeoutMs]
    times; [rounds] is that bound, and running out of it would be a
    promise that never settles. *)
Fixpoint waitForUrl_loop (rounds : nat) (url : string)
    (timeoutMs intervalMs startTime : Z) : M bool :=
  match rounds with
  | O => fun s => (Pending, s)
  | S rounds =>
      now ← Date_now;
      if now - startTime <? timeoutMs then
        returned ← try_catch
          (status ← fetch url; ret (reachable status))
          (fun _ => ret false);
        if returned : bool then ret true
        else
          sleep intervalMs ;;
          waitForUrl_loop rounds url timeoutMs intervalMs startTime
      else ret false
  end.

Definition waitForUrl (url : string) (timeoutMs intervalMs : Z) : M bool :=
  startTime ← Date_now;
  waitForUrl_loop (S (Z.to_nat timeoutMs)) url timeoutMs intervalMs startTime.

(** ** [executeCommand] *)

(** [spawn] registers the callbacks of [Exec]; the [await] resumes when
    the promise is settled. *)
Definition executeCommand (command workingDirectory : string)
    (env : StringMap) (timeoutMs : Z) : M Exec.CmdResult :=
  s ← get;
  let n := length (children s) in
  let shell := if is_windows E then "cmd.exe" else "/bin/sh" in
  let shellArgs := if is_windows E then ["/c"; command] else ["-c"; command] in
  let closure := Exec.at_settle timeoutMs (child_run E n) in
  let child :=
    {| shell := shell; shellArgs := shellArgs; cwd := workingDirectory;
       child_env := env ∪ process_env E;
       on_return := closure;
       in_the_end := Exec.finish timeoutMs (child_run E n) |} in
  modify (with_children (children s ++ [child])) ;;
  match Exec.settled closure with
  | Some value => suspend (Exec.settled_at closure) ;; ret value
  | None => fun s => (Pending, s)
  end.

(** ** The file system *)

(** Modelled from the spec: [lib/secure-fs.js] and [ensureAutomakerDir]
    of [@automaker/platform] are not among the sources.  The spec has
    them as the durable store of one JSON document per project, written
    through a temporary sibling file that is renamed over the target,
    whose absence is a normal state.  The model is a map from paths to
    contents; an operation on a path outside the allowed root throws, as
    does reading, renaming or removing a file that does not exist. *)
Definition secureFs_guard (path : string) : M unit :=
  suspend 0 ;;
  if allowed E path then ret tt else throw ("Path not allowed: " +:+ path).

Definition secureFs_readFile (path : string) : M string :=
  secureFs_guard path ;;
  s ← get;
  match files s !! path with
  | Some content => ret content
  | None => throw ("ENOENT: no such file or directory, open '" +:+ path +:+ "'")
  end.

Definition secureFs_writeFile (path content : string) : M unit :=
  secureFs_guard path ;;
  s ← get;
  modify (with_files (<[path := content]> (files s))).

Definition secureFs_rename (oldPath newPath : string) : M unit :=
  secureFs_guard oldPath ;;
  if allowed E newPath then
    s ← get;
    match files s !! oldPath with
    | Some content =>
        modify (with_files (<[newPath := content]> (delete oldPath (files s))))
    | None =>
        throw ("ENOENT: no such file or directory, rename '" +:+ oldPath +:+ "'")
    end
  else throw ("Path not allowed: " +:+ newPath).

Definition secureFs_unlink (path : string) : M unit :=
  secureFs_guard path ;;
  s ← get;
  match files s !! path with
  | Some _ => modify (with_files (delete path (files s)))
  | None => throw ("ENOENT: no such file or directory, unlink '" +:+ path +:+ "'")
  end.

Definition secureFs_access (path : string) : M unit :=
  secureFs_guard path ;;
  s ← get;
  match files s !! path with
  | Some _ => ret tt
  | None => throw ("ENOENT: no such file or directory, access '" +:+ path +:+ "'")
  end.

Definition ensureAutomakerDir (projectPath : string) : M unit :=
  secureFs_guard (Js.path_join projectPath ".automaker").

(** ** The configuration store *)

(** [atomicWriteJson(filePath, data)] *)
Definition atomicWriteJson (filePath : string) (data : Json.t) : M unit :=
  now ← Date_now;
  let tempPath := filePath +:+ ".tmp." +:+ Js.show now in
  let content := Json.stringify data in
  try_catch
    (secureFs_writeFile tempPath content ;;
     secureFs_rename tempPath filePath)
    (fun error =>
       try_catch (secureFs_unlink tempPath) (fun _ => ret tt) ;;
       throw error).

(** [readJsonFile(filePath, defaultValue)]: both arms of the [catch]
    return the default (the second one logs first). *)
Definition readJsonFile (filePath : string) (defaultValue : Json.t)
  : M Json.t :=
  try_catch
    (content ← secureFs_readFile filePath;
     match Json.parse content with
     | Some value => ret value
     | None => throw "SyntaxError: Unexpected token in JSON"
     end)
    (fun _ => ret defaultValue).

(** [getDeploymentConfigPath(projectPath)] *)
Definition getDeploymentConfigPath (projectPath : string) : string :=
  Js.path_join (Js.path_join projectPath ".automaker") "deployment.json".

(** The object [getDeploymentConfig] builds, read at its declared type
    [DeploymentConfig].  The source does not check the document against
    that type; a document that does not have it is outside the model,
    which reads it as the default configuration. *)
Definition typed (v : Json.t) : DeploymentConfig.t :=
  match Document.as_config v with
  | Some config => config
  | None => DEFAULT_DEPLOYMENT_CONFIG
  end.

(** [getDeploymentConfig(projectPath)] *)
Definition getDeploymentConfig (projectPath : string) : M DeploymentConfig.t :=
  let configPath := getDeploymentConfigPath projectPath in
  config ← readJsonFile configPath (Document.of_config DEFAULT_DEPLOYMENT_CONFIG);
  ret (typed (Json.spread (Document.of_config DEFAULT_DEPLOYMENT_CONFIG) config)).

(** [hasDeploymentConfig(projectPath)] *)
Definition hasDeploymentConfig (projectPath : string) : M bool :=
  let configPath := getDeploymentConfigPath projectPath in
  try_catch (secureFs_access configPath ;; ret true) (fun _ => ret false).

(** [saveDeploymentConfig(projectPath, config)] *)
Definition saveDeploymentConfig (projectPath : string)
    (config : DeploymentConfig.t) : M unit :=
  ensureAutomakerDir projectPath ;;
  let configPath := getDeploymentConfigPath projectPath in
  atomicWriteJson configPath (Document.of_config config).

(** ** The pipeline *)

(** [Math.random().toString(36).substring(2, 8)] *)
Definition random_suffix : M string :=
  s ← get;
  modify (with_randoms (S (randoms s))) ;;
  ret (random E (randoms s)).

(** [generateDeploymentId()] *)
Definition generateDeploymentId : M string :=
  now ← Date_now;
  suffix ← random_suffix;
  ret ("deploy_" +:+ Js.toString36 now +:+ "_" +:+ suffix).

(** [`${stepType}_step_started`] *)
Definition step_started (stepType : StepType.t) : DeploymentEventType.t :=
  match stepType with
  | StepType.build => DeploymentEventType.build_step_started
  | StepType.deploy => DeploymentEventType.deploy_step_started
  end.

(** [`${stepType}_step_completed`] *)
Definition step_completed (stepType : StepType.t) : DeploymentEventType.t :=
  match stepType with
  | StepType.build => DeploymentEventType.build_step_completed
  | StepType.deploy => DeploymentEventType.deploy_step_completed
  end.

(** [a ? path.join(projectPath, a) : projectPath] *)
Definition resolve_dir (projectPath : string) (dir : option string) : string :=
  match dir with
  | Some d => if Js.truthy d then Js.path_join projectPath d else projectPath
  | None => projectPath
  end.

(** [executeStep(step, projectPath, stepType)] *)
Definition executeStep (step : DeploymentStep.t) (projectPath : string)
    (stepType : StepType.t) : M StepResult.t :=
  startTime ← Date_now;
  let workDir := resolve_dir projectPath (DeploymentStep.workingDirectory step) in
  emitEvent (step_started stepType)
    (Some (EventData.mk (Some (DeploymentStep.name step)) (Some "running")
             None None None)) ;;
  result ← executeCommand (DeploymentStep.command step) workDir
             (default ∅ (DeploymentStep.env step))
             (Js.num_or (DeploymentStep.timeout step) 300000);
  now ← Date_now;
  let stepResult :=
    {| StepResult.stepName := DeploymentStep.name step;
       StepResult.status :=
         if Exec.success result then StepStatus.success else StepStatus.failed;
       StepResult.output := Exec.output result;
       StepResult.error := Exec.error result;
       StepResult.durationMs := now - startTime |} in
  emitEvent (step_completed stepType)
    (Some (EventData.mk (Some (DeploymentStep.name step))
             (Some (StepStatus.to_string (StepResult.status stepResult)))
             (Some (StepResult.output stepResult))
             (StepResult.error stepResult)
             (Some (StepResultOf stepResult)))) ;;
  ret stepResult.

(** The counts read off the output; [playwrightMatch[i]] are the
    captures. *)
Definition parse_counts (output : string) : option (Z * Z * Z) :=
  match Regex.search Regex.playwright output with
  | Some [p; f; k] => Some (Regex.parseInt p, Regex.parseInt f, Regex.parseInt k)
  | _ => None
  end.

(** [runE2ETests(projectPath, config)] *)
Definition runE2ETests (projectPath : string) (config : DeploymentConfig.t)
  : M E2ETestResult.t :=
  match DeploymentConfig.e2eTests config with
  | None =>
      ret (E2ETestResult.mk E2EStatus.skipped "No E2E tests configured" None 0
             None None None)
  | Some e2eConfig =>
      startTime ← Date_now;
      let workDir :=
        resolve_dir projectPath (E2ETestConfig.workingDirectory e2eConfig) in
      urlAvailable ←
        match E2ETestConfig.waitForUrl e2eConfig with
        | Some url =>
            if Js.truthy url
            then waitForUrl url
                   (Js.num_or (E2ETestConfig.waitTimeout e2eConfig) 60000) 2000
            else ret true
        | None => ret true
        end;
      if urlAvailable : bool then
        result ← executeCommand (E2ETestConfig.command e2eConfig) workDir
                   (default ∅ (E2ETestConfig.env e2eConfig))
                   (Js.num_or (E2ETestConfig.timeout e2eConfig) 600000);
        let counts := parse_counts (Exec.output result) in
        now ← Date_now;
        ret (E2ETestResult.mk
               (if Exec.success result then E2EStatus.passed else E2EStatus.failed)
               (Exec.output result)
               (Exec.error result)
               (now - startTime)
               (option_map (fun c => fst (fst c)) counts)
               (option_map (fun c => snd (fst c)) counts)
               (option_map snd counts))
      else
        now ← Date_now;
        ret (E2ETestResult.mk E2EStatus.failed
               ("Target URL not available: " +:+
                default "" (E2ETestConfig.waitForUrl e2eConfig))
               (Some "Target URL timeout")
               (now - startTime)
               None None None)
  end.

(** The body of the [try] block of [deploy]. *)
Definition pipeline (projectPath : string) (config : DeploymentConfig.t)
  : M unit :=
  (* Execute build steps *)
  for_of (DeploymentConfig.buildSteps config) (fun step =>
    result ← executeStep step projectPath StepType.build;
    update_current (DeploymentResult.push_buildResult result) ;;
    match StepResult.status result with
    | StepStatus.failed =>
        if negb (Js.flag (DeploymentStep.continueOnError step))
        then throw ("Build step failed: " +:+ DeploymentStep.name step)
        else ret tt
    | _ => ret tt
    end) ;;
  (* Execute deploy steps *)
  update_current (DeploymentResult.set_status DeploymentStatus.deploying) ;;
  emitEvent DeploymentEventType.deployment_started
    (Some (EventData.of_status "deploying")) ;;
  for_of (DeploymentConfig.deploySteps config) (fun step =>
    result ← executeStep step projectPath StepType.deploy;
    update_current (DeploymentResult.push_deployResult result) ;;
    match StepResult.status result with
    | StepStatus.failed =>
        if negb (Js.flag (DeploymentStep.continueOnError step))
        then throw ("Deploy step failed: " +:+ DeploymentStep.name step)
        else ret tt
    | _ => ret tt
    end) ;;
  (* Wait for health check *)
  (if Js.truthy_opt (DeploymentConfig.healthCheckUrl config) then
     let healthCheckUrl := default "" (DeploymentConfig.healthCheckUrl config) in
     update_current
       (DeploymentResult.set_status DeploymentStatus.waiting_for_health) ;;
     emitEvent DeploymentEventType.health_check_started
       (Some (EventData.of_status "waiting")) ;;
     healthOk ← waitForUrl healthCheckUrl
                  (Js.num_or (DeploymentConfig.healthCheckTimeout config) 30000)
                  2000;
     emitEvent DeploymentEventType.health_check_completed
       (Some (EventData.of_status (if healthOk : bool then "success" else "failed"))) ;;
     (if healthOk : bool then ret tt
      else throw ("Health check failed: " +:+ healthCheckUrl +:+ " not available")
      : M unit)
   else ret tt) ;;
  (* Run E2E tests *)
  (match DeploymentConfig.e2eTests config with
   | Some _ =>
       update_current
         (DeploymentResult.set_status DeploymentStatus.running_tests) ;;
       emitEvent DeploymentEventType.e2e_started
         (Some (EventData.of_status "running")) ;;
       e2eResult ← runE2ETests projectPath config;
       update_current (DeploymentResult.set_e2eResult e2eResult) ;;
       emitEvent DeploymentEventType.e2e_completed
         (Some (EventData.mk None
                  (Some (E2EStatus.to_string (E2ETestResult.status e2eResult)))
                  None None (Some (E2EResultOf e2eResult)))) ;;
       match E2ETestResult.status e2eResult with
       | E2EStatus.failed => throw "E2E tests failed"
       | _ => ret tt
       end
   | None => ret tt
   end) ;;
  (* Success *)
  update_current (DeploymentResult.set_status DeploymentStatus.success) ;;
  now ← Date_now;
  update_current (DeploymentResult.set_finishedAt now) ;;
  current ← getCurrentDeployment;
  emitEvent DeploymentEventType.deployment_completed
    (Some (EventData.mk None (Some "success") None None
             (option_map DeploymentResultOf current))).

(** The [catch] block of [deploy]. *)
Definition on_failure (message : string) : M unit :=
  update_current (DeploymentResult.set_status DeploymentStatus.failed) ;;
  now ← Date_now;
  update_current (DeploymentResult.set_finishedAt now) ;;
  update_current (DeploymentResult.set_error message) ;;
  current ← getCurrentDeployment;
  emitEvent DeploymentEventType.deployment_failed
    (Some (EventData.mk None (Some "failed") None
             (current ≫= DeploymentResult.error)
             (option_map DeploymentResultOf current))).

(** [deploy(projectPath, trigger, featureIds)] *)
Definition deploy (projectPath : string) (trigger : Trigger)
    (featureIds : option (list string)) : M (option DeploymentResult.t) :=
  is_running ← isDeploymentRunning;
  if is_running : bool then throw "A deployment is already in progress"
  else
    config ← getDeploymentConfig projectPath;
    deploymentId ← generateDeploymentId;
    now ← Date_now;
    modify (with_currentDeployment (Some
      {| DeploymentResult.id := deploymentId;
         DeploymentResult.startedAt := now;
         DeploymentResult.finishedAt := None;
         DeploymentResult.status := DeploymentStatus.building;
         DeploymentResult.buildResults := [];
         DeploymentResult.deployResults := [];
         DeploymentResult.e2eResult := None;
         DeploymentResult.error := None;
         DeploymentResult.trigger := trigger;
         DeploymentResult.featureIds := featureIds |})) ;;
    emitEvent DeploymentEventType.deployment_started
      (Some (EventData.of_status "building")) ;;
    try_catch (pipeline projectPath config) on_failure ;;
    getCurrentDeployment.

(** [getDeploymentHistory(projectPath, limit)] *)
Definition getDeploymentHistory (projectPath : string) (limit : Z)
  : M (list DeploymentResult.t) :=
  current ← getCurrentDeployment;
  ret (match current with Some d => [d] | None => [] end).

End Service.

(* ================================================================== *)
(** * [lib/events.ts] *)
(* ================================================================== *)

(** The emitter the service publishes through.  A callback is known by
    its identity as a JavaScript function; what it does when called is
    given from outside, and may be anything, using the emitter
    included. *)
Module Events.

Definition Callback := nat.

(** [new Set<Callback>()]: the entries in insertion order.  A deleted
    entry leaves a hole, which an iteration skips; an iteration in
    progress sees the entries added after it started. *)
Definition CallbackSet := list (option Callback).

Definition has (cb : Callback) (set : CallbackSet) : bool :=
  existsb (fun entry =>
             match entry with
             | Some cb' => Nat.eqb cb cb'
             | None => false
             end) set.

(** [set.add(cb)] *)
Definition add (cb : Callback) (set : CallbackSet) : CallbackSet :=
  if has cb set then set else set ++ [Some cb].

(** [set.delete(cb)] *)
Definition delete (cb : Callback) (set : CallbackSet) : CallbackSet :=
  map (fun entry =>
         match entry with
         | Some cb' => if Nat.eqb cb cb' then None else Some cb'
         | None => None
         end) set.

(** The callbacks in a set, in the order an iteration visits them. *)
Definition members (set : CallbackSet) : list Callback := omap id set.

(** The two sets [createEventEmitter] closes over. *)
Record Emitter := mkEmitter {
  subscribers : CallbackSet;
  userAwareSubscribers : CallbackSet
}.

(** [createEventEmitter()] *)
Definition createEventEmitter : Emitter := mkEmitter [] [].

(** A call of a subscriber: [callback(type, payload)] or
    [callback(type, payload, targetUser)]. *)
Inductive Call :=
| Notify (callback : Callback) (type : string) (payload : Json.t)
| NotifyUser (callback : Callback) (type : string) (payload : Json.t)
    (targetUser : option Json.t).

Definition callee (call : Call) : Callback :=
  match call with
  | Notify cb _ _ | NotifyUser cb _ _ _ => cb
  end.

(** [(payload as UserTargetedPayload)?.targetUser]: [undefined] unless
    the payload is an object that has the property. *)
Definition targetUser_of (payload : Json.t) : option Json.t :=
  match payload with
  | Json.Obj fields => Json.get "targetUser" fields
  | _ => None
  end.

Section Callbacks.

(** What the callbacks act on besides the emitter. *)
Variable World : Type.

(** What a call does: it returns ([None]) or throws (the message of the
    error), and leaves the emitter and the rest as it pleases. *)
Variable invoke : Call -> Emitter * World -> option string * (Emitter * World).

(** The emitter and the world, with the calls made so far and what
    [logger.error] has been given. *)
Record State := mkState {
  emitter : Emitter;
  world : World;
  calls : list Call;
  logged : list (string * string)
}.

(** [for (const callback of set) { try { ... } catch (error) {
    logger.error(complaint, error) } }], from the [i]-th entry on.
    [steps] bounds the number of entries visited: callbacks that keep
    adding callbacks make the loop endless, which is [None]. *)
Fixpoint notify (steps : nat) (select : Emitter -> CallbackSet)
    (call : Callback -> Call) (complaint : string) (i : nat) (s : State)
  : option State :=
  match steps with
  | O => None
  | S steps =>
      match select (emitter s) !! i with
      | None => Some s
      | Some None => notify steps select call complaint (S i) s
      | Some (Some cb) =>
          let '(thrown, (emitter', world')) :=
            invoke (call cb) (emitter s, world s) in
          notify steps select call complaint (S i)
            {| emitter := emitter'; world := world';
               calls := calls s ++ [call cb];
               logged := match thrown with
                         | Some message => logged s ++ [(complaint, message)]
                         | None => logged s
                         end |}
      end
  end.

(** [emit(type, payload)] *)
Definition emit (steps : nat) (type : string) (payload : Json.t) (s : State)
  : option State :=
  let targetUser := targetUser_of payload in
  s ← notify steps subscribers (fun cb => Notify cb type payload)
        "Error in event subscriber:" 0 s;
  notify steps userAwareSubscribers
    (fun cb => NotifyUser cb type payload targetUser)
    "Error in user-aware event subscriber:" 0 s.

Definition with_emitter (e : Emitter) (s : State) : State :=
  {| emitter := e; world := world s; calls := calls s; logged := logged s |}.

(** The function [subscribe(callback)] returns. *)
Definition unsubscribe (cb : Callback) (s : State) : State :=
  with_emitter
    (mkEmitter (delete cb (subscribers (emitter s)))
               (userAwareSubscribers (emitter s))) s.

(** [subscribe(callback)] *)
Definition subscribe (cb : Callback) (s : State) : (State -> State) * State :=
  (unsubscribe cb,
   with_emitter
     (mkEmitter (add cb (subscribers (emitter s)))
                (userAwareSubscribers (emitter s))) s).

(** The function [subscribeWithUserFilter(callback)] returns. *)
Definition unsubscribeUser (cb : Callback) (s : State) : State :=
  with_emitter
    (mkEmitter (subscribers (emitter s))
               (delete cb (userAwareSubscribers (emitter s)))) s.

(** [subscribeWithUserFilter(callback)] *)
Definition subscribeWithUserFilter (cb : Callback) (s : State)
  : (State -> State) * State :=
  (unsubscribeUser cb,
   with_emitter
     (mkEmitter (subscribers (emitter s))
                (add cb (userAwareSubscribers (emitter s)))) s).

End Callbacks.

Arguments emitter {World} s.
Arguments world {World} s.
Arguments calls {World} s.
Arguments logged {World} s.
Arguments mkState {World} emitter world calls logged.

End Events.

(* ================================================================== *)
(** * [routes/deployment]: the handlers of [/api/deployment] *)
(* ================================================================== *)

(** What a handler sends: the status ([res.json] alone sends 200) and
    the body, one constructor per shape of body the handlers build.
    [Failure error] is [{ success: false, error }]; the others have
    [success: true]. *)
Module Http.

Inductive Body :=
| Failure (error : string)
| ConfigFound (config : DeploymentConfig.t) (exists_ : bool)
| Message (message : string)
| Started (message : string) (deploymentId : string)
| Status (isRunning : bool) (deployment : option DeploymentResult.t)
| History (history : list DeploymentResult.t).

Record Response := respond {
  status : Z;
  body : Body
}.

End Http.

Section Routes.

Variable E : Env.

(** [try { ... } catch (error) { res.status(500).json({ success: false,
    error: error.message }) }], around every handler. *)
Definition guarded (handler : M Http.Response) : M Http.Response :=
  try_catch handler
    (fun message => ret (Http.respond 500 (Http.Failure message))).

Definition projectPath_required : Http.Response :=
  Http.respond 400 (Http.Failure "projectPath is required").

(** [GET /config], with [req.query.projectPath]. *)
Definition get_config (projectPath : option string) : M Http.Response :=
  guarded
    (if negb (Js.truthy_opt projectPath) then ret projectPath_required
     else
       let projectPath := default "" projectPath in
       config ← getDeploymentConfig E projectPath;
       hasConfig ← hasDeploymentConfig E projectPath;
       ret (Http.respond 200 (Http.ConfigFound config hasConfig))).

(** [POST /config], with [req.body.projectPath] and [req.body.config]. *)
Definition post_config (projectPath : option string)
    (config : option DeploymentConfig.t) : M Http.Response :=
  guarded
    (if negb (Js.truthy_opt projectPath) then ret projectPath_required
     else
       match config with
       | None => ret (Http.respond 400 (Http.Failure "config is required"))
       | Some config =>
           saveDeploymentConfig E (default "" projectPath) config ;;
           ret (Http.respond 200 (Http.Message "Deployment config saved"))
       end).

(** [POST /deploy], with [req.body.projectPath] and
    [req.body.featureIds].  The handler awaits the promise of [deploy]
    before it answers. *)
Definition post_deploy (projectPath : option string)
    (featureIds : option (list string)) : M Http.Response :=
  guarded
    (if negb (Js.truthy_opt projectPath) then ret projectPath_required
     else
       let projectPath := default "" projectPath in
       hasConfig ← hasDeploymentConfig E projectPath;
       if negb hasConfig then
         ret (Http.respond 400
                (Http.Failure
                   "No deployment configuration found. Please configure deployment first."))
       else
         is_running ← isDeploymentRunning;
         if is_running : bool then
           ret (Http.respond 409
                  (Http.Failure "A deployment is already in progress"))
         else
           result ← deploy E projectPath manual featureIds;
           match result with
           | Some d =>
               ret (Http.respond 200
                      (Http.Started "Deployment started" (DeploymentResult.id d)))
           | None => throw "Cannot read properties of null (reading 'id')"
           end).

(** [GET /status] *)
Definition get_status : M Http.Response :=
  guarded
    (deployment ← getCurrentDeployment;
     isRunning ← isDeploymentRunning;
     ret (Http.respond 200 (Http.Status isRunning deployment))).

(** [POST /cancel] *)
Definition post_cancel : M Http.Response :=
  guarded
    (is_running ← isDeploymentRunning;
     if negb is_running then
       ret (Http.respond 400 (Http.Failure "No deployment is running"))
     else
       cancelDeployment ;;
       ret (Http.respond 200 (Http.Message "Deployment cancelled"))).

(** [GET /history], with [req.query.projectPath] and the integer
    [parseInt(req.query.limit, 10)] reads, if it reads one. *)
Definition get_history (projectPath : option string) (limit : option Z)
  : M Http.Response :=
  guarded
    (let limit := Js.num_or limit 10 in
     if negb (Js.truthy_opt projectPath) then ret projectPath_required
     else
       history ← getDeploymentHistory (default "" projectPath) limit;
       ret (Http.respond 200 (Http.History history))).

End Routes.

(* ================================================================== *)
(** * [routes/deployment]: [generateDeploymentConfig] *)
(* ================================================================== *)

(** A value [JSON.parse] returned, read the way JavaScript reads it;
    [None] is [undefined]. *)
Module Value.

(** [v.key] and [v[key]] on a value that is not [null], for the keys
    the generator reads ([scripts], [dependencies], [build], [start],
    ...): an object has the property if the document gave it, and no
    prototype of an object, an array, a string, a number or a boolean
    has a property of one of these names. *)
Definition prop (key : string) (v : Json.t) : option Json.t :=
  match v with
  | Json.Obj fields => Json.get key fields
  | _ => None
  end.

(** Truthiness: [undefined], [null], [false], [0] and the empty string
    are falsy. *)
Definition truthy (v : option Json.t) : bool :=
  match v with
  | None | Some Json.Null => false
  | Some (Json.Bool b) => b
  | Some (Json.Num n) => negb (n =? 0)
  | Some (Json.Str s) => Js.truthy s
  | Some (Json.Arr _) | Some (Json.Obj _) => true
  end.

(** [a || b] *)
Definition or (a b : option Json.t) : option Json.t :=
  if truthy a then a else b.

End Value.

(** The two patterns the generator looks for ports with, and
    [String.prototype.includes]. *)
Module PortPattern.

(** [s.includes(text)] *)
Fixpoint includes (text s : string) : bool :=
  if String.prefix text s then true
  else
    match s with
    | String _ s' => includes text s'
    | EmptyString => false
    end.

(** [/(\d+):(\d+)/]: the literal has no letter, for which alone the
    comparison of [Regex.Lit] differs from an exact one. *)
Definition mapping : list Regex.Node :=
  [Regex.Digits; Regex.Lit ":"; Regex.Digits].

(** [\s] among the code units a [string] holds: the tabulations and
    line ends from 9 to 13, the space and the no-break space. *)
Definition is_space (c : ascii) : bool :=
  let n := nat_of_ascii c in
  (((9 <=? n) && (n <=? 13)) || (n =? 32) || (n =? 160))%nat.

(** [[=\s]] *)
Definition is_separator (c : ascii) : bool :=
  (Ascii.eqb c "=" || is_space c)%bool.

(** What is left of [s] after [text], compared exactly. *)
Fixpoint after (text s : string) : option string :=
  match text, s with
  | EmptyString, _ => Some s
  | String a text', String b s' =>
      if Ascii.eqb a b then after text' s' else None
  | String _ _, EmptyString => None
  end.

(** [(\d+)] with nothing after it in the pattern: the group is greedy
    and is never asked to give a digit back, so it captures the whole
    run of digits [s] starts with. *)
Fixpoint digits_run (s : string) : string :=
  match s with
  | String c s' =>
      if Regex.is_digit c then String c (digits_run s') else EmptyString
  | EmptyString => EmptyString
  end.

(** [flag[=\s](\d+)] at the start of [s], giving the capture. *)
Definition flag_here (flag s : string) : option string :=
  match after flag s with
  | Some (String c rest) =>
      if is_separator c then
        match digits_run rest with
        | EmptyString => None
        | digits => Some digits
        end
      else None
  | _ => None
  end.

(** [/--port[=\s](\d+)|PORT[=\s](\d+)/] at the start of [s], the
    alternatives in their order; the result is
    [portMatch[1] || portMatch[2]], the capture of the alternative that
    matched (a capture is not empty, hence truthy). *)
Definition match_here (s : string) : option string :=
  match flag_here "--port" s with
  | Some digits => Some digits
  | None => flag_here "PORT" s
  end.

(** [String.prototype.match] without flag [g]: the first start position,
    from the left, at which the pattern matches. *)
Fixpoint search (s : string) : option string :=
  match match_here s with
  | Some digits => Some digits
  | None =>
      match s with
      | String _ s' => search s'
      | EmptyString => None
      end
  end.

End PortPattern.

Section Generate.

Variable E : Env.

(** [{ name, command }] *)
Definition named (name command : string) : DeploymentStep.t :=
  DeploymentStep.mk name command None None None None.

(** [`http://localhost:${port}`].  The port is a captured run of digits
    read by [parseInt]; it is exact here, as it is in JavaScript up to
    2^53. *)
Definition localhost (port : Z) : string :=
  "http://localhost:" +:+ Js.show port.

(** The reading of [package.json]: [packageJson] stays [null] when the
    file cannot be read or is not JSON. *)
Definition read_packageJson (projectPath : string) : M Json.t :=
  try_catch
    (let packageJsonPath := Js.path_join projectPath "package.json" in
     content ← secureFs_readFile E packageJsonPath;
     match Json.parse content with
     | Some value => ret value
     | None => throw "SyntaxError: Unexpected token in JSON"
     end)
    (fun _ => ret Json.Null).

Definition COMPOSE_NAMES : list string :=
  ["docker-compose.yml"; "docker-compose.yaml"; "compose.yml"; "compose.yaml"].

(** The loop over the names of a compose file, left at the first one
    that can be read: its content, and [None] when [hasDockerCompose]
    stays [false]. *)
Fixpoint find_compose (projectPath : string) (names : list string)
  : M (option string) :=
  match names with
  | [] => ret None
  | name :: names =>
      found ← try_catch
                (let composePath := Js.path_join projectPath name in
                 secureFs_access E composePath ;;
                 content ← secureFs_readFile E composePath;
                 ret (Some content))
                (fun _ => ret None);
      match found with
      | Some content => ret (Some content)
      | None => find_compose projectPath names
      end
  end.

(** The port read off [docker-compose.yml]. *)
Definition compose_port (dockerComposeContent : string) : Z :=
  let port := 8080 in
  let port :=
    match Regex.search PortPattern.mapping dockerComposeContent with
    | Some (first :: _) => Regex.parseInt first
    | _ => port
    end in
  if PortPattern.includes "3000:" dockerComposeContent then 3000
  else if PortPattern.includes "8080:" dockerComposeContent then 8080
  else if PortPattern.includes "80:" dockerComposeContent then 80
  else port.

(** [packageJson?.scripts], when it is truthy. *)
Definition scripts_of (packageJson : Json.t) : option Json.t :=
  let scripts := Value.prop "scripts" packageJson in
  if Value.truthy scripts then scripts else None.

(** The [TypeError] of a call of [.match] on a value that is not a
    string; its wording is the engine's. *)
Definition not_a_function : string :=
  "(scripts.dev || scripts.start || '').match is not a function".

(** The branch of a project without Docker whose [package.json] has
    scripts. *)
Definition from_scripts (packageJson scripts : Json.t)
  : M DeploymentConfig.t :=
  let has key := Value.truthy (Value.prop key scripts) in
  let install :=
    if (Value.truthy (Value.prop "dependencies" packageJson)
        || Value.truthy (Value.prop "devDependencies" packageJson))%bool
    then [named "Install dependencies" "npm install"] else [] in
  let build :=
    if has "build" then [named "Build application" "npm run build"]
    else if has "build:packages"
    then [named "Build packages" "npm run build:packages"]
    else [] in
  let start :=
    if has "start" then [named "Start application" "npm run start"]
    else if has "dev" then [named "Start development server" "npm run dev"]
    else [] in
  match Value.or (Value.or (Value.prop "dev" scripts) (Value.prop "start" scripts))
                 (Some (Json.Str "")) with
  | Some (Json.Str script) =>
      let port :=
        match PortPattern.search script with
        | Some digits => Regex.parseInt digits
        | None => 3000
        end in
      ret {| DeploymentConfig.version := 1;
             DeploymentConfig.autoDeployOnComplete := false;
             DeploymentConfig.buildSteps := install ++ build;
             DeploymentConfig.deploySteps := start;
             DeploymentConfig.e2eTests := None;
             DeploymentConfig.healthCheckUrl := Some (localhost port);
             DeploymentConfig.healthCheckTimeout := Some 60000 |}
  | _ => throw not_a_function
  end.

(** [E2E tests configuration (check regardless of docker)] *)
Definition with_e2eTests (packageJson : Json.t) (config : DeploymentConfig.t)
  : DeploymentConfig.t :=
  match scripts_of packageJson with
  | Some scripts =>
      let has key := Value.truthy (Value.prop key scripts) in
      if (has "test:e2e" || has "e2e" || has "test:playwright")%bool then
        {| DeploymentConfig.version := DeploymentConfig.version config;
           DeploymentConfig.autoDeployOnComplete :=
             DeploymentConfig.autoDeployOnComplete config;
           DeploymentConfig.buildSteps := DeploymentConfig.buildSteps config;
           DeploymentConfig.deploySteps := DeploymentConfig.deploySteps config;
           DeploymentConfig.e2eTests :=
             Some {| E2ETestConfig.command :=
                       if has "test:e2e" then "npm run test:e2e"
                       else if has "e2e" then "npm run e2e"
                       else "npm run test:playwright";
                     E2ETestConfig.workingDirectory := None;
                     E2ETestConfig.waitForUrl :=
                       DeploymentConfig.healthCheckUrl config;
                     E2ETestConfig.waitTimeout := Some 60000;
                     E2ETestConfig.env := None;
                     E2ETestConfig.timeout := Some 600000 |};
           DeploymentConfig.healthCheckUrl :=
             DeploymentConfig.healthCheckUrl config;
           DeploymentConfig.healthCheckTimeout :=
             DeploymentConfig.healthCheckTimeout config |}
      else config
  | None => config
  end.

(** [Ensure we have at least some deploy steps] *)
Definition with_some_deploy_step (config : DeploymentConfig.t)
  : DeploymentConfig.t :=
  if (length (DeploymentConfig.deploySteps config) =? 0)%nat then
    {| DeploymentConfig.version := DeploymentConfig.version config;
       DeploymentConfig.autoDeployOnComplete :=
         DeploymentConfig.autoDeployOnComplete config;
       DeploymentConfig.buildSteps := DeploymentConfig.buildSteps config;
       DeploymentConfig.deploySteps :=
         DeploymentConfig.deploySteps config
         ++ [named "Start application" "npm start"];
       DeploymentConfig.e2eTests := DeploymentConfig.e2eTests config;
       DeploymentConfig.healthCheckUrl := Some "http://localhost:3000";
       DeploymentConfig.healthCheckTimeout := Some 60000 |}
  else config.

(** [generateDeploymentConfig(projectPath)] *)
Definition generateDeploymentConfig (projectPath : string)
  : M DeploymentConfig.t :=
  packageJson ← read_packageJson projectPath;
  compose ← find_compose projectPath COMPOSE_NAMES;
  hasDockerfile ←
    try_catch
      (secureFs_access E (Js.path_join projectPath "Dockerfile") ;; ret true)
      (fun _ => ret false);
  config ←
    match compose with
    | Some dockerComposeContent =>
        ret {| DeploymentConfig.version := 1;
               DeploymentConfig.autoDeployOnComplete := false;
               DeploymentConfig.buildSteps := [];
               DeploymentConfig.deploySteps :=
                 [named "Build Docker images" "docker compose build --no-cache";
                  named "Start services" "docker compose up -d"];
               DeploymentConfig.e2eTests := None;
               DeploymentConfig.healthCheckUrl :=
                 Some (localhost (compose_port dockerComposeContent));
               DeploymentConfig.healthCheckTimeout := Some 120000 |}
    | None =>
        if hasDockerfile : bool then
          ret {| DeploymentConfig.version := 1;
                 DeploymentConfig.autoDeployOnComplete := false;
                 DeploymentConfig.buildSteps := [];
                 DeploymentConfig.deploySteps :=
                   [named "Build Docker image" "docker build -t app .";
                    named "Start container" "docker run -d -p 3000:3000 app"];
                 DeploymentConfig.e2eTests := None;
                 DeploymentConfig.healthCheckUrl := Some "http://localhost:3000";
                 DeploymentConfig.healthCheckTimeout := Some 60000 |}
        else
          match scripts_of packageJson with
          | Some scripts => from_scripts packageJson scripts
          | None =>
              ret {| DeploymentConfig.version := 1;
                     DeploymentConfig.autoDeployOnComplete := false;
                     DeploymentConfig.buildSteps := [];
                     DeploymentConfig.deploySteps := [];
                     DeploymentConfig.e2eTests := None;
                     DeploymentConfig.healthCheckUrl := None;
                     DeploymentConfig.healthCheckTimeout := None |}
          end
    end;
  ret (with_some_deploy_step (with_e2eTests packageJson config)).

End Generate.



(* ================================================================== *)
(** * Facts about strings *)
(* ================================================================== *)

Lemma append_nil_l (s : string) : "" +:+ s = s.
Proof. reflexivity. Qed.

Lemma append_cons (c : ascii) (s t : string) :
  String c s +:+ t = String c (s +:+ t).
Proof. reflexivity. Qed.

Lemma append_nil_r (s : string) : s +:+ "" = s.
Proof.
  induction s as [|c s IH]; [reflexivity |].
  now rewrite append_cons, IH.
Qed.

Lemma append_assoc (a b c : string) : (a +:+ b) +:+ c = a +:+ (b +:+ c).
Proof.
  induction a as [|x a IH]; [reflexivity |].
  now rewrite !append_cons, IH.
Qed.

(* ================================================================== *)
(** * Facts about the promise of [executeCommand] *)
(* ================================================================== *)

Section ExecFacts.

Import Exec.

Variable timeoutMs : Z.

Lemma timer_delay_pos (ms : Z) : 1 <= Js.timer_delay ms.
Proof.
  unfold Js.timer_delay.
  destruct (ms <? 1) eqn:H1; simpl; [lia |].
  destruct (2147483647 <? ms); lia.
Qed.

(** The callbacks of the events delivered in time come first, in order. *)
Lemma schedule_in_time (output rest : ChildRun) :
  in_time timeoutMs output ->
  schedule (Js.timer_delay timeoutMs) (output ++ rest) =
  map (fun te => (fst te, callback_of (snd te))) output
    ++ schedule (Js.timer_delay timeoutMs) rest.
Proof.
  induction 1 as [|[t e] output Ht _ IH]; simpl; [reflexivity |].
  simpl in Ht. destruct (Z.leb_spec (Js.timer_delay timeoutMs) t); [lia |].
  now rewrite IH.
Qed.

(** A closure in which nothing has been decided yet. *)
Definition waiting (c : Closure) : Prop :=
  timer_armed c = true /\ signals c = [] /\ exited c = false /\
  settled c = None.

Lemma until_settled_pending (t : Z) (cb : Callback)
    (cbs : list (Z * Callback)) (c : Closure) :
  settled (handle timeoutMs t cb c) = None ->
  until_settled timeoutMs ((t, cb) :: cbs) c =
  until_settled timeoutMs cbs (handle timeoutMs t cb c).
Proof. intros H. simpl. now rewrite H. Qed.

(** A chunk of output leaves everything undecided. *)
Lemma handle_data (t : Z) (e : ChildEvent) (rest : ChildRun) (c : Closure) :
  is_data e = true ->
  waiting c ->
  let c' := handle timeoutMs t (callback_of e) c in
  waiting c' /\
  stdout c' +:+ stdout_of rest = stdout c +:+ stdout_of ((t, e) :: rest) /\
  stderr c' +:+ stderr_of rest = stderr c +:+ stderr_of ((t, e) :: rest).
Proof.
  intros He (Ha & Hs & Hx & Hn).
  destruct e as [d|d| |]; simpl in He; try discriminate; simpl;
    (split; [unfold waiting; simpl; tauto |]);
    rewrite ?append_assoc; split; reflexivity.
Qed.

Lemma until_settled_data (output : ChildRun) (cbs : list (Z * Callback))
    (c : Closure) :
  Forall (fun te => is_data (snd te) = true) output ->
  waiting c ->
  exists c',
    until_settled timeoutMs
      (map (fun te => (fst te, callback_of (snd te))) output ++ cbs) c =
    until_settled timeoutMs cbs c' /\
    waiting c' /\
    stdout c' = stdout c +:+ stdout_of output /\
    stderr c' = stderr c +:+ stderr_of output.
Proof.
  intros Hdata. revert c.
  induction Hdata as [|[t e] output He _ IH]; intros c Hc.
  - exists c. simpl. now rewrite !append_nil_r.
  - destruct (handle_data t e output c He Hc) as (Hw & Ho & He').
    destruct (IH _ Hw) as (c' & Hrun & Hw' & Ho' & He'').
    exists c'. cbn [map app fst snd].
    rewrite until_settled_pending by apply Hw.
    rewrite Hrun, Ho', He'', Ho, He'. auto.
Qed.

Lemma run_callbacks_data (output : ChildRun) (cbs : list (Z * Callback))
    (c : Closure) :
  Forall (fun te => is_data (snd te) = true) output ->
  waiting c ->
  exists c',
    run_callbacks timeoutMs
      (map (fun te => (fst te, callback_of (snd te))) output ++ cbs) c =
    run_callbacks timeoutMs cbs c' /\
    waiting c' /\
    stdout c' = stdout c +:+ stdout_of output /\
    stderr c' = stderr c +:+ stderr_of output.
Proof.
  intros Hdata. revert c.
  induction Hdata as [|[t e] output He _ IH]; intros c Hc.
  - exists c. simpl. now rewrite !append_nil_r.
  - destruct (handle_data t e output c He Hc) as (Hw & Ho & He').
    destruct (IH _ Hw) as (c' & Hrun & Hw' & Ho' & He'').
    exists c'. cbn [map app fst snd]. unfold run_callbacks in *.
    cbn [fold_left fst snd].
    rewrite Hrun, Ho', He'', Ho, He'. auto.
Qed.

Lemma waiting_start : waiting start.
Proof. now repeat split. Qed.

(** Once the promise is settled no callback changes its value, and none
    re-arms the timer. *)
Lemma handle_settled (t : Z) (cb : Callback) (c : Closure) (v : CmdResult) :
  settled c = Some v ->
  settled (handle timeoutMs t cb c) = Some v /\
  settled_at (handle timeoutMs t cb c) = settled_at c.
Proof.
  intros H. destruct cb; simpl; unfold resolve; simpl; rewrite ?H; auto.
  destruct (timer_armed c); simpl; rewrite ?H; auto.
Qed.

Lemma run_callbacks_settled (cbs : list (Z * Callback)) (c : Closure)
    (v : CmdResult) :
  settled c = Some v ->
  settled (run_callbacks timeoutMs cbs c) = Some v /\
  settled_at (run_callbacks timeoutMs cbs c) = settled_at c.
Proof.
  revert c. induction cbs as [|[t cb] cbs IH]; intros c H; [now split |].
  unfold run_callbacks in *. simpl.
  destruct (handle_settled t cb c v H) as [H1 H2].
  destruct (IH _ H1) as [H3 H4]. split; [exact H3 | congruence].
Qed.

(** The promise has the value it had when it was settled. *)
Lemma until_settled_finish (cbs : list (Z * Callback)) (c : Closure) :
  settled c = None ->
  settled (until_settled timeoutMs cbs c) =
  settled (run_callbacks timeoutMs cbs c).
Proof.
  revert c. induction cbs as [|[t cb] cbs IH]; intros c H; [reflexivity |].
  unfold run_callbacks in *. simpl.
  destruct (settled (handle timeoutMs t cb c)) as [v|] eqn:Hv.
  - symmetry. rewrite Hv. apply (run_callbacks_settled cbs _ v Hv).
  - now apply IH.
Qed.

(** The timer is armed as long as the promise is pending. *)
Definition armed_while_pending (c : Closure) : Prop :=
  settled c = None -> timer_armed c = true.

Lemma handle_armed (t : Z) (cb : Callback) (c : Closure) :
  armed_while_pending c -> armed_while_pending (handle timeoutMs t cb c).
Proof.
  unfold armed_while_pending. intros H.
  destruct cb; simpl; unfold resolve; simpl; auto.
  - destruct (timer_armed c) eqn:Ha; simpl.
    + destruct (settled c) eqn:Hs; simpl; intros; congruence.
    + intros Hn. discriminate (H Hn).
  - destruct (settled c) eqn:Hs; simpl; intros; congruence.
  - destruct (settled c) eqn:Hs; simpl; intros; congruence.
Qed.

Lemma until_settled_schedule (run : ChildRun) (c : Closure) :
  armed_while_pending c ->
  settled c = None ->
  settled (until_settled timeoutMs (schedule (Js.timer_delay timeoutMs) run) c)
    <> None.
Proof.
  revert c. induction run as [|[t e] run IH]; intros c Harm Hn.
  - simpl. rewrite (Harm Hn). unfold resolve; simpl. rewrite Hn. simpl.
    discriminate.
  - simpl. destruct (Js.timer_delay timeoutMs <=? t).
    + simpl. rewrite (Harm Hn). unfold resolve; simpl. rewrite Hn. simpl.
      discriminate.
    + simpl.
      destruct (settled (handle timeoutMs t (callback_of e) c)) eqn:Hs.
      * rewrite Hs. discriminate.
      * apply IH; [now apply handle_armed | exact Hs].
Qed.

(** The promise is always settled: if nothing else does it, the timer
    does. *)
Lemma at_settle_settled (run : ChildRun) :
  exists v, settled (at_settle timeoutMs run) = Some v.
Proof.
  unfold at_settle.
  destruct (settled (until_settled timeoutMs _ start)) as [v|] eqn:H.
  - now exists v.
  - exfalso. revert H. apply until_settled_schedule; [intros _ |]; reflexivity.
Qed.

End ExecFacts.

(* ================================================================== *)
(** * Reasoning about computations *)
(* ================================================================== *)

(** [wp m Φ s]: run from [s], [m] returns or throws (its promise is
    settled), and [Φ] holds of the outcome and the final state. *)
Definition wp {A} (m : M A) (Φ : Outcome A -> State -> Prop) (s : State)
  : Prop :=
  match m s with
  | (Pending, _) => False
  | (o, s') => Φ o s'
  end.

(** The continuation of a [bind], as a postcondition. *)
Definition and_then {A B} (k : A -> M B) (Φ : Outcome B -> State -> Prop)
  : Outcome A -> State -> Prop :=
  fun o s =>
    match o with
    | Ok a => wp (k a) Φ s
    | Throw e => Φ (Throw e) s
    | Pending => False
    end.

(** The handler of a [try], as a postcondition. *)
Definition or_else {A} (handler : string -> M A)
    (Φ : Outcome A -> State -> Prop) : Outcome A -> State -> Prop :=
  fun o s =>
    match o with
    | Throw e => wp (handler e) Φ s
    | _ => Φ o s
    end.

Section WpRules.

Context {A B : Type}.

Lemma wp_run (m : M A) (Φ : Outcome A -> State -> Prop) (s : State) :
  wp m Φ s ->
  exists o s', m s = (o, s') /\ o <> Pending /\ Φ o s'.
Proof.
  unfold wp. destruct (m s) as [[a|e|] s']; intros H; try contradiction;
    eexists _, _; (split; [reflexivity |]); (split; [discriminate | exact H]).
Qed.

Lemma wp_intro (m : M A) (Φ : Outcome A -> State -> Prop) (s s' : State)
    (o : Outcome A) :
  m s = (o, s') -> o <> Pending -> Φ o s' -> wp m Φ s.
Proof. unfold wp. intros -> Ho H. destruct o; [exact H | exact H | congruence]. Qed.

Lemma wp_mono (m : M A) (Φ Ψ : Outcome A -> State -> Prop) (s : State) :
  wp m Φ s -> (forall o s', o <> Pending -> Φ o s' -> Ψ o s') -> wp m Ψ s.
Proof.
  unfold wp. destruct (m s) as [[a|e|] s']; intros H HΦ; try contradiction;
    apply HΦ; try discriminate; exact H.
Qed.

Lemma wp_ret (a : A) (Φ : Outcome A -> State -> Prop) (s : State) :
  Φ (Ok a) s -> wp (ret a) Φ s.
Proof. exact id. Qed.

Lemma wp_throw (e : string) (Φ : Outcome A -> State -> Prop) (s : State) :
  Φ (Throw e) s -> wp (throw e) Φ s.
Proof. exact id. Qed.

Lemma wp_bind (m : M A) (k : A -> M B) (Φ : Outcome B -> State -> Prop)
    (s : State) :
  wp m (and_then k Φ) s -> wp (m ≫= k) Φ s.
Proof.
  unfold wp, and_then, mbind, M_bind, bind.
  destruct (m s) as [[a|e|] s']; auto.
Qed.

Lemma wp_try_catch (body : M A) (handler : string -> M A)
    (Φ : Outcome A -> State -> Prop) (s : State) :
  wp body (or_else handler Φ) s -> wp (try_catch body handler) Φ s.
Proof.
  unfold wp, or_else, try_catch.
  destruct (body s) as [[a|e|] s']; auto.
Qed.

End WpRules.

Lemma wp_get (Φ : Outcome State -> State -> Prop) (s : State) :
  Φ (Ok s) s -> wp get Φ s.
Proof. exact id. Qed.

Lemma wp_modify (f : State -> State) (Φ : Outcome unit -> State -> Prop)
    (s : State) :
  Φ (Ok tt) (f s) -> wp (modify f) Φ s.
Proof. exact id. Qed.

Lemma wp_Date_now (Φ : Outcome Z -> State -> Prop) (s : State) :
  Φ (Ok (clock s)) s -> wp Date_now Φ s.
Proof. exact id. Qed.

(* ================================================================== *)
(** * What the operations of the service do to the singleton *)
(* ================================================================== *)

(** What an operation may change in the current deployment. *)
Definition keeps_results (d d' : DeploymentResult.t) : Prop :=
  DeploymentResult.id d' = DeploymentResult.id d /\
  DeploymentResult.buildResults d' = DeploymentResult.buildResults d /\
  DeploymentResult.deployResults d' = DeploymentResult.deployResults d.

Definition keeps_id (d d' : DeploymentResult.t) : Prop :=
  DeploymentResult.id d' = DeploymentResult.id d.

(** The identifier under which [emitEvent] publishes in state [s]. *)
Definition current_id (s : State) : option string :=
  option_map DeploymentResult.id (currentDeployment s).

(** [carries K T s s']: from [s] to [s'] the current deployment, if there
    is one, is still there and has changed within [K]; the emitter, if
    one is attached, has been given new events only, all published under
    the identifier of the current deployment and of a type in [T]. *)
Definition carries (K : DeploymentResult.t -> DeploymentResult.t -> Prop)
    (T : DeploymentEventType.t -> Prop) (s s' : State) : Prop :=
  match currentDeployment s, currentDeployment s' with
  | Some d, Some d' => K d d'
  | None, None => True
  | _, _ => False
  end /\
  match eventEmitter s, eventEmitter s' with
  | Some emitted, Some emitted' =>
      exists new,
        emitted' = emitted ++ new /\
        Forall (fun e => Some (DeploymentEvent.deploymentId e) = current_id s /\
                         T (DeploymentEvent.type e)) new
  | None, None => True
  | _, _ => False
  end.

(** The parts of the world an operation leaves alone. *)
Definition same_world (s s' : State) : Prop :=
  files s' = files s /\ children s' = children s /\
  fetches s' = fetches s /\ randoms s' = randoms s.

Section Carries.

Variable K : DeploymentResult.t -> DeploymentResult.t -> Prop.
Hypothesis K_refl : forall d, K d d.
Hypothesis K_trans : forall d1 d2 d3, K d1 d2 -> K d2 d3 -> K d1 d3.
Hypothesis K_id : forall d d', K d d' -> keeps_id d d'.

Lemma carries_refl T s : carries K T s s.
Proof.
  split.
  - destruct (currentDeployment s); auto.
  - destruct (eventEmitter s); auto. exists []. now rewrite app_nil_r.
Qed.

Lemma carries_current_id T s s' : carries K T s s' -> current_id s' = current_id s.
Proof.
  intros [H _]. unfold current_id.
  destruct (currentDeployment s), (currentDeployment s'); try contradiction;
    [| reflexivity].
  simpl. f_equal. now apply K_id.
Qed.

Lemma carries_trans (T : DeploymentEventType.t -> Prop) s1 s2 s3 :
  carries K T s1 s2 -> carries K T s2 s3 -> carries K T s1 s3.
Proof.
  intros H12 H23. pose proof (carries_current_id _ _ _ H12) as Hid.
  destruct H12 as [Hc12 He12], H23 as [Hc23 He23]. split.
  - destruct (currentDeployment s1), (currentDeployment s2),
      (currentDeployment s3); try contradiction; eauto.
  - destruct (eventEmitter s1), (eventEmitter s2), (eventEmitter s3);
      try contradiction; auto.
    destruct He12 as (n1 & -> & F1), He23 as (n2 & -> & F2).
    exists (n1 ++ n2). rewrite app_assoc. split; [reflexivity |].
    apply Forall_app. split; [exact F1 |].
    rewrite Hid in F2. exact F2.
Qed.

Lemma carries_weaken (T T' : DeploymentEventType.t -> Prop) s s' :
  (forall t, T t -> T' t) -> carries K T s s' -> carries K T' s s'.
Proof.
  intros HT [Hc He]. split; [exact Hc |].
  destruct (eventEmitter s), (eventEmitter s'); auto.
  destruct He as (new & -> & F). exists new. split; [reflexivity |].
  eapply Forall_impl; [exact F |]. intros e [? ?]. auto.
Qed.

End Carries.

Lemma carries_relax K K' T s s' :
  (forall d d', K d d' -> K' d d') -> carries K T s s' -> carries K' T s s'.
Proof.
  intros HK [Hc He]. split; [| exact He].
  destruct (currentDeployment s), (currentDeployment s'); auto.
Qed.

Lemma keeps_results_refl d : keeps_results d d.
Proof. now repeat split. Qed.

Lemma keeps_results_trans d1 d2 d3 :
  keeps_results d1 d2 -> keeps_results d2 d3 -> keeps_results d1 d3.
Proof. intros (?&?&?) (?&?&?). repeat split; congruence. Qed.

Lemma keeps_results_id d d' : keeps_results d d' -> keeps_id d d'.
Proof. now intros (?&?&?). Qed.

Lemma keeps_id_refl d : keeps_id d d.
Proof. reflexivity. Qed.

Lemma keeps_id_trans d1 d2 d3 : keeps_id d1 d2 -> keeps_id d2 d3 -> keeps_id d1 d3.
Proof. unfold keeps_id. congruence. Qed.

Lemma same_world_refl s : same_world s s.
Proof. now repeat split. Qed.

Lemma same_world_trans s1 s2 s3 :
  same_world s1 s2 -> same_world s2 s3 -> same_world s1 s3.
Proof. intros (?&?&?&?) (?&?&?&?). repeat split; congruence. Qed.

Definition carries_results_refl T s : carries keeps_results T s s :=
  carries_refl keeps_results keeps_results_refl T s.

Definition carries_results_trans T s1 s2 s3
  : carries keeps_results T s1 s2 -> carries keeps_results T s2 s3 ->
    carries keeps_results T s1 s3 :=
  carries_trans keeps_results keeps_results_trans keeps_results_id T s1 s2 s3.

Definition carries_id_refl T s : carries keeps_id T s s :=
  carries_refl keeps_id keeps_id_refl T s.

Definition carries_id_trans T s1 s2 s3
  : carries keeps_id T s1 s2 -> carries keeps_id T s2 s3 ->
    carries keeps_id T s1 s3 :=
  carries_trans keeps_id keeps_id_trans (fun d d' H => H) T s1 s2 s3.

Create HintDb run.

#[local] Hint Resolve keeps_results_refl keeps_results_trans keeps_results_id
  keeps_id_refl keeps_id_trans same_world_refl : run.

Section Primitives.

Variable E : Env.

(** No client ever asks for a cancellation. *)
Definition undisturbed : Prop := forall n, requests E n = [].

(** The only event a cancellation publishes. *)
Definition cancel_event (t : DeploymentEventType.t) : Prop :=
  t = DeploymentEventType.deployment_failed /\ ~ undisturbed.

(** What a suspension leaves behind. *)
Definition resumes (s s' : State) : Prop :=
  carries keeps_results cancel_event s s' /\ same_world s s' /\
  clock s <= clock s'.

Lemma resumes_refl s : resumes s s.
Proof.
  split; [apply carries_results_refl |].
  split; [apply same_world_refl | lia].
Qed.

Lemma resumes_trans s1 s2 s3 : resumes s1 s2 -> resumes s2 s3 -> resumes s1 s3.
Proof.
  intros (C1 & W1 & L1) (C2 & W2 & L2). split; [| split].
  - eapply carries_results_trans; eauto.
  - eapply same_world_trans; eauto.
  - lia.
Qed.

Lemma emitEvent_run type data s :
  exists s',
    emitEvent type data s = (Ok tt, s') /\
    carries keeps_results (eq type) s s' /\ same_world s s' /\
    clock s' = clock s /\ suspensions s' = suspensions s.
Proof.
  unfold emitEvent.
  destruct (eventEmitter s) as [emitted|] eqn:He;
    destruct (currentDeployment s) as [d|] eqn:Hd;
    eexists; (split; [reflexivity |]); unfold carries, same_world, current_id;
    simpl; rewrite ?He, ?Hd; repeat split; auto with run.
  - eexists. split; [reflexivity |]. repeat constructor.
  - exists []. now rewrite app_nil_r.
Qed.

Lemma update_current_run f s d :
  currentDeployment s = Some d ->
  update_current f s = (Ok tt, with_currentDeployment (Some (f d)) s).
Proof. unfold update_current. now intros ->. Qed.

(** A cancellation either does nothing or marks the deployment failed
    and says so once. *)
Lemma cancelDeployment_run s :
  exists s',
    cancelDeployment s = (Ok tt, s') /\
    carries keeps_results (eq DeploymentEventType.deployment_failed) s s' /\
    same_world s s' /\ clock s' = clock s /\ suspensions s' = suspensions s.
Proof.
  unfold cancelDeployment, isDeploymentRunning, getCurrentDeployment, running,
    mbind, M_bind, bind.
  destruct (currentDeployment s) as [d|] eqn:Hd; simpl.
  2:{ exists s. split; [reflexivity |].
      split; [apply carries_results_refl |]. now repeat split. }
  destruct (in_flight (DeploymentResult.status d)) eqn:Hf.
  2:{ exists s. split; [reflexivity |].
      split; [apply carries_results_refl |]. now repeat split. }
  unfold update_current, Date_now, emitEvent, mbind, M_bind, bind. simpl.
  rewrite Hd. simpl.
  destruct (eventEmitter s) as [emitted|] eqn:He; simpl;
    eexists; (split; [reflexivity |]); unfold carries, same_world, current_id;
    simpl; rewrite ?He, ?Hd; simpl; repeat split; auto.
  eexists. split; [reflexivity |]. repeat constructor.
Qed.

Lemma serve_all_run (rs : list Request) s :
  rs <> [] \/ rs = [] ->
  let s' := fold_left (fun s r => serve r s) rs s in
  carries keeps_results
    (fun t => t = DeploymentEventType.deployment_failed /\ rs <> []) s s' /\
  same_world s s' /\ clock s' = clock s /\ suspensions s' = suspensions s.
Proof.
  intros _. revert s. induction rs as [|r rs IH]; intros s; simpl.
  - split; [apply carries_results_refl |]. now repeat split.
  - destruct r.
    destruct (cancelDeployment_run s) as (s1 & Hrun & C1 & W1 & L1 & S1).
    replace (serve CancelRequest s) with s1 by (unfold serve; now rewrite Hrun).
    destruct (IH s1) as (C2 & W2 & L2 & S2).
    split; [| split; [eapply same_world_trans; eauto | split; congruence]].
    eapply carries_results_trans.
    + eapply carries_weaken; [| exact C1]. intros t <-. split; [reflexivity | discriminate].
    + eapply carries_weaken; [| exact C2]. intros t [-> _]. split; [reflexivity | discriminate].
Qed.

Lemma suspend_run ms s :
  exists s',
    suspend E ms s = (Ok tt, s') /\ resumes s s' /\
    clock s + Z.max 0 ms <= clock s' /\
    suspensions s' = S (suspensions s).
Proof.
  unfold suspend. eexists. split; [reflexivity |].
  set (s1 := elapse _ s).
  destruct (serve_all_run (requests E (suspensions s)) s1) as (C & W & L & S);
    [destruct (requests E (suspensions s)); [right | left]; congruence |].
  assert (Hs1 : carries keeps_results cancel_event s s1).
  { unfold carries, current_id, s1. simpl.
    destruct (currentDeployment s), (eventEmitter s); repeat split; auto with run;
      exists []; now rewrite app_nil_r. }
  split; [split; [| split] |].
  - eapply carries_results_trans; [exact Hs1 |].
    eapply carries_weaken; [| exact C]. intros t [-> Hne]. split; [reflexivity |].
    intros Hq. apply Hne, Hq.
  - eapply same_world_trans; [| exact W]. now repeat split.
  - rewrite L. unfold s1. simpl. lia.
  - rewrite L, S. unfold s1. simpl. split; [lia | reflexivity].
Qed.

End Primitives.

(* ================================================================== *)
(** * [executeCommand] *)
(* ================================================================== *)

Section ExecOutcomes.

Import Exec.

Variable timeoutMs : Z.

Lemma waiting_start_outputs (output : ChildRun) (cbs : list (Z * Callback)) :
  Forall (fun te => is_data (snd te) = true) output ->
  exists c,
    until_settled timeoutMs
      (map (fun te => (fst te, callback_of (snd te))) output ++ cbs) start =
    until_settled timeoutMs cbs c /\
    run_callbacks timeoutMs
      (map (fun te => (fst te, callback_of (snd te))) output ++ cbs) start =
    run_callbacks timeoutMs cbs c /\
    waiting c /\ stdout c = stdout_of output /\ stderr c = stderr_of output.
Proof.
  intros Hdata. revert cbs.
  assert (G : forall c0, waiting c0 -> forall cbs, exists c,
    until_settled timeoutMs
      (map (fun te => (fst te, callback_of (snd te))) output ++ cbs) c0 =
    until_settled timeoutMs cbs c /\
    run_callbacks timeoutMs
      (map (fun te => (fst te, callback_of (snd te))) output ++ cbs) c0 =
    run_callbacks timeoutMs cbs c /\
    waiting c /\ stdout c = stdout c0 +:+ stdout_of output /\
    stderr c = stderr c0 +:+ stderr_of output).
  { induction Hdata as [|[t e] output He _ IH]; intros c0 Hc0 cbs.
    - exists c0. simpl. now rewrite !append_nil_r.
    - destruct (handle_data timeoutMs t e output c0 He Hc0) as (Hw & Ho & He').
      destruct (IH _ Hw cbs) as (c & Hu & Hr & Hw' & Ho' & He'').
      exists c. cbn [map app fst snd].
      rewrite until_settled_pending by apply Hw.
      unfold run_callbacks in *. cbn [fold_left fst snd].
      rewrite Hu, Hr, Ho', He'', Ho, He'. auto. }
  intros cbs. destruct (G start waiting_start cbs) as (c & ? & ? & ? & ? & ?).
  exists c. auto.
Qed.



(** Whatever is scheduled when the timer is due starts with the timer. *)
Lemma schedule_overrun (output run : ChildRun) :
  overruns timeoutMs run output ->
  exists cbs,
    schedule (Js.timer_delay timeoutMs) run =
    map (fun te => (fst te, callback_of (snd te))) output
      ++ (Js.timer_delay timeoutMs, OnTimeout) :: cbs.
Proof.
  intros (Hdata & Htime & [-> | (t & e & later & -> & Ht)]).
  - exists []. rewrite <- (app_nil_r output) at 1.
    now rewrite (schedule_in_time timeoutMs output [] Htime).
  - eexists. rewrite (schedule_in_time timeoutMs output _ Htime). simpl.
    destruct (Z.leb_spec (Js.timer_delay timeoutMs) t); [reflexivity | lia].
Qed.

(** The child is still at it when the timer is due: the timer sends
    [SIGTERM] and settles the promise, while the child has not exited. *)
Lemma at_settle_timeout (output run : ChildRun) :
  overruns timeoutMs run output ->
  at_settle timeoutMs run =
  {| stdout := stdout_of output; stderr := stderr_of output;
     timer_armed := false; signals := [SIGTERM]; exited := false;
     settled := Some {| success := false; output := stdout_of output;
                        error := Some (timeout_message timeoutMs) |};
     settled_at := Js.timer_delay timeoutMs |}.
Proof.
  intros H. destruct (schedule_overrun output run H) as (cbs & Hs).
  destruct H as (Hdata & _). unfold at_settle. rewrite Hs.
  destruct (waiting_start_outputs output
              ((Js.timer_delay timeoutMs, OnTimeout) :: cbs) Hdata)
    as (c & -> & _ & (Ha & Hsig & Hx & Hn) & Ho & He).
  simpl. rewrite Ha. unfold resolve. simpl. rewrite Hn. simpl.
  now rewrite Hsig, Hx, Ho, He.
Qed.

(** Once the timer is disarmed no signal is sent any more. *)
Lemma handle_disarmed (t : Z) (cb : Callback) (c : Closure) :
  timer_armed c = false ->
  timer_armed (handle timeoutMs t cb c) = false /\
  signals (handle timeoutMs t cb c) = signals c.
Proof.
  intros H. destruct cb; simpl; unfold resolve; simpl; rewrite ?H; auto;
    destruct (settled c); auto.
Qed.

Lemma run_callbacks_disarmed (cbs : list (Z * Callback)) (c : Closure) :
  timer_armed c = false ->
  signals (run_callbacks timeoutMs cbs c) = signals c.
Proof.
  revert c. induction cbs as [|[t cb] cbs IH]; intros c H; [reflexivity |].
  unfold run_callbacks in *. simpl.
  destruct (handle_disarmed t cb c H) as [H1 H2].
  now rewrite (IH _ H1).
Qed.

(** [SIGTERM], sent once by the timer, is the only signal a child that
    overruns is ever sent. *)
Lemma finish_timeout_signals (output run : ChildRun) :
  overruns timeoutMs run output ->
  signals (finish timeoutMs run) = [SIGTERM].
Proof.
  intros H. destruct (schedule_overrun output run H) as (cbs & Hs).
  destruct H as (Hdata & _). unfold finish. rewrite Hs.
  destruct (waiting_start_outputs output
              ((Js.timer_delay timeoutMs, OnTimeout) :: cbs) Hdata)
    as (c & _ & -> & (Ha & Hsig & Hx & Hn) & Ho & He).
  change (run_callbacks timeoutMs ((Js.timer_delay timeoutMs, OnTimeout) :: cbs) c)
    with (run_callbacks timeoutMs cbs
            (handle timeoutMs (Js.timer_delay timeoutMs) OnTimeout c)).
  rewrite run_callbacks_disarmed.
  - simpl. rewrite Ha. unfold resolve. simpl. rewrite Hn. simpl. now rewrite Hsig.
  - simpl. rewrite Ha. unfold resolve. simpl. now rewrite Hn.
Qed.

End ExecOutcomes.

Section ExecuteCommand.

Variable E : Env.

(** The record [executeCommand] keeps of the child it spawns in [s]. *)
Definition spawned (command workingDirectory : string) (env : StringMap)
    (timeoutMs : Z) (s : State) : Child :=
  let run := child_run E (length (children s)) in
  {| shell := if is_windows E then "cmd.exe" else "/bin/sh";
     shellArgs := if is_windows E then ["/c"; command] else ["-c"; command];
     cwd := workingDirectory;
     child_env := env ∪ process_env E;
     on_return := Exec.at_settle timeoutMs run;
     in_the_end := Exec.finish timeoutMs run |}.

(** [executeCommand] returns the value its promise is settled with; in
    the meantime one child has been spawned and the service has been
    suspended once. *)
Lemma executeCommand_run command workingDirectory env timeoutMs s :
  exists value s',
    executeCommand E command workingDirectory env timeoutMs s = (Ok value, s') /\
    Exec.settled (Exec.at_settle timeoutMs (child_run E (length (children s))))
      = Some value /\
    children s' =
      children s ++ [spawned command workingDirectory env timeoutMs s] /\
    carries keeps_results (cancel_event E) s s' /\
    files s' = files s /\ fetches s' = fetches s /\ randoms s' = randoms s /\
    clock s <= clock s'.
Proof.
  destruct (at_settle_settled timeoutMs (child_run E (length (children s))))
    as (value & Hv).
  set (child := spawned command workingDirectory env timeoutMs s).
  set (s1 := with_children (children s ++ [child]) s).
  destruct (suspend_run E
              (Exec.settled_at
                 (Exec.at_settle timeoutMs (child_run E (length (children s)))))
              s1)
    as (s' & Hs & (C & (Wf & Wc & Wt & Wr) & L) & _ & _).
  exists value, s'.
  split; [| split; [exact Hv | split; [exact Wc | split; [| now repeat split]]]].
  - cbv beta iota zeta delta [executeCommand get modify mbind M_bind bind ret].
    rewrite Hv. cbv beta iota.
    change (with_children _ s) with s1. now rewrite Hs.
  - eapply carries_results_trans; [| exact C].
    unfold carries, current_id, s1. simpl.
    destruct (currentDeployment s), (eventEmitter s); repeat split; auto with run;
      exists []; now rewrite app_nil_r.
Qed.


(** C7, as the code has it.  When the child neither exits nor fails to
    start before the timer armed for [timeoutMs] is due,
    [executeCommand] resolves to a failure whose error is the time-out
    message and whose output is the standard output captured so far.
    The timer sends the child [SIGTERM]; no other signal is ever sent,
    and the promise is settled at once, without waiting for the child:
    when the call returns the child has not been seen to exit. *)
Theorem executeCommand_timeout command workingDirectory env timeoutMs s output :
  Exec.overruns timeoutMs (child_run E (length (children s))) output ->
  exists s' child,
    executeCommand E command workingDirectory env timeoutMs s =
    (Ok {| Exec.success := false;
           Exec.output := Exec.stdout_of output;
           Exec.error :=
             Some ("Command timed out after " +:+ Js.show timeoutMs +:+ "ms") |},
     s') /\
    children s' = children s ++ [child] /\
    shellArgs child = (if is_windows E then ["/c"; command] else ["-c"; command]) /\
    Exec.signals (on_return child) = [Exec.SIGTERM] /\
    Exec.exited (on_return child) = false /\
    Exec.signals (in_the_end child) = [Exec.SIGTERM].
Proof.
  intros Hover.
  destruct (executeCommand_run command workingDirectory env timeoutMs s)
    as (value & s' & Hrun & Hv & Hc & _).
  pose proof (at_settle_timeout timeoutMs output _ Hover) as Hs.
  pose proof (finish_timeout_signals timeoutMs output _ Hover) as Hf.
  rewrite Hs in Hv. simpl in Hv. injection Hv as <-.
  exists s', (spawned command workingDirectory env timeoutMs s).
  split; [exact Hrun |]. split; [exact Hc |].
  unfold spawned. simpl. rewrite Hs, Hf. simpl. auto.
Qed.

End ExecuteCommand.

(** A world in which nothing ever happens: children are silent and never
    exit, no URL answers, nobody cancels. *)
Definition silent_world : Env :=
  {| child_run := fun _ => [];
     fetch_outcome := fun _ => NetworkError "fetch failed";
     requests := fun _ => [];
     lateness := fun _ => 0%N;
     random := fun _ => "k3x9q1";
     process_env := ∅;
     is_windows := false;
     allowed := fun _ => true |}.

(** A server that has just started, with an emitter attached. *)
Definition fresh : State :=
  {| currentDeployment := None; eventEmitter := Some []; clock := 1700000000000;
     files := ∅; children := []; fetches := []; suspensions := 0; randoms := 0 |}.

(** C7, witness: a command that writes nothing and is still running after
    one second. *)
Lemma executeCommand_timeout_witness :
  Exec.overruns 1000 (child_run silent_world (length (children fresh))) [] /\
  exists s' child,
    executeCommand silent_world "sleep 600" "/srv/app" ∅ 1000 fresh =
    (Ok {| Exec.success := false;
           Exec.output := Exec.stdout_of [];
           Exec.error :=
             Some ("Command timed out after " +:+ Js.show 1000 +:+ "ms") |},
     s') /\
    children s' = children fresh ++ [child] /\
    shellArgs child = (if is_windows silent_world then ["/c"; "sleep 600"]
                       else ["-c"; "sleep 600"]) /\
    Exec.signals (on_return child) = [Exec.SIGTERM] /\
    Exec.exited (on_return child) = false /\
    Exec.signals (in_the_end child) = [Exec.SIGTERM].
Proof.
  assert (H : Exec.overruns 1000
                (child_run silent_world (length (children fresh))) []).
  { split; [constructor | split; [constructor | now left]]. }
  split; [exact H |].
  exact (executeCommand_timeout silent_world "sleep 600" "/srv/app" ∅ 1000
           fresh [] H).
Defined.

(** C7, as stated, fails: a child that ignores [SIGTERM] (it never reports
    an exit) is reported as timed out, and is left running: it has not
    exited when the call returns, nor at any time after. *)
Lemma executeCommand_leaves_child_running :
  exists s' child,
    executeCommand silent_world "trap '' TERM; sleep 600" "/srv/app" ∅ 1000 fresh =
    (Ok {| Exec.success := false; Exec.output := "";
           Exec.error := Some "Command timed out after 1000ms" |}, s') /\
    children s' = [child] /\
    Exec.signals (in_the_end child) = [Exec.SIGTERM] /\
    Exec.exited (on_return child) = false /\
    Exec.exited (in_the_end child) = false.
Proof.
  eexists _, _. split; [vm_compute; reflexivity |].
  split; [reflexivity |]. now vm_compute.
Qed.

(** A world like [silent_world] but for its children and the requests of
    other clients. *)
Definition world_of (runs : nat -> Exec.ChildRun) (reqs : nat -> list Request)
  : Env :=
  {| child_run := runs;
     fetch_outcome := fetch_outcome silent_world;
     requests := reqs;
     lateness := lateness silent_world;
     random := random silent_world;
     process_env := process_env silent_world;
     is_windows := is_windows silent_world;
     allowed := allowed silent_world |}.

(** A test run that complains and fails with exit code 3. *)
Definition failing_tests : Exec.ChildRun :=
  [(10, Exec.StdoutData "12 passed, 3 failed, 1 skipped");
   (20, Exec.StderrData "Error: 3 tests failed");
   (40, Exec.Close (Some 3))].


(* ================================================================== *)
(** * [waitForUrl] *)
(* ================================================================== *)

(** Consecutive requests are at least [gap] milliseconds apart. *)
Fixpoint spaced (gap : Z) (issued : list (string * Z)) : Prop :=
  match issued with
  | (_, t1) :: (((_, t2) :: _) as rest) => t1 + gap <= t2 /\ spaced gap rest
  | _ => True
  end.

Section WaitForUrl.

Variable E : Env.

Lemma reachable_iff (status : Z) : reachable status = true <-> status < 500.
Proof. unfold reachable. lia. Qed.

(** The [n]-th request of the server gets a response that counts as
    reachable. *)
Definition answered (n : nat) : Prop :=
  exists status, fetch_outcome E n = Response status /\ status < 500.

Lemma fetch_run url s :
  exists s',
    fetch E url s =
    (match fetch_outcome E (length (fetches s)) with
     | Response status => Ok status
     | NetworkError message => Throw message
     end, s') /\
    fetches s' = fetches s ++ [(url, clock s)] /\
    carries keeps_results (cancel_event E) s s' /\
    files s' = files s /\ children s' = children s /\
    randoms s' = randoms s /\ clock s <= clock s'.
Proof.
  set (s1 := with_fetches (fetches s ++ [(url, clock s)]) s).
  destruct (suspend_run E 0 s1) as (s' & Hs & (C & (Wf & Wc & Wt & Wr) & L) & _ & _).
  exists s'. split; [| split; [exact Wt | split; [| now repeat split]]].
  - cbv beta iota zeta delta [fetch get modify mbind M_bind bind ret throw].
    change (with_fetches _ s) with s1. rewrite Hs.
    now destruct (fetch_outcome E (length (fetches s))).
  - eapply carries_results_trans; [| exact C].
    unfold carries, current_id, s1. simpl.
    destruct (currentDeployment s), (eventEmitter s); repeat split; auto with run;
      exists []; now rewrite app_nil_r.
Qed.

Lemma sleep_run ms s :
  exists s',
    sleep E ms s = (Ok tt, s') /\ resumes E s s' /\ clock s + 1 <= clock s' /\
    clock s + Js.timer_delay ms <= clock s'.
Proof.
  destruct (suspend_run E (Js.timer_delay ms) s) as (s' & Hs & R & L & _).
  exists s'. pose proof (timer_delay_pos ms).
  split; [exact Hs |]. split; [exact R |]. lia.
Qed.

(** What one call of the loop does, given enough rounds. *)
Lemma waitForUrl_loop_run url timeoutMs intervalMs startTime :
  forall rounds s,
    Z.max 0 (timeoutMs - (clock s - startTime)) < Z.of_nat rounds ->
    exists b s' issued,
      waitForUrl_loop E rounds url timeoutMs intervalMs startTime s = (Ok b, s') /\
      fetches s' = fetches s ++ issued /\
      Forall (fun ut => fst ut = url /\ clock s <= snd ut /\
                        snd ut - startTime < timeoutMs) issued /\
      spaced (Js.timer_delay intervalMs) issued /\
      (b = true <->
       exists j, (j < length issued)%nat /\ answered (length (fetches s) + j)) /\
      (b = false -> timeoutMs <= clock s' - startTime) /\
      carries keeps_results (cancel_event E) s s' /\
      files s' = files s /\ children s' = children s /\
      randoms s' = randoms s /\ clock s <= clock s'.
Proof.
  induction rounds as [|rounds IH]; intros s Hfuel; [simpl in Hfuel; lia |].
  cbn [waitForUrl_loop].
  cbv beta iota zeta delta [mbind M_bind bind Date_now].
  destruct (Z.ltb_spec (clock s - startTime) timeoutMs) as [Hlt | Hge].
  2:{ exists false, s, []. rewrite app_nil_r.
      split; [reflexivity |]. split; [reflexivity |].
      split; [constructor |]. split; [exact I |].
      split; [split; [discriminate | intros (j & Hj & _); simpl in Hj; lia] |].
      split; [intros _; lia |].
      split; [apply carries_results_refl |].
      repeat split; lia. }
  destruct (fetch_run url s) as (s1 & Hf & Hfs & C1 & Wf1 & Wc1 & Wr1 & L1).
  unfold try_catch at 1.
  cbv beta iota zeta delta [mbind M_bind bind]. rewrite Hf.
  destruct (fetch_outcome E (length (fetches s))) as [status | message] eqn:Ho.
  - cbv beta iota delta [ret].
    destruct (reachable status) eqn:Hr.
    + exists true, s1, [(url, clock s)].
      split; [reflexivity |]. split; [exact Hfs |].
      split; [repeat constructor; simpl; lia |]. split; [exact I |].
      split.
      { split; [| reflexivity]. intros _. exists 0%nat. split; [simpl; lia |].
        rewrite Nat.add_0_r. exists status. split; [exact Ho |].
        now apply reachable_iff. }
      split; [discriminate |]. split; [exact C1 |].
      repeat split; auto.
    + destruct (sleep_run intervalMs s1) as (s2 & Hs & (C2 & (Wf2 & Wc2 & Wt2 & Wr2) & _) & L2 & L2').
      rewrite Hs.
      destruct (IH s2) as (b & s' & issued & Hl & Hfs' & Hall & Hsp & Hb & Hd & C3 & Wf3 & Wc3 & Wr3 & L3);
        [lia |].
      exists b, s', ((url, clock s) :: issued). rewrite Hl.
      split; [reflexivity |].
      split; [rewrite Hfs', Wt2, Hfs, <- app_assoc; reflexivity |].
      split; [constructor; [simpl; split; [reflexivity | lia] |];
              eapply Forall_impl; [exact Hall |]; simpl; intros ? (?&?&?);
              repeat split; auto; lia |].
      split.
      { destruct issued as [|[u t] issued]; [exact I |]. split; [| exact Hsp].
        apply Forall_inv in Hall. simpl in Hall. lia. }
      split.
      { rewrite Hb. rewrite Wt2, Hfs, length_app. simpl. split.
        - intros (j & Hj & Ha). exists (S j). split; [lia |].
          replace (length (fetches s) + S j)%nat
            with (length (fetches s) + 1 + j)%nat by lia. exact Ha.
        - intros (j & Hj & Ha). destruct j as [|j].
          + exfalso. rewrite Nat.add_0_r in Ha. destruct Ha as (st & Hst & Hlt500).
            rewrite Ho in Hst. injection Hst as <-.
            apply reachable_iff in Hlt500. congruence.
          + exists j. split; [lia |].
            replace (length (fetches s) + 1 + j)%nat
              with (length (fetches s) + S j)%nat by lia. exact Ha. }
      split; [exact Hd |].
      split; [eapply carries_results_trans; [exact C1 |];
              eapply carries_results_trans; [exact C2 | exact C3] |].
      repeat split; try congruence; lia.
  - cbv beta iota delta [ret throw].
    destruct (sleep_run intervalMs s1) as (s2 & Hs & (C2 & (Wf2 & Wc2 & Wt2 & Wr2) & _) & L2 & L2').
    rewrite Hs.
    destruct (IH s2) as (b & s' & issued & Hl & Hfs' & Hall & Hsp & Hb & Hd & C3 & Wf3 & Wc3 & Wr3 & L3);
      [lia |].
    exists b, s', ((url, clock s) :: issued). rewrite Hl.
    split; [reflexivity |].
    split; [rewrite Hfs', Wt2, Hfs, <- app_assoc; reflexivity |].
    split; [constructor; [simpl; split; [reflexivity | lia] |];
            eapply Forall_impl; [exact Hall |]; simpl; intros ? (?&?&?);
            repeat split; auto; lia |].
    split.
    { destruct issued as [|[u t] issued]; [exact I |]. split; [| exact Hsp].
      apply Forall_inv in Hall. simpl in Hall. lia. }
    split.
    { rewrite Hb. rewrite Wt2, Hfs, length_app. simpl. split.
      - intros (j & Hj & Ha). exists (S j). split; [lia |].
        replace (length (fetches s) + S j)%nat
          with (length (fetches s) + 1 + j)%nat by lia. exact Ha.
      - intros (j & Hj & Ha). destruct j as [|j].
        + exfalso. rewrite Nat.add_0_r in Ha. destruct Ha as (st & Hst & _).
          rewrite Ho in Hst. discriminate.
        + exists j. split; [lia |].
          replace (length (fetches s) + 1 + j)%nat
            with (length (fetches s) + S j)%nat by lia. exact Ha. }
    split; [exact Hd |].
    split; [eapply carries_results_trans; [exact C1 |];
            eapply carries_results_trans; [exact C2 | exact C3] |].
    repeat split; try congruence; lia.
Qed.

Lemma waitForUrl_run url timeoutMs intervalMs s :
  exists b s' issued,
    waitForUrl E url timeoutMs intervalMs s = (Ok b, s') /\
    fetches s' = fetches s ++ issued /\
    Forall (fun ut => fst ut = url /\ clock s <= snd ut /\
                      snd ut - clock s < timeoutMs) issued /\
    spaced (Js.timer_delay intervalMs) issued /\
    (b = true <->
     exists j, (j < length issued)%nat /\ answered (length (fetches s) + j)) /\
    (b = false -> timeoutMs <= clock s' - clock s) /\
    carries keeps_results (cancel_event E) s s' /\
    files s' = files s /\ children s' = children s /\
    randoms s' = randoms s /\ clock s <= clock s'.
Proof.
  unfold waitForUrl.
  cbv beta iota zeta delta [mbind M_bind bind Date_now].
  apply waitForUrl_loop_run. lia.
Qed.


End WaitForUrl.

(* ================================================================== *)
(** * The matcher finds a match exactly when there is one *)
(* ================================================================== *)

Section RegexFacts.

Import Regex.



Section Continuation.

Variable k : string -> option (list string).





End Continuation.






End RegexFacts.

(* ================================================================== *)
(** * [runE2ETests] *)
(* ================================================================== *)

Section ExitCodes.

Import Exec.

Variable timeoutMs : Z.



End ExitCodes.

Section RunE2ETests.

Variable E : Env.



(** The result [runE2ETests] builds from the value of the command. *)
Definition e2e_result (value : Exec.CmdResult) (durationMs : Z)
  : E2ETestResult.t :=
  let counts := parse_counts (Exec.output value) in
  E2ETestResult.mk
    (if Exec.success value then E2EStatus.passed else E2EStatus.failed)
    (Exec.output value) (Exec.error value) durationMs
    (option_map (fun c => fst (fst c)) counts)
    (option_map (fun c => snd (fst c)) counts)
    (option_map snd counts).

Lemma runE2ETests_run projectPath config s :
  exists r s',
    runE2ETests E projectPath config s = (Ok r, s') /\
    carries keeps_results (cancel_event E) s s' /\
    files s' = files s /\ randoms s' = randoms s /\ clock s <= clock s' /\
    match DeploymentConfig.e2eTests config with
    | None => children s' = children s /\ E2ETestResult.status r = E2EStatus.skipped
    | Some e2e =>
        (children s' = children s /\
         r = E2ETestResult.mk E2EStatus.failed
               ("Target URL not available: " +:+
                default "" (E2ETestConfig.waitForUrl e2e))
               (Some "Target URL timeout") (clock s' - clock s)
               None None None) \/
        (exists value child,
            let timeoutMs := Js.num_or (E2ETestConfig.timeout e2e) 600000 in
            children s' = children s ++ [child] /\
            shellArgs child =
              (if is_windows E then ["/c"; E2ETestConfig.command e2e]
               else ["-c"; E2ETestConfig.command e2e]) /\
            Exec.settled
              (Exec.at_settle timeoutMs (child_run E (length (children s))))
              = Some value /\
            r = e2e_result value (clock s' - clock s))
    end.
Proof.
  unfold runE2ETests.
  destruct (DeploymentConfig.e2eTests config) as [e2e|].
  2:{ eexists _, s. split; [reflexivity |].
      split; [apply carries_results_refl |]. repeat split; lia. }
  cbv beta iota zeta delta [mbind M_bind bind Date_now].
  assert (Hwait : exists (b : bool) s1,
    (match E2ETestConfig.waitForUrl e2e with
     | Some url =>
         if Js.truthy url
         then waitForUrl E url
                (Js.num_or (E2ETestConfig.waitTimeout e2e) 60000) 2000
         else ret true
     | None => ret true
     end) s = (Ok b, s1) /\
    carries keeps_results (cancel_event E) s s1 /\
    files s1 = files s /\ children s1 = children s /\
    randoms s1 = randoms s /\ clock s <= clock s1).
  { assert (Hret : exists (b : bool) s1,
      ret true s = (Ok b, s1) /\
      carries keeps_results (cancel_event E) s s1 /\
      files s1 = files s /\ children s1 = children s /\
      randoms s1 = randoms s /\ clock s <= clock s1).
    { exists true, s. split; [reflexivity |].
      split; [apply carries_results_refl |]. repeat split; lia. }
    destruct (E2ETestConfig.waitForUrl e2e) as [url|]; [| exact Hret].
    destruct (Js.truthy url); [| exact Hret].
    destruct (waitForUrl_run E url
                (Js.num_or (E2ETestConfig.waitTimeout e2e) 60000) 2000 s)
      as (b & s1 & issued & Hrun & _ & _ & _ & _ & _ & C & F & Ch & R & L).
    exists b, s1. auto 10. }
  destruct Hwait as (b & s1 & -> & C1 & F1 & Ch1 & R1 & L1).
  destruct b.
  - destruct (executeCommand_run E (E2ETestConfig.command e2e)
                (resolve_dir projectPath (E2ETestConfig.workingDirectory e2e))
                (default ∅ (E2ETestConfig.env e2e))
                (Js.num_or (E2ETestConfig.timeout e2e) 600000) s1)
      as (value & s' & -> & Hv & Hc & C2 & F2 & _ & R2 & L2).
    eexists _, s'. split; [reflexivity |].
    split; [eapply carries_results_trans; eauto |].
    split; [congruence |]. split; [congruence |]. split; [lia |].
    right. exists value, (spawned E (E2ETestConfig.command e2e)
                (resolve_dir projectPath (E2ETestConfig.workingDirectory e2e))
                (default ∅ (E2ETestConfig.env e2e))
                (Js.num_or (E2ETestConfig.timeout e2e) 600000) s1).
    cbv zeta. split; [now rewrite Hc, Ch1 |]. split; [reflexivity |].
    split; [now rewrite <- Ch1 |]. reflexivity.
  - eexists _, s1. split; [reflexivity |].
    split; [exact C1 |]. split; [exact F1 |]. split; [exact R1 |].
    split; [exact L1 |]. left. split; [exact Ch1 | reflexivity].
Qed.


End RunE2ETests.

(** A project whose configuration only runs E2E tests. *)
Definition e2e_only : DeploymentConfig.t :=
  {| DeploymentConfig.version := 1;
     DeploymentConfig.autoDeployOnComplete := false;
     DeploymentConfig.buildSteps := [];
     DeploymentConfig.deploySteps := [];
     DeploymentConfig.e2eTests :=
       Some (E2ETestConfig.mk "npx playwright test" None None None None None);
     DeploymentConfig.healthCheckUrl := None;
     DeploymentConfig.healthCheckTimeout := None |}.




(* ================================================================== *)
(** * The configuration store *)
(* ================================================================== *)

Section Merge.

(** Reading a property of an object after an assignment. *)
Lemma get_set (key key' : string) (v : Json.t) (fields : list (string * Json.t)) :
  Json.get key' (Json.set key v fields) =
  if String.eqb key key' then Some v else Json.get key' fields.
Proof.
  induction fields as [|[k w] fields IH]; simpl.
  - reflexivity.
  - destruct (String.eqb_spec k key) as [-> | Hk]; simpl.
    + destruct (String.eqb key key'); reflexivity.
    + rewrite IH. destruct (String.eqb_spec k key') as [-> | Hk'].
      * destruct (String.eqb_spec key key'); [congruence | reflexivity].
      * reflexivity.
Qed.

Lemma get_snoc (key k : string) (v : Json.t) (l : list (string * Json.t)) :
  Json.get key (l ++ [(k, v)]) =
  match Json.get key l with
  | Some w => Some w
  | None => if String.eqb k key then Some v else None
  end.
Proof.
  induction l as [|[k' w] l IHl]; simpl; [reflexivity |].
  destruct (String.eqb k' key); [reflexivity | exact IHl].
Qed.

Lemma get_copy (key : string) (src acc : list (string * Json.t)) :
  Json.get key (fold_left (fun acc kv => Json.set (fst kv) (snd kv) acc) src acc) =
  match Json.get key (rev src) with
  | Some v => Some v
  | None => Json.get key acc
  end.
Proof.
  revert acc. induction src as [|[k v] src IH]; intros acc; simpl.
  - reflexivity.
  - rewrite IH, get_set.
    rewrite get_snoc. destruct (Json.get key (rev src)); [reflexivity |].
    destruct (String.eqb k key); reflexivity.
Qed.

Lemma get_fresh (key : string) (b : list (string * Json.t)) :
  key ∉ map fst b -> Json.get key b = None.
Proof.
  induction b as [|[k' w] b IH]; [reflexivity |].
  simpl. rewrite not_elem_of_cons. intros [Hne Hin].
  destruct (String.eqb_spec k' key) as [-> | _]; [congruence | now apply IH].
Qed.

Lemma get_rev (key : string) (b : list (string * Json.t)) :
  NoDup (map fst b) -> Json.get key (rev b) = Json.get key b.
Proof.
  induction b as [|[k v] b IH]; [reflexivity |].
  simpl. rewrite NoDup_cons. intros [Hk Hnd].
  rewrite get_snoc, (IH Hnd).
  destruct (String.eqb_spec k key) as [-> | Hne].
  - now rewrite (get_fresh _ _ Hk).
  - destruct (Json.get key b); reflexivity.
Qed.

(** Stored fields win over defaults: a property of [{ ...a, ...b }] is
    the one of [b] if [b] has it, the one of [a] otherwise. *)
Lemma get_spread (key : string) (a b : Json.t) :
  NoDup (map fst (Json.own_properties a)) ->
  NoDup (map fst (Json.own_properties b)) ->
  Json.get key (Json.own_properties (Json.spread a b)) =
  match Json.get key (Json.own_properties b) with
  | Some v => Some v
  | None => Json.get key (Json.own_properties a)
  end.
Proof.
  intros Ha Hb. unfold Json.spread. simpl.
  rewrite !get_copy, (get_rev _ _ Ha), (get_rev _ _ Hb). simpl.
  destruct (Json.get key (Json.own_properties b)); [reflexivity |].
  destruct (Json.get key (Json.own_properties a)); reflexivity.
Qed.

End Merge.

Section Documents.

Import Document.

Lemma all_some_map {A B} (f : A -> B) (g : B -> option A) (l : list A) :
  (forall a, g (f a) = Some a) ->
  all_some (map g (map f l)) = Some l.
Proof.
  intros Hgf. induction l as [|a l IH]; [reflexivity |].
  simpl. now rewrite Hgf, IH.
Qed.

Lemma as_env_of_env (m : StringMap) : as_env (of_env m) = Some m.
Proof.
  unfold as_env, of_env.
  rewrite (all_some_map (fun kv : string * string => (fst kv, Json.Str (snd kv)))
             (fun kv => option_map (pair (fst kv)) (as_str (snd kv)))).
  - simpl. f_equal. apply list_to_map_to_list.
  - now intros [k v].
Qed.

Lemma as_step_of_step (st : DeploymentStep.t) : as_step (of_step st) = Some st.
Proof.
  destruct st as [name command wd env timeout coe].
  pose proof as_env_of_env as Henv.
  destruct wd, env, timeout, coe; cbn -[as_env of_env]; rewrite ?Henv;
    reflexivity.
Qed.

Lemma as_steps_of_steps (l : list DeploymentStep.t) :
  as_steps (Json.Arr (map of_step l)) = Some l.
Proof. simpl. apply all_some_map, as_step_of_step. Qed.

Lemma as_e2e_of_e2e (e : E2ETestConfig.t) : as_e2e (of_e2e e) = Some e.
Proof.
  destruct e as [command wd url wait env timeout].
  pose proof as_env_of_env as Henv.
  destruct wd, url, wait, env, timeout; cbn -[as_env of_env]; rewrite ?Henv;
    reflexivity.
Qed.

(** Merging a configuration over the defaults gives it back: it has
    every field the defaults have. *)
Lemma typed_spread (cfg : DeploymentConfig.t) :
  typed (Json.spread (of_config DEFAULT_DEPLOYMENT_CONFIG) (of_config cfg)) = cfg.
Proof.
  destruct cfg as [version auto build deploy e2e url timeout].
  pose proof as_steps_of_steps as Hsteps.
  pose proof as_e2e_of_e2e as He2e.
  unfold typed.
  destruct e2e, url, timeout;
    cbn -[as_steps as_e2e of_step of_e2e]; rewrite ?Hsteps;
    cbn -[as_steps as_e2e of_step of_e2e]; rewrite ?Hsteps;
    cbn -[as_steps as_e2e of_step of_e2e]; rewrite ?He2e; reflexivity.
Qed.

Lemma of_config_keys (cfg : DeploymentConfig.t) :
  NoDup (map fst (Json.own_properties (of_config cfg))).
Proof.
  destruct cfg as [version auto build deploy e2e url timeout].
  destruct e2e, url, timeout; simpl;
    repeat (apply NoDup_cons_2;
            [rewrite ?not_elem_of_cons; repeat split;
             try discriminate; apply not_elem_of_nil |]);
    apply NoDup_nil_2.
Qed.

End Documents.

(* ================================================================== *)
(** * What [JSON.stringify] writes, [JSON.parse] reads back *)
(* ================================================================== *)

Section Lexical.

Local Open Scope nat_scope.

Lemma length_append (a b : string) :
  String.length (a +:+ b) = String.length a + String.length b.
Proof.
  induction a as [|c a IH]; [now rewrite append_nil_l |].
  rewrite append_cons. simpl. now rewrite IH.
Qed.

(** Strings made of white space only: the indentations of the printer. *)
Fixpoint blank (s : string) : bool :=
  match s with
  | EmptyString => true
  | String c s' => Json.is_ws c && blank s'
  end.

Lemma blank_app a b : blank a = true -> blank b = true -> blank (a +:+ b) = true.
Proof.
  induction a as [|c a IH]; intros Ha Hb; [now rewrite append_nil_l |].
  rewrite append_cons. simpl in *. apply andb_true_iff in Ha as [-> Ha].
  now apply IH.
Qed.

Lemma skip_ws_blank ws s : blank ws = true -> Json.skip_ws (ws +:+ s) = Json.skip_ws s.
Proof.
  induction ws as [|c ws IH]; intros H; [now rewrite append_nil_l |].
  rewrite append_cons. simpl in *. apply andb_true_iff in H as [-> H].
  now apply IH.
Qed.

Lemma skip_ws_head c s : Json.is_ws c = false -> Json.skip_ws (String c s) = String c s.
Proof. intros H. simpl. now rewrite H. Qed.

(** One character of a string literal, written then read. *)
Lemma parse_string_quote_char c tail :
  Json.parse_string (Json.quote_char c +:+ tail) =
  match Json.parse_string tail with
  | Some (body, rest) => Some (String c body, rest)
  | None => None
  end.
Proof. destruct c as [[] [] [] [] [] [] [] []]; reflexivity. Qed.

Lemma parse_string_quote_body s rest :
  Json.parse_string (Json.quote_body s +:+ rest) = Some (s, rest).
Proof.
  induction s as [|c s IH]; [reflexivity |].
  simpl Json.quote_body. rewrite append_assoc, parse_string_quote_char.
  now rewrite IH.
Qed.

End Lexical.

Section Numbers.

Local Open Scope nat_scope.

Fixpoint all_number (s : string) : bool :=
  match s with
  | EmptyString => true
  | String c s' => Json.is_number_char c && all_number s'
  end.

(** What the printer writes after a value: nothing, a comma or white
    space. *)
Definition delimited (rest : string) : bool :=
  match rest with
  | EmptyString => true
  | String c _ => Ascii.eqb c "," || Json.is_ws c
  end.

Lemma delimited_not_number c rest :
  delimited (String c rest) = true ->
  Json.is_number_char c = false /\
  (Ascii.eqb c "." || Ascii.eqb c "e" || Ascii.eqb c "E")%bool = false.
Proof.
  destruct c as [[] [] [] [] [] [] [] []]; try discriminate; now split.
Qed.

Lemma number_token_app tok rest :
  all_number tok = true -> delimited rest = true ->
  Json.number_token (tok +:+ rest) = (tok, rest).
Proof.
  induction tok as [|c tok IH]; intros Ht Hr.
  - rewrite append_nil_l. destruct rest as [|c rest]; [reflexivity |].
    simpl. now destruct (delimited_not_number _ _ Hr) as [-> _].
  - rewrite append_cons. simpl in *. apply andb_true_iff in Ht as [-> Ht].
    now rewrite (IH Ht Hr).
Qed.

Lemma all_number_uint d : all_number (NilEmpty.string_of_uint d) = true.
Proof. induction d; simpl; auto. Qed.

Lemma all_number_show n : all_number (Js.show n) = true.
Proof.
  unfold Js.show.
  destruct n as [|p|p]; [reflexivity | |]; simpl;
    pose proof (Unsigned.to_uint_nonnil p) as Hp;
    pose proof (all_number_uint (Pos.to_uint p)) as H;
    destruct (Pos.to_uint p); try contradiction; exact H.
Qed.

Lemma show_head n :
  exists c tail, Js.show n = String c tail /\ Json.is_number_char c = true.
Proof.
  pose proof (all_number_show n) as H.
  assert (Hne : Js.show n <> EmptyString).
  { unfold Js.show.
    destruct n as [|p|p]; [discriminate | | discriminate]. simpl.
    pose proof (Unsigned.to_uint_nonnil p) as Hp.
    destruct (Pos.to_uint p); try contradiction; discriminate. }
  destruct (Js.show n) as [|c tail]; [contradiction |].
  simpl in H. apply andb_true_iff in H as [H _]. eauto.
Qed.

Lemma int_of_string_show n :
  NilZero.int_of_string (Js.show n) = Some (Z.to_int n).
Proof.
  unfold Js.show. apply NilZero.isi;
    destruct n as [|p|p]; simpl; try discriminate;
    intros H; injection H as H; now apply (Unsigned.to_uint_nonnil p).
Qed.

Lemma parse_number_show n rest :
  delimited rest = true ->
  Json.parse_number (Js.show n +:+ rest) = Some (n, rest).
Proof.
  intros Hr. unfold Json.parse_number.
  rewrite (number_token_app _ _ (all_number_show n) Hr).
  rewrite int_of_string_show, DecimalZ.of_to, String.eqb_refl.
  destruct rest as [|c rest]; [reflexivity |].
  now destruct (delimited_not_number _ _ Hr) as [_ ->].
Qed.

End Numbers.

Section Printed.

Local Open Scope nat_scope.

(** Induction on a JSON value, with the property known of the items of
    an array and of the values of an object. *)
Fixpoint json_ind (P : Json.t -> Prop)
    (HNull : P Json.Null) (HBool : forall b, P (Json.Bool b))
    (HNum : forall n, P (Json.Num n)) (HStr : forall s, P (Json.Str s))
    (HArr : forall items, Forall P items -> P (Json.Arr items))
    (HObj : forall fields,
        Forall (fun kv => P (snd kv)) fields -> P (Json.Obj fields))
    (v : Json.t) {struct v} : P v :=
  let rec := json_ind P HNull HBool HNum HStr HArr HObj in
  match v with
  | Json.Null => HNull
  | Json.Bool b => HBool b
  | Json.Num n => HNum n
  | Json.Str s => HStr s
  | Json.Arr items =>
      HArr items
        ((fix go (xs : list Json.t) : Forall P xs :=
            match xs with
            | [] => List.Forall_nil P
            | x :: xs' => @List.Forall_cons _ P x xs' (rec x) (go xs')
            end) items)
  | Json.Obj fields =>
      HObj fields
        ((fix go (fs : list (string * Json.t))
            : Forall (fun kv => P (snd kv)) fs :=
            match fs with
            | [] => List.Forall_nil _
            | kv :: fs' => @List.Forall_cons _ (fun kv => P (snd kv)) kv fs' (rec (snd kv)) (go fs')
            end) fields)
  end.

(** The items of an array after the first, as [print] writes them. *)
Fixpoint print_items (indent : string) (xs : list Json.t) : string :=
  match xs with
  | [] => ""
  | y :: ys =>
      "," +:+ Json.newline +:+ indent +:+ Json.print indent y +:+
      print_items indent ys
  end.

(** The members of an object after the first, as [print] writes them. *)
Fixpoint print_fields (indent : string) (fields : list (string * Json.t))
  : string :=
  match fields with
  | [] => ""
  | (k, y) :: more =>
      "," +:+ Json.newline +:+ indent +:+ Json.quote k +:+ ": " +:+
      Json.print indent y +:+ print_fields indent more
  end.

Lemma print_arr indent x xs :
  Json.print indent (Json.Arr (x :: xs)) =
  "[" +:+ Json.newline +:+ (indent +:+ "  ") +:+
  Json.print (indent +:+ "  ") x +:+ print_items (indent +:+ "  ") xs +:+
  Json.newline +:+ indent +:+ "]".
Proof.
  cbn [Json.print]. do 5 f_equal.
  induction xs as [|y ys IH]; [reflexivity |]. cbn [print_items]. now rewrite <- IH.
Qed.

Lemma print_obj indent k x fields :
  Json.print indent (Json.Obj ((k, x) :: fields)) =
  "{" +:+ Json.newline +:+ (indent +:+ "  ") +:+ Json.quote k +:+ ": " +:+
  Json.print (indent +:+ "  ") x +:+ print_fields (indent +:+ "  ") fields +:+
  Json.newline +:+ indent +:+ "}".
Proof.
  cbn [Json.print]. do 7 f_equal.
  induction fields as [|[k' y] more IH]; [reflexivity |].
  cbn [print_fields]. now rewrite <- IH.
Qed.

(** What a value starts with: never white space, never a closing
    bracket. *)
Definition opens (c : ascii) : Prop :=
  Json.is_ws c = false /\ Ascii.eqb "]" c = false /\ Ascii.eqb "}" c = false.

Lemma number_char_opens c : Json.is_number_char c = true -> opens c.
Proof.
  destruct c as [[] [] [] [] [] [] [] []]; try discriminate; now repeat split.
Qed.

Lemma print_head indent v :
  exists c tail, Json.print indent v = String c tail /\ opens c.
Proof.
  destruct v as [|[]|n|s|[|x xs]|[|[k x] fields]];
    try (eexists _, _; split; [reflexivity | now repeat split]).
  destruct (show_head n) as (c & tail & H & Hc). exists c, tail.
  split; [exact H | now apply number_char_opens].
Qed.

Lemma skip_to_value ws indent v rest :
  blank ws = true ->
  Json.skip_ws (ws +:+ Json.print indent v +:+ rest) =
  Json.print indent v +:+ rest.
Proof.
  intros H. rewrite (skip_ws_blank _ _ H).
  destruct (print_head indent v) as (c & tail & -> & Hc & _).
  rewrite append_cons. now apply skip_ws_head.
Qed.

(** The fuel [parse_value] needs for a value: one unit for the value and
    one for each item or member, on top of what these need. *)
Fixpoint weight (v : Json.t) : nat :=
  match v with
  | Json.Arr items =>
      S ((fix sum (xs : list Json.t) : nat :=
            match xs with
            | [] => 0
            | x :: xs' => S (weight x + sum xs')
            end) items)
  | Json.Obj fields =>
      S ((fix sum (fs : list (string * Json.t)) : nat :=
            match fs with
            | [] => 0
            | kv :: fs' => S (weight (snd kv) + sum fs')
            end) fields)
  | _ => 1
  end.

(** The objects a JavaScript value is made of have each property name
    once. *)
Fixpoint wf (v : Json.t) : Prop :=
  match v with
  | Json.Arr items =>
      (fix all (xs : list Json.t) : Prop :=
         match xs with
         | [] => True
         | x :: xs' => wf x /\ all xs'
         end) items
  | Json.Obj fields =>
      NoDup (map fst fields) /\
      (fix all (fs : list (string * Json.t)) : Prop :=
         match fs with
         | [] => True
         | kv :: fs' => wf (snd kv) /\ all fs'
         end) fields
  | _ => True
  end.

Lemma wf_arr items : Forall wf items -> wf (Json.Arr items).
Proof.
  induction 1 as [|x xs Hx _ IH]; [exact I |]. split; [exact Hx | exact IH].
Qed.

Lemma wf_obj fields :
  NoDup (map fst fields) -> Forall (fun kv => wf (snd kv)) fields ->
  wf (Json.Obj fields).
Proof.
  intros H F. split; [exact H |]. clear H.
  induction F as [|kv fs Hkv _ IH]; [exact I |]. split; [exact Hkv | exact IH].
Qed.

(** ** The parser, one step at a time *)

Lemma parse_value_ws fuel a b :
  Json.skip_ws a = Json.skip_ws b ->
  Json.parse_value fuel a = Json.parse_value fuel b.
Proof. intros H. destruct fuel; [reflexivity |]. simpl. now rewrite H. Qed.

Lemma parse_value_number fuel c s :
  Json.is_number_char c = true ->
  Json.parse_value (S fuel) (String c s) =
  option_map (fun nr => (Json.Num (fst nr), snd nr))
             (Json.parse_number (String c s)).
Proof.
  destruct c as [[] [] [] [] [] [] [] []]; try discriminate; reflexivity.
Qed.

Lemma parse_value_arr fuel s :
  Json.parse_value (S fuel) (String "[" s) =
  match Json.starts_with "]" (Json.skip_ws s) with
  | Some rest => Some (Json.Arr [], rest)
  | None =>
      option_map (fun ir => (Json.Arr (fst ir), snd ir)) (Json.parse_items fuel s)
  end.
Proof. reflexivity. Qed.

Lemma parse_value_obj fuel s :
  Json.parse_value (S fuel) (String "{" s) =
  match Json.starts_with "}" (Json.skip_ws s) with
  | Some rest => Some (Json.Obj [], rest)
  | None =>
      option_map (fun fr => (Json.Obj (fst fr), snd fr))
                 (Json.parse_members fuel [] s)
  end.
Proof. reflexivity. Qed.

Lemma parse_items_S fuel s :
  Json.parse_items (S fuel) s =
  match Json.parse_value fuel s with
  | Some (v, rest) =>
      match Json.skip_ws rest with
      | String c rest' =>
          if Ascii.eqb c "]" then Some ([v], rest')
          else if Ascii.eqb c "," then
            match Json.parse_items fuel rest' with
            | Some (vs, rest'') => Some (v :: vs, rest'')
            | None => None
            end
          else None
      | EmptyString => None
      end
  | None => None
  end.
Proof. reflexivity. Qed.

Lemma parse_members_S fuel acc s :
  Json.parse_members (S fuel) acc s =
  match Json.starts_with "034" (Json.skip_ws s) with
  | Some s1 =>
      match Json.parse_string s1 with
      | Some (key, s2) =>
          match Json.starts_with ":" (Json.skip_ws s2) with
          | Some s3 =>
              match Json.parse_value fuel s3 with
              | Some (v, rest) =>
                  match Json.skip_ws rest with
                  | String c rest' =>
                      if Ascii.eqb c "}" then Some (Json.set key v acc, rest')
                      else if Ascii.eqb c ","
                      then Json.parse_members fuel (Json.set key v acc) rest'
                      else None
                  | EmptyString => None
                  end
              | None => None
              end
          | None => None
          end
      | None => None
      end
  | None => None
  end.
Proof. reflexivity. Qed.

Lemma starts_with_head c s : Json.starts_with c (String c s) = Some s.
Proof. simpl. now rewrite Ascii.eqb_refl. Qed.

Lemma weight_arr x xs :
  weight (Json.Arr (x :: xs)) = S (weight x + weight (Json.Arr xs)).
Proof. simpl. lia. Qed.

Lemma weight_obj k x fields :
  weight (Json.Obj ((k, x) :: fields)) = S (weight x + weight (Json.Obj fields)).
Proof. simpl. lia. Qed.

Lemma wf_items xs : wf (Json.Arr xs) -> Forall wf xs.
Proof.
  induction xs as [|x xs IH]; [constructor |]. intros [Hx Hxs].
  constructor; [exact Hx | now apply IH].
Qed.

Lemma wf_values fields :
  wf (Json.Obj fields) -> Forall (fun kv => wf (snd kv)) fields.
Proof.
  intros [_ H]. induction fields as [|kv fields IH]; [constructor |].
  destruct H as [Hx Hxs]. constructor; [exact Hx | now apply IH].
Qed.

(** ** Reading back what was printed *)

(** [v], printed at any indentation after any white space and followed
    by what the printer writes after a value, is read back as [v], the
    rest of the text being left. *)
Definition reads_back (v : Json.t) : Prop :=
  forall fuel indent ws rest,
    weight v <= fuel -> blank ws = true -> blank indent = true ->
    delimited rest = true -> wf v ->
    Json.parse_value fuel (ws +:+ Json.print indent v +:+ rest) = Some (v, rest).

Lemma blank_line indent : blank indent = true -> blank (Json.newline +:+ indent) = true.
Proof. intros H. now apply blank_app. Qed.

Lemma skip_to_close stepback c rest :
  blank stepback = true -> Json.is_ws c = false ->
  Json.skip_ws (Json.newline +:+ stepback +:+ String c rest) = String c rest.
Proof.
  intros Hs Hc. rewrite <- append_assoc.
  rewrite (skip_ws_blank _ _ (blank_line _ Hs)). now apply skip_ws_head.
Qed.

Lemma parse_items_printed indent stepback rest xs :
  blank indent = true -> blank stepback = true ->
  Forall reads_back xs ->
  forall x fuel,
    reads_back x -> wf x -> Forall wf xs ->
    weight x + weight (Json.Arr xs) <= fuel ->
    Json.parse_items fuel
      ((Json.newline +:+ indent) +:+ Json.print indent x +:+
       print_items indent xs +:+ Json.newline +:+ stepback +:+ String "]" rest) =
    Some (x :: xs, rest).
Proof.
  intros Hi Hs F.
  induction F as [|y ys Hy _ IH]; intros x fuel Hx Wx Wxs Hfuel;
    (destruct fuel as [|fuel]; [simpl in Hfuel; lia |]);
    rewrite parse_items_S; cbn [print_items].
  - rewrite append_nil_l.
    rewrite (Hx fuel indent (Json.newline +:+ indent));
      [| simpl in Hfuel; lia | now apply blank_line | exact Hi | reflexivity
       | exact Wx].
    now rewrite (skip_to_close _ _ _ Hs).
  - rewrite weight_arr in Hfuel. inversion Wxs as [|? ? Wy Wys]; subst.
    rewrite (Hx fuel indent (Json.newline +:+ indent));
      [| lia | now apply blank_line | exact Hi | reflexivity | exact Wx].
    rewrite !append_assoc, append_cons, append_nil_l.
    rewrite skip_ws_head by reflexivity.
    change (Ascii.eqb "," "]") with false. change (Ascii.eqb "," ",") with true.
    cbv iota. rewrite <- (append_assoc Json.newline indent).
    rewrite (IH y fuel Hy Wy Wys); [reflexivity | lia].
Qed.

Abbreviation copy_properties :=
  (fold_left (fun acc kv => Json.set (fst kv) (snd kv) acc)).

Lemma parse_members_printed indent stepback rest fields :
  blank indent = true -> blank stepback = true ->
  Forall (fun kv => reads_back (snd kv)) fields ->
  forall k x acc fuel,
    reads_back x -> wf x -> Forall (fun kv => wf (snd kv)) fields ->
    weight x + weight (Json.Obj fields) <= fuel ->
    Json.parse_members fuel acc
      ((Json.newline +:+ indent) +:+ Json.quote k +:+ ": " +:+
       Json.print indent x +:+ print_fields indent fields +:+
       Json.newline +:+ stepback +:+ String "}" rest) =
    Some (copy_properties ((k, x) :: fields) acc, rest).
Proof.
  intros Hi Hs F.
  induction F as [|[k' y] more Hy _ IH]; intros k x acc fuel Hx Wx Wxs Hfuel;
    (destruct fuel as [|fuel]; [simpl in Hfuel; lia |]);
    rewrite parse_members_S; cbn [print_fields];
    rewrite (skip_ws_blank _ _ (blank_line _ Hi));
    unfold Json.quote at 1; rewrite append_cons;
    rewrite skip_ws_head by reflexivity;
    rewrite starts_with_head, parse_string_quote_body;
    change (": " +:+ ?X) with (String ":" (" " +:+ X));
    rewrite skip_ws_head by reflexivity; rewrite starts_with_head.
  - rewrite append_nil_l.
    rewrite (Hx fuel indent " "); [| simpl in Hfuel; lia | reflexivity | exact Hi
                                   | reflexivity | exact Wx].
    now rewrite (skip_to_close _ _ _ Hs).
  - rewrite weight_obj in Hfuel. inversion Wxs as [|? ? Wy Wys]; subst.
    rewrite (Hx fuel indent " "); [| lia | reflexivity | exact Hi | reflexivity
                                   | exact Wx].
    rewrite !append_assoc, append_cons, append_nil_l.
    rewrite skip_ws_head by reflexivity.
    change (Ascii.eqb "," "}") with false. change (Ascii.eqb "," ",") with true.
    cbv iota. rewrite <- (append_assoc Json.newline indent).
    rewrite (IH k' y (Json.set k x acc) fuel Hy Wy Wys); [reflexivity | lia].
Qed.

Lemma set_fresh k v acc :
  k ∉ map fst acc -> Json.set k v acc = acc ++ [(k, v)].
Proof.
  induction acc as [|[k' w] acc IH]; intros H; [reflexivity |].
  simpl in *. apply not_elem_of_cons in H as [Hk H].
  destruct (String.eqb_spec k' k) as [->|_]; [contradiction |].
  now rewrite IH.
Qed.

Lemma copy_fresh fields acc :
  NoDup (map fst (acc ++ fields)) -> copy_properties fields acc = acc ++ fields.
Proof.
  revert acc. induction fields as [|[k v] fields IH]; intros acc H.
  - now rewrite app_nil_r.
  - simpl. rewrite set_fresh.
    + rewrite IH; rewrite <- app_assoc; [reflexivity | exact H].
    + rewrite map_app in H. apply NoDup_app in H as (_ & H & _).
      intros Hk. apply (H k Hk). simpl. apply elem_of_cons. now left.
Qed.

Theorem print_reads_back v : reads_back v.
Proof.
  induction v as [|b|n|s|items IH|fields IH] using json_ind;
    intros fuel indent ws rest Hfuel Hws Hi Hr W;
    (destruct fuel as [|fuel]; [simpl in Hfuel; lia |]);
    rewrite (parse_value_ws _ _ (Json.print indent _ +:+ rest))
      by (rewrite (skip_to_value _ _ _ _ Hws);
          now rewrite <- (append_nil_l (Json.print indent _ +:+ rest)) at 2;
          rewrite skip_to_value).
  - reflexivity.
  - now destruct b.
  - cbn [Json.print]. destruct (show_head n) as (c & tail & Hshow & Hc).
    pose proof (parse_number_show n rest Hr) as Hn.
    rewrite Hshow in *. rewrite append_cons in *.
    now rewrite (parse_value_number _ _ _ Hc), Hn.
  - cbn [Json.print]. unfold Json.quote. rewrite append_cons.
    change (Json.parse_value (S fuel) (String "034" ?X)) with
      (option_map (fun br => (Json.Str (fst br), snd br)) (Json.parse_string X)).
    now rewrite parse_string_quote_body.
  - destruct items as [|x xs]; [reflexivity |].
    assert (Hi' : blank (indent +:+ "  ") = true) by now apply blank_app.
    rewrite print_arr. remember (indent +:+ "  ") as indent' eqn:E. clear E.
    rewrite !append_assoc, append_cons, append_nil_l.
    rewrite parse_value_arr.
    rewrite <- (append_assoc Json.newline indent').
    rewrite (skip_to_value _ _ _ _ (blank_line _ Hi')).
    destruct (print_head indent' x) as (c & tail & Hhead & _ & Hc & _).
    rewrite Hhead at 1. rewrite append_cons. cbn [Json.starts_with].
    rewrite Hc. inversion IH as [|? ? Hx Hxs]; subst.
    apply wf_items in W. inversion W as [|? ? Wx Wxs]; subst.
    rewrite weight_arr in Hfuel.
    change ("]" +:+ rest) with (String "]" rest).
    rewrite (parse_items_printed _ _ _ _ Hi' Hi Hxs x fuel Hx Wx Wxs);
      [reflexivity | lia].
  - destruct fields as [|[k x] fields]; [reflexivity |].
    assert (Hi' : blank (indent +:+ "  ") = true) by now apply blank_app.
    rewrite print_obj. remember (indent +:+ "  ") as indent' eqn:E. clear E.
    rewrite !append_assoc, append_cons, append_nil_l.
    rewrite parse_value_obj.
    rewrite <- (append_assoc Json.newline indent').
    rewrite (skip_ws_blank _ _ (blank_line _ Hi')).
    unfold Json.quote at 1. rewrite append_cons.
    rewrite skip_ws_head by reflexivity. cbn [Json.starts_with].
    change (Ascii.eqb "}" "034") with false. cbv iota.
    change (String "034" (Json.quote_body k +:+ ?X)) with (Json.quote k +:+ X).
    inversion IH as [|? ? Hx Hxs]; subst.
    pose proof (wf_values _ W) as Wv. inversion Wv as [|? ? Wx Wxs]; subst.
    rewrite weight_obj in Hfuel.
    change ("}" +:+ rest) with (String "}" rest).
    rewrite (parse_members_printed _ _ _ _ Hi' Hi Hxs k x [] fuel Hx Wx Wxs);
      [| lia].
    cbn [option_map fst snd]. rewrite copy_fresh; [reflexivity |].
    now destruct W.
Qed.

(** The text of a value is at least as long as the fuel the value
    needs. *)
Lemma weight_length v : forall indent, weight v <= String.length (Json.print indent v).
Proof.
  induction v as [|b|n|s|items IH|fields IH] using json_ind; intros indent.
  - simpl. lia.
  - destruct b; simpl; lia.
  - cbn [Json.print weight]. destruct (show_head n) as (c & tail & -> & _).
    simpl. lia.
  - simpl. lia.
  - destruct items as [|x xs]; [simpl; lia |].
    rewrite print_arr, weight_arr. inversion IH as [|? ? Hx Hxs]; subst.
    rewrite !length_append. pose proof (Hx (indent +:+ "  ")) as Lx.
    enough (weight (Json.Arr xs) <=
            S (String.length (print_items (indent +:+ "  ") xs))) by (unfold Json.newline; cbn [String.length]; lia).
    clear IH Hx Lx. induction Hxs as [|y ys Hy _ IHys]; [simpl; lia |].
    rewrite weight_arr. cbn [print_items]. rewrite !length_append.
    pose proof (Hy (indent +:+ "  ")).
    unfold Json.newline; cbn [String.length]. lia.
  - destruct fields as [|[k x] fields]; [simpl; lia |].
    rewrite print_obj, weight_obj. inversion IH as [|? ? Hx Hxs]; subst.
    rewrite !length_append. pose proof (Hx (indent +:+ "  ")) as Lx.
    enough (weight (Json.Obj fields) <=
            S (String.length (print_fields (indent +:+ "  ") fields)))
      by (unfold Json.newline, Json.quote; cbn [String.length snd] in *; lia).
    clear IH Hx Lx. induction Hxs as [|[k' y] more Hy _ IHm]; [simpl; lia |].
    rewrite weight_obj. cbn [print_fields]. rewrite !length_append.
    pose proof (Hy (indent +:+ "  ")).
    unfold Json.newline, Json.quote; cbn [String.length snd] in *; lia.
Qed.

(** [JSON.parse(JSON.stringify(v, null, 2))] is [v]. *)
Theorem parse_stringify v : wf v -> Json.parse (Json.stringify v) = Some v.
Proof.
  intros W. unfold Json.parse, Json.stringify.
  pose proof (print_reads_back v (S (String.length (Json.print "" v))) "" "" "") as H.
  rewrite append_nil_l, append_nil_r in H.
  rewrite H; [reflexivity | | reflexivity | reflexivity | reflexivity | exact W].
  pose proof (weight_length v ""). lia.
Qed.

End Printed.

Section Serializable.

Import Document.

Ltac distinct_keys :=
  simpl;
  repeat (apply NoDup_cons_2;
          [rewrite ?not_elem_of_cons; repeat split;
           try discriminate; apply not_elem_of_nil |]);
  apply NoDup_nil_2.

Ltac values_wf :=
  cbn [app]; repeat (apply List.Forall_cons; [try exact I |]);
  try apply List.Forall_nil.

Lemma wf_env (m : StringMap) : wf (of_env m).
Proof.
  apply wf_obj.
  - rewrite map_map. simpl. apply NoDup_fst_map_to_list.
  - apply Forall_map. now apply Forall_true.
Qed.

Lemma wf_step (step : DeploymentStep.t) : wf (of_step step).
Proof.
  destruct step as [name command dir env timeout continue].
  apply wf_obj; [destruct dir, env, timeout, continue; distinct_keys |].
  destruct dir, env, timeout, continue; values_wf; apply wf_env.
Qed.

Lemma wf_e2e (e2e : E2ETestConfig.t) : wf (of_e2e e2e).
Proof.
  destruct e2e as [command dir url wait env timeout].
  apply wf_obj; [destruct dir, url, wait, env, timeout; distinct_keys |].
  destruct dir, url, wait, env, timeout; values_wf; apply wf_env.
Qed.

Lemma wf_steps (steps : list DeploymentStep.t) :
  wf (Json.Arr (map of_step steps)).
Proof. apply wf_arr, Forall_map, Forall_forall. intros step _. apply wf_step. Qed.

Lemma wf_config (cfg : DeploymentConfig.t) : wf (of_config cfg).
Proof.
  apply wf_obj; [apply of_config_keys |].
  destruct cfg as [version auto build deploy e2e url timeout].
  destruct e2e, url, timeout; values_wf;
    first [apply wf_steps | apply wf_e2e].
Qed.

(** Every configuration is JSON-serialisable: the text
    [JSON.stringify] writes for it is read back by [JSON.parse] as the
    same document. *)
Theorem serializable_config (cfg : DeploymentConfig.t) : serializable cfg.
Proof. apply parse_stringify, wf_config. Qed.

End Serializable.

Section Store.

Variable E : Env.

Lemma secureFs_guard_run path s :
  exists s',
    resumes E s s' /\
    secureFs_guard E path s =
    (if allowed E path then Ok tt
     else Throw ("Path not allowed: " +:+ path), s').
Proof.
  destruct (suspend_run E 0 s) as (s' & Hs & R & _).
  exists s'. split; [exact R |].
  unfold secureFs_guard. cbv beta iota zeta delta [mbind M_bind bind].
  rewrite Hs. now destruct (allowed E path).
Qed.

Lemma resumes_files s s' : resumes E s s' -> files s' = files s.
Proof. now intros (_ & (? & _) & _). Qed.

Lemma bind_ok {A B} (m : M A) (k : A -> M B) s b s1 :
  (m ≫= k) s = (Ok b, s1) ->
  exists a s', m s = (Ok a, s') /\ k a s' = (Ok b, s1).
Proof.
  unfold mbind, M_bind, bind. destruct (m s) as [[a|e|] s']; try discriminate.
  eauto.
Qed.

(** A [catch] that cleans up and throws again lets only the results of
    the body through. *)
Lemma try_rethrow_ok {A} (body : M A) (cleanup : string -> M unit) s a s1 :
  try_catch body (fun error => cleanup error ;; throw error) s = (Ok a, s1) ->
  body s = (Ok a, s1).
Proof.
  unfold try_catch. destruct (body s) as [[a'|e|] s']; auto.
  unfold mbind, M_bind, bind, throw.
  destruct (cleanup e s') as [[[]|e'|] s'']; discriminate.
Qed.

Lemma secureFs_writeFile_ok path content s s1 :
  secureFs_writeFile E path content s = (Ok tt, s1) ->
  exists s0, resumes E s s0 /\
             s1 = with_files (<[path := content]> (files s0)) s0.
Proof.
  unfold secureFs_writeFile.
  cbv beta iota zeta delta [mbind M_bind bind get modify].
  destruct (secureFs_guard_run path s) as (s0 & R & ->).
  destruct (allowed E path); [| discriminate].
  intros [= <-]. eauto.
Qed.

Lemma secureFs_rename_ok oldPath newPath s s1 :
  secureFs_rename E oldPath newPath s = (Ok tt, s1) ->
  allowed E newPath = true /\
  exists s0 content,
    resumes E s s0 /\ files s0 !! oldPath = Some content /\
    s1 = with_files (<[newPath := content]> (delete oldPath (files s0))) s0.
Proof.
  unfold secureFs_rename.
  cbv beta iota zeta delta [mbind M_bind bind get modify throw].
  destruct (secureFs_guard_run oldPath s) as (s0 & R & ->).
  destruct (allowed E oldPath); [| discriminate].
  destruct (allowed E newPath); [| discriminate].
  destruct (files s0 !! oldPath) as [content|] eqn:Hc; [| discriminate].
  intros [= <-]. split; [reflexivity |]. eauto.
Qed.

(** A successful save leaves the document at the configuration path,
    which is therefore a path the server may use. *)
Lemma saveDeploymentConfig_stores projectPath config s s1 :
  saveDeploymentConfig E projectPath config s = (Ok tt, s1) ->
  files s1 !! getDeploymentConfigPath projectPath =
    Some (Json.stringify (Document.of_config config)) /\
  allowed E (getDeploymentConfigPath projectPath) = true.
Proof.
  unfold saveDeploymentConfig. intros H.
  apply bind_ok in H as ([] & sa & _ & H).
  unfold atomicWriteJson in H.
  apply bind_ok in H as (now & sb & _ & H).
  apply try_rethrow_ok in H.
  apply bind_ok in H as ([] & sc & Hw & Hr).
  apply secureFs_writeFile_ok in Hw as (s0 & _ & ->).
  apply secureFs_rename_ok in Hr as (Hallowed & s2 & content & R & Hc & ->).
  split; [| exact Hallowed].
  rewrite (resumes_files _ _ R) in Hc. simpl in Hc.
  rewrite lookup_insert_eq in Hc. injection Hc as <-.
  simpl. apply lookup_insert_eq.
Qed.

(** Reading the configuration back when the document at its path is
    the text of [document]. *)
Lemma getDeploymentConfig_reads projectPath document s :
  allowed E (getDeploymentConfigPath projectPath) = true ->
  (exists content,
      files s !! getDeploymentConfigPath projectPath = Some content /\
      Json.parse content = Some document) ->
  exists s',
    getDeploymentConfig E projectPath s =
    (Ok (typed (Json.spread (Document.of_config DEFAULT_DEPLOYMENT_CONFIG)
                  document)), s') /\
    resumes E s s'.
Proof.
  intros Hallowed (content & Hfile & Hparse).
  unfold getDeploymentConfig, readJsonFile, secureFs_readFile, try_catch.
  cbv beta iota zeta delta [mbind M_bind bind get ret].
  destruct (secureFs_guard_run (getDeploymentConfigPath projectPath) s)
    as (s' & R & ->).
  rewrite Hallowed, (resumes_files _ _ R), Hfile, Hparse.
  exists s'. now split.
Qed.

(** C5. For every configuration, once [saveDeploymentConfig] has
    succeeded, [getDeploymentConfig] returns the object
    [{ ...DEFAULT_DEPLOYMENT_CONFIG, ...config }]: each of its properties
    is the saved one when the saved configuration has it and the default
    one otherwise.  Read at the type [DeploymentConfig] this is the saved
    configuration itself, empty step lists included.  Every configuration
    of [DeploymentConfig.t] is JSON-serialisable ([serializable_config]):
    its numbers are integers and its strings hold code units below 256. *)
Theorem save_then_get projectPath config s s1 :
  saveDeploymentConfig E projectPath config s = (Ok tt, s1) ->
  exists merged s2,
    getDeploymentConfig E projectPath s1 = (Ok (typed merged), s2) /\
    merged = Json.spread (Document.of_config DEFAULT_DEPLOYMENT_CONFIG)
               (Document.of_config config) /\
    (forall key,
        Json.get key (Json.own_properties merged) =
        match Json.get key (Json.own_properties (Document.of_config config)) with
        | Some v => Some v
        | None =>
            Json.get key
              (Json.own_properties (Document.of_config DEFAULT_DEPLOYMENT_CONFIG))
        end) /\
    typed merged = config.
Proof.
  intros Hsave. pose proof (serializable_config config) as Hser.
  destruct (saveDeploymentConfig_stores _ _ _ _ Hsave) as (Hfile & Hallowed).
  destruct (getDeploymentConfig_reads projectPath (Document.of_config config) s1
              Hallowed) as (s2 & Hget & _); [eauto |].
  eexists _, s2. split; [exact Hget |]. split; [reflexivity |].
  split; [| apply typed_spread].
  intros key. apply get_spread; apply of_config_keys.
Qed.

End Store.

(* ================================================================== *)
(** * The phases of the pipeline *)
(* ================================================================== *)

(** The two [for] loops of [pipeline], as one function of the phase. *)
Definition results_of (stepType : StepType.t) (d : DeploymentResult.t)
  : list StepResult.t :=
  match stepType with
  | StepType.build => DeploymentResult.buildResults d
  | StepType.deploy => DeploymentResult.deployResults d
  end.

Definition push_result (stepType : StepType.t) (r : StepResult.t)
  : DeploymentResult.t -> DeploymentResult.t :=
  match stepType with
  | StepType.build => DeploymentResult.push_buildResult r
  | StepType.deploy => DeploymentResult.push_deployResult r
  end.

Definition phase_name (stepType : StepType.t) : string :=
  match stepType with
  | StepType.build => "Build"
  | StepType.deploy => "Deploy"
  end.

Definition run_step (E : Env) (projectPath : string) (stepType : StepType.t)
    (step : DeploymentStep.t) : M unit :=
  result ← executeStep E step projectPath stepType;
  update_current (push_result stepType result) ;;
  match StepResult.status result with
  | StepStatus.failed =>
      if negb (Js.flag (DeploymentStep.continueOnError step))
      then throw (phase_name stepType +:+ " step failed: " +:+ DeploymentStep.name step)
      else ret tt
  | _ => ret tt
  end.

Definition run_steps (E : Env) (projectPath : string) (stepType : StepType.t)
    (steps : list DeploymentStep.t) : M unit :=
  for_of steps (run_step E projectPath stepType).

(** What is left of [pipeline] after the build steps, and after the
    deploy steps. *)
Definition after_deploy (E : Env) (projectPath : string)
    (config : DeploymentConfig.t) : M unit :=
    (if Js.truthy_opt (DeploymentConfig.healthCheckUrl config) then
       let healthCheckUrl := default "" (DeploymentConfig.healthCheckUrl config) in
       update_current
         (DeploymentResult.set_status DeploymentStatus.waiting_for_health) ;;
       emitEvent DeploymentEventType.health_check_started
         (Some (EventData.of_status "waiting")) ;;
       healthOk ← waitForUrl E healthCheckUrl
                    (Js.num_or (DeploymentConfig.healthCheckTimeout config) 30000)
                    2000;
       emitEvent DeploymentEventType.health_check_completed
         (Some (EventData.of_status (if healthOk : bool then "success" else "failed"))) ;;
       (if healthOk : bool then ret tt
        else throw ("Health check failed: " +:+ healthCheckUrl +:+ " not available")
        : M unit)
     else ret tt) ;;
    (match DeploymentConfig.e2eTests config with
     | Some _ =>
         update_current
           (DeploymentResult.set_status DeploymentStatus.running_tests) ;;
         emitEvent DeploymentEventType.e2e_started
           (Some (EventData.of_status "running")) ;;
         e2eResult ← runE2ETests E projectPath config;
         update_current (DeploymentResult.set_e2eResult e2eResult) ;;
         emitEvent DeploymentEventType.e2e_completed
           (Some (EventData.mk None
                    (Some (E2EStatus.to_string (E2ETestResult.status e2eResult)))
                    None None (Some (E2EResultOf e2eResult)))) ;;
         match E2ETestResult.status e2eResult with
         | E2EStatus.failed => throw "E2E tests failed"
         | _ => ret tt
         end
     | None => ret tt
     end) ;;
    update_current (DeploymentResult.set_status DeploymentStatus.success) ;;
    now ← Date_now;
    update_current (DeploymentResult.set_finishedAt now) ;;
    current ← getCurrentDeployment;
    emitEvent DeploymentEventType.deployment_completed
      (Some (EventData.mk None (Some "success") None None
               (option_map DeploymentResultOf current))).

Definition after_build (E : Env) (projectPath : string)
    (config : DeploymentConfig.t) : M unit :=
  update_current (DeploymentResult.set_status DeploymentStatus.deploying) ;;
  emitEvent DeploymentEventType.deployment_started
    (Some (EventData.of_status "deploying")) ;;
  run_steps E projectPath StepType.deploy (DeploymentConfig.deploySteps config) ;;
  after_deploy E projectPath config.

Lemma pipeline_phases E projectPath config :
  pipeline E projectPath config =
  (run_steps E projectPath StepType.build (DeploymentConfig.buildSteps config) ;;
   after_build E projectPath config).
Proof. reflexivity. Qed.

Section Steps.

Variable E : Env.

(** The events of a step of the given phase, besides those a
    cancellation publishes. *)
Definition step_event (stepType : StepType.t) (t : DeploymentEventType.t)
  : Prop :=
  t = step_started stepType \/ t = step_completed stepType \/ cancel_event E t.

(** The time-out [executeStep] gives to a step. *)
Definition step_timeout (step : DeploymentStep.t) : Z :=
  Js.num_or (DeploymentStep.timeout step) 300000.

(** The value of the command of [step] when its child is the [n]-th
    spawned by the server. *)
Definition step_value (n : nat) (step : DeploymentStep.t) : Exec.CmdResult :=
  Exec.value (step_timeout step) (child_run E n).

(** The result [executeStep] records for it, but for its duration. *)
Definition recorded (n : nat) (step : DeploymentStep.t) (r : StepResult.t)
  : Prop :=
  StepResult.stepName r = DeploymentStep.name step /\
  StepResult.status r =
    (if Exec.success (step_value n step)
     then StepStatus.success else StepStatus.failed) /\
  StepResult.output r = Exec.output (step_value n step) /\
  StepResult.error r = Exec.error (step_value n step).

Lemma executeStep_run step projectPath stepType s :
  exists r s' child,
    executeStep E step projectPath stepType s = (Ok r, s') /\
    recorded (length (children s)) step r /\
    children s' = children s ++ [child] /\
    shellArgs child =
      (if is_windows E then ["/c"; DeploymentStep.command step]
       else ["-c"; DeploymentStep.command step]) /\
    carries keeps_results (step_event stepType) s s' /\
    files s' = files s /\ fetches s' = fetches s /\ randoms s' = randoms s /\
    clock s <= clock s'.
Proof.
  unfold executeStep.
  cbv beta iota zeta delta [mbind M_bind bind Date_now].
  destruct (emitEvent_run (step_started stepType)
              (Some (EventData.mk (Some (DeploymentStep.name step))
                       (Some "running") None None None)) s)
    as (s1 & -> & C1 & (F1 & Ch1 & Ft1 & R1) & L1 & _).
  destruct (executeCommand_run E (DeploymentStep.command step)
              (resolve_dir projectPath (DeploymentStep.workingDirectory step))
              (default ∅ (DeploymentStep.env step)) (step_timeout step) s1)
    as (value & s2 & Hx & Hv & Hc & C2 & F2 & Ft2 & R2 & L2).
  fold (step_timeout step). rewrite Hx.
  match goal with
  | |- context [emitEvent ?t ?d s2] =>
      destruct (emitEvent_run t d s2)
        as (s3 & -> & C3 & (F3 & Ch3 & Ft3 & R3) & L3 & _)
  end.
  eexists _, s3, _. split; [reflexivity |].
  assert (Hval : step_value (length (children s)) step = value).
  { unfold step_value, Exec.value. rewrite <- Ch1. now rewrite Hv. }
  split; [unfold recorded; simpl; rewrite Hval; auto |].
  split; [rewrite Ch3, Hc, Ch1; reflexivity |].
  split; [reflexivity |].
  split; [| repeat split; try congruence; lia].
  eapply carries_results_trans;
    [eapply carries_weaken; [| exact C1]; intros t <-; now left |].
  eapply carries_results_trans;
    [eapply carries_weaken; [| exact C2]; intros t H; now right; right |].
  eapply carries_weaken; [| exact C3]. intros t <-. right. now left.
Qed.

(** The step's command fails and the step does not ask to go on. *)
Definition aborts (n : nat) (step : DeploymentStep.t) : bool :=
  negb (Exec.success (step_value n step)) &&
  negb (Js.flag (DeploymentStep.continueOnError step)).

(** The steps a phase gets to execute, the first of which is run by the
    [n]-th child: all of them up to the first that aborts. *)
Fixpoint executed (n : nat) (steps : list DeploymentStep.t)
  : list DeploymentStep.t :=
  match steps with
  | [] => []
  | step :: rest =>
      if aborts n step then [step] else step :: executed (S n) rest
  end.

Fixpoint first_abort (n : nat) (steps : list DeploymentStep.t)
  : option DeploymentStep.t :=
  match steps with
  | [] => None
  | step :: rest =>
      if aborts n step then Some step else first_abort (S n) rest
  end.

Fixpoint recorded_from (n : nat) (steps : list DeploymentStep.t)
    (rs : list StepResult.t) : Prop :=
  match steps, rs with
  | [], [] => True
  | step :: steps', r :: rs' => recorded n step r /\ recorded_from (S n) steps' rs'
  | _, _ => False
  end.

(** The arguments [executeCommand] gives the shell for a step. *)
Definition shell_args (step : DeploymentStep.t) : list string :=
  if is_windows E then ["/c"; DeploymentStep.command step]
  else ["-c"; DeploymentStep.command step].

Definition other_results (stepType : StepType.t) (d : DeploymentResult.t)
  : list StepResult.t :=
  match stepType with
  | StepType.build => DeploymentResult.deployResults d
  | StepType.deploy => DeploymentResult.buildResults d
  end.

Definition step_failed (stepType : StepType.t) (step : DeploymentStep.t)
  : string :=
  phase_name stepType +:+ " step failed: " +:+ DeploymentStep.name step.

Lemma run_step_run projectPath stepType step s d :
  currentDeployment s = Some d ->
  exists r s' d' child,
    run_step E projectPath stepType step s =
    (if aborts (length (children s)) step
     then Throw (step_failed stepType step) else Ok tt, s') /\
    recorded (length (children s)) step r /\
    currentDeployment s' = Some d' /\
    results_of stepType d' = results_of stepType d ++ [r] /\
    other_results stepType d' = other_results stepType d /\
    children s' = children s ++ [child] /\
    shellArgs child = shell_args step /\
    carries keeps_id (step_event stepType) s s' /\
    files s' = files s /\ fetches s' = fetches s /\ randoms s' = randoms s /\
    clock s <= clock s'.
Proof.
  intros Hd. unfold run_step.
  cbv beta iota zeta delta [mbind M_bind bind].
  destruct (executeStep_run step projectPath stepType s)
    as (r & s1 & child & -> & Hrec & Hc & Hargs & C & F & Ft & R & L).
  pose proof C as [Hcur Hev]. rewrite Hd in Hcur.
  destruct (currentDeployment s1) as [d1|] eqn:Hd1; [| contradiction].
  destruct Hcur as (Hid & Hb & Hdp).
  rewrite (update_current_run _ _ _ Hd1).
  set (s2 := with_currentDeployment (Some (push_result stepType r d1)) s1).
  exists r, s2, (push_result stepType r d1), child.
  split.
  { unfold aborts, step_failed. destruct Hrec as (_ & Hst & _). rewrite Hst.
    destruct (Exec.success (step_value (length (children s)) step)); simpl;
      [reflexivity |].
    destruct (Js.flag (DeploymentStep.continueOnError step)); reflexivity. }
  split; [exact Hrec |]. split; [reflexivity |].
  split; [destruct stepType; simpl; congruence |].
  split; [destruct stepType; simpl; congruence |].
  split; [exact Hc |]. split; [exact Hargs |].
  split; [| repeat split; simpl; auto].
  split.
  - rewrite Hd. simpl. destruct stepType; exact Hid.
  - simpl. destruct (eventEmitter s), (eventEmitter s1); auto.
Qed.

Lemma run_steps_run projectPath stepType :
  forall steps s d,
    currentDeployment s = Some d ->
    exists rs s' d' cs,
      run_steps E projectPath stepType steps s =
      (match first_abort (length (children s)) steps with
       | Some step => Throw (step_failed stepType step)
       | None => Ok tt
       end, s') /\
      recorded_from (length (children s))
        (executed (length (children s)) steps) rs /\
      currentDeployment s' = Some d' /\
      results_of stepType d' = results_of stepType d ++ rs /\
      other_results stepType d' = other_results stepType d /\
      children s' = children s ++ cs /\
      map shellArgs cs = map shell_args (executed (length (children s)) steps) /\
      carries keeps_id (step_event stepType) s s' /\
      files s' = files s /\ fetches s' = fetches s /\ randoms s' = randoms s /\
      clock s <= clock s'.
Proof.
  induction steps as [|step steps IH]; intros s d Hd.
  - exists [], s, d, []. rewrite !app_nil_r.
    split; [reflexivity |]. split; [exact I |].
    split; [exact Hd |]. split; [reflexivity |]. split; [reflexivity |].
    split; [reflexivity |]. split; [reflexivity |].
    split; [apply carries_id_refl |]. repeat split; lia.
  - unfold run_steps. cbn [for_of].
    cbv beta iota zeta delta [mbind M_bind bind].
    destruct (run_step_run projectPath stepType step s d Hd)
      as (r & s1 & d1 & child & -> & Hrec & Hd1 & Hres & Hoth & Hc & Hargs
          & C & F & Ft & R & L).
    cbn [first_abort executed].
    destruct (aborts (length (children s)) step) eqn:Hab.
    + exists [r], s1, d1, [child].
      split; [reflexivity |]. split; [simpl; auto |].
      split; [exact Hd1 |]. split; [exact Hres |]. split; [exact Hoth |].
      split; [exact Hc |]. split; [simpl; now rewrite Hargs |].
      split; [exact C |]. auto.
    + destruct (IH s1 d1 Hd1)
        as (rs & s' & d' & cs & Hrun & Hrecs & Hd' & Hres' & Hoth' & Hc'
            & Hargs' & C' & F' & Ft' & R' & L').
      assert (Hlen : length (children s1) = S (length (children s))).
      { rewrite Hc, length_app. simpl. lia. }
      rewrite Hlen in *.
      exists (r :: rs), s', d', (child :: cs).
      split; [exact Hrun |]. split; [simpl; auto |].
      split; [exact Hd' |].
      split; [rewrite Hres', Hres, <- app_assoc; reflexivity |].
      split; [congruence |].
      split; [rewrite Hc', Hc, <- app_assoc; reflexivity |].
      split; [simpl; now rewrite Hargs, Hargs' |].
      split; [eapply carries_id_trans; eauto |].
      repeat split; try congruence; lia.
Qed.

End Steps.

(* ================================================================== *)
(** * The run as a whole *)
(* ================================================================== *)

(** [emitEvent] appends [e] when there is an emitter to give it to. *)
Definition published (e : DeploymentEvent.t) (s s' : State) : Prop :=
  eventEmitter s' = option_map (fun emitted => emitted ++ [e]) (eventEmitter s).

Section Run.

Variable E : Env.

(** The events between the start of the deploy phase and the end of the
    run: neither of the two marks of progress, and a failure only if
    somebody cancelled. *)
Definition mid_event (t : DeploymentEventType.t) : Prop :=
  t <> DeploymentEventType.deployment_started /\
  t <> DeploymentEventType.deployment_completed /\
  (t = DeploymentEventType.deployment_failed -> ~ undisturbed E).

Lemma cancel_is_mid t : cancel_event E t -> mid_event t.
Proof. intros [-> H]. repeat split; auto; discriminate. Qed.

Lemma step_is_mid stepType t : step_event E stepType t -> mid_event t.
Proof.
  intros [-> | [-> | H]]; [| | now apply cancel_is_mid];
    destruct stepType; repeat split; discriminate.
Qed.

Lemma emitEvent_current type data s d :
  currentDeployment s = Some d ->
  exists s',
    emitEvent type data s = (Ok tt, s') /\
    currentDeployment s' = Some d /\
    published {| DeploymentEvent.type := type;
                 DeploymentEvent.deploymentId := DeploymentResult.id d;
                 DeploymentEvent.timestamp := clock s;
                 DeploymentEvent.data := data |} s s' /\
    same_world s s' /\ clock s' = clock s /\ suspensions s' = suspensions s.
Proof.
  intros Hd. unfold emitEvent, published. rewrite Hd.
  destruct (eventEmitter s) as [emitted|] eqn:He; eexists;
    (split; [reflexivity |]); simpl; rewrite ?He; repeat split; auto.
Qed.

(** [published] seen as a step of [carries]. *)
Lemma published_carries (T : DeploymentEventType.t -> Prop) e s s' d :
  currentDeployment s = Some d ->
  currentDeployment s' = Some d ->
  DeploymentEvent.deploymentId e = DeploymentResult.id d ->
  T (DeploymentEvent.type e) ->
  published e s s' ->
  carries keeps_results T s s'.
Proof.
  intros Hd Hd' Hid HT Hp. unfold carries, current_id. rewrite Hd, Hd'.
  split; [apply keeps_results_refl |].
  unfold published in Hp. rewrite Hp.
  destruct (eventEmitter s); simpl; [| exact I].
  exists [e]. split; [reflexivity |]. repeat constructor; [now rewrite Hid | exact HT].
Qed.

(** A change of the current deployment that keeps its identifier and
    its step results, seen as a step of [carries]. *)
Lemma update_carries (T : DeploymentEventType.t -> Prop) f s d :
  currentDeployment s = Some d ->
  keeps_results d (f d) ->
  carries keeps_results T s (with_currentDeployment (Some (f d)) s).
Proof.
  intros Hd Hk. unfold carries. rewrite Hd. simpl. split; [exact Hk |].
  destruct (eventEmitter s); [| exact I].
  exists []. now rewrite app_nil_r.
Qed.

(** [on_failure], the [catch] block. *)
Lemma on_failure_run message s d :
  currentDeployment s = Some d ->
  let d' :=
    DeploymentResult.set_error message
      (DeploymentResult.set_finishedAt (clock s)
         (DeploymentResult.set_status DeploymentStatus.failed d)) in
  exists s',
    on_failure message s = (Ok tt, s') /\
    currentDeployment s' = Some d' /\
    published
      {| DeploymentEvent.type := DeploymentEventType.deployment_failed;
         DeploymentEvent.deploymentId := DeploymentResult.id d;
         DeploymentEvent.timestamp := clock s;
         DeploymentEvent.data :=
           Some (EventData.mk None (Some "failed") None (Some message)
                   (Some (DeploymentResultOf d'))) |} s s' /\
    same_world s s' /\ clock s' = clock s.
Proof.
  intros Hd d'. unfold on_failure, update_current, Date_now, getCurrentDeployment.
  cbv beta iota zeta delta [mbind M_bind bind]. rewrite Hd. simpl.
  match goal with
  | |- context [emitEvent ?t ?x ?s0] =>
      destruct (emitEvent_current t x s0 d' eq_refl)
        as (s' & -> & Hd' & Hp & W & L & _)
  end.
  exists s'. split; [reflexivity |]. split; [exact Hd' |].
  split; [exact Hp |]. split; [exact W | exact L].
Qed.

Lemma carries_current K T s s' d :
  carries K T s s' -> currentDeployment s = Some d ->
  exists d', currentDeployment s' = Some d' /\ K d d'.
Proof.
  intros [H _] Hd. rewrite Hd in H.
  destruct (currentDeployment s') as [d'|]; [eauto | contradiction].
Qed.

(** The health check. *)
Definition health_phase (config : DeploymentConfig.t) : M unit :=
  if Js.truthy_opt (DeploymentConfig.healthCheckUrl config) then
    let healthCheckUrl := default "" (DeploymentConfig.healthCheckUrl config) in
    update_current
      (DeploymentResult.set_status DeploymentStatus.waiting_for_health) ;;
    emitEvent DeploymentEventType.health_check_started
      (Some (EventData.of_status "waiting")) ;;
    healthOk ← waitForUrl E healthCheckUrl
                 (Js.num_or (DeploymentConfig.healthCheckTimeout config) 30000)
                 2000;
    emitEvent DeploymentEventType.health_check_completed
      (Some (EventData.of_status (if healthOk : bool then "success" else "failed"))) ;;
    (if healthOk : bool then ret tt
     else throw ("Health check failed: " +:+ healthCheckUrl +:+ " not available")
     : M unit)
  else ret tt.

(** The E2E tests. *)
Definition e2e_phase (projectPath : string) (config : DeploymentConfig.t)
  : M unit :=
  match DeploymentConfig.e2eTests config with
  | Some _ =>
      update_current
        (DeploymentResult.set_status DeploymentStatus.running_tests) ;;
      emitEvent DeploymentEventType.e2e_started
        (Some (EventData.of_status "running")) ;;
      e2eResult ← runE2ETests E projectPath config;
      update_current (DeploymentResult.set_e2eResult e2eResult) ;;
      emitEvent DeploymentEventType.e2e_completed
        (Some (EventData.mk None
                 (Some (E2EStatus.to_string (E2ETestResult.status e2eResult)))
                 None None (Some (E2EResultOf e2eResult)))) ;;
      match E2ETestResult.status e2eResult with
      | E2EStatus.failed => throw "E2E tests failed"
      | _ => ret tt
      end
  | None => ret tt
  end.

(** The end of a run that went through. *)
Definition success_phase : M unit :=
  update_current (DeploymentResult.set_status DeploymentStatus.success) ;;
  now ← Date_now;
  update_current (DeploymentResult.set_finishedAt now) ;;
  current ← getCurrentDeployment;
  emitEvent DeploymentEventType.deployment_completed
    (Some (EventData.mk None (Some "success") None None
             (option_map DeploymentResultOf current))).

Lemma after_deploy_phases projectPath config :
  after_deploy E projectPath config =
  (health_phase config ;; e2e_phase projectPath config ;; success_phase).
Proof. reflexivity. Qed.

(** What a phase that only reports progress does: it returns or throws,
    and the run carries on. *)
Definition progresses (m : M unit) : Prop :=
  forall s d,
    currentDeployment s = Some d ->
    exists o s' extra,
      m s = (o, s') /\ o <> Pending /\
      carries keeps_results mid_event s s' /\
      children s' = children s ++ extra /\ clock s <= clock s'.

Lemma health_phase_run config : progresses (health_phase config).
Proof.
  intros s d Hd. unfold health_phase.
  destruct (Js.truthy_opt (DeploymentConfig.healthCheckUrl config)).
  2:{ exists (Ok tt), s, []. rewrite app_nil_r.
      split; [reflexivity |]. split; [discriminate |].
      split; [apply carries_results_refl |]. split; [reflexivity | lia]. }
  cbv beta iota zeta delta [mbind M_bind bind].
  rewrite (update_current_run _ _ _ Hd).
  set (d1 := DeploymentResult.set_status DeploymentStatus.waiting_for_health d).
  set (s1 := with_currentDeployment (Some d1) s).
  assert (C1 : carries keeps_results mid_event s s1)
    by (apply update_carries; [exact Hd | now repeat split]).
  destruct (emitEvent_run DeploymentEventType.health_check_started
              (Some (EventData.of_status "waiting")) s1)
    as (s2 & -> & C2 & (F2 & Ch2 & Ft2 & R2) & L2 & _).
  destruct (waitForUrl_run E (default "" (DeploymentConfig.healthCheckUrl config))
              (Js.num_or (DeploymentConfig.healthCheckTimeout config) 30000)
              2000 s2)
    as (b & s3 & issued & -> & _ & _ & _ & _ & _ & C3 & F3 & Ch3 & R3 & L3).
  match goal with
  | |- context [emitEvent ?t ?x s3] =>
      destruct (emitEvent_run t x s3)
        as (s4 & -> & C4 & (F4 & Ch4 & Ft4 & R4) & L4 & _)
  end.
  assert (C : carries keeps_results mid_event s s4).
  { eapply carries_results_trans; [exact C1 |].
    eapply carries_results_trans;
      [eapply carries_weaken; [| exact C2]; intros t <-; repeat split; discriminate |].
    eapply carries_results_trans;
      [eapply carries_weaken; [| exact C3]; apply cancel_is_mid |].
    eapply carries_weaken; [| exact C4]. intros t <-. repeat split; discriminate. }
  exists (if b then Ok tt
          else Throw ("Health check failed: " +:+
                      default "" (DeploymentConfig.healthCheckUrl config) +:+
                      " not available")), s4, [].
  rewrite app_nil_r.
  split; [now destruct b |]. split; [destruct b; discriminate |].
  split; [exact C |]. split; [unfold s1 in *; simpl in *; congruence |].
  unfold s1 in *; simpl in *; lia.
Qed.

Lemma e2e_phase_run projectPath config : progresses (e2e_phase projectPath config).
Proof.
  intros s d Hd. unfold e2e_phase.
  destruct (DeploymentConfig.e2eTests config) as [e2e|] eqn:He2e.
  2:{ exists (Ok tt), s, []. rewrite app_nil_r.
      split; [reflexivity |]. split; [discriminate |].
      split; [apply carries_results_refl |]. split; [reflexivity | lia]. }
  cbv beta iota zeta delta [mbind M_bind bind].
  rewrite (update_current_run _ _ _ Hd).
  set (d1 := DeploymentResult.set_status DeploymentStatus.running_tests d).
  set (s1 := with_currentDeployment (Some d1) s).
  assert (C1 : carries keeps_results mid_event s s1)
    by (apply update_carries; [exact Hd | now repeat split]).
  destruct (emitEvent_run DeploymentEventType.e2e_started
              (Some (EventData.of_status "running")) s1)
    as (s2 & -> & C2 & (F2 & Ch2 & Ft2 & R2) & L2 & _).
  destruct (runE2ETests_run E projectPath config s2)
    as (r & s3 & -> & C3 & F3 & R3 & L3 & Hcases).
  assert (C13 : carries keeps_results mid_event s s3).
  { eapply carries_results_trans; [exact C1 |].
    eapply carries_results_trans;
      [eapply carries_weaken; [| exact C2]; intros t <-; repeat split; discriminate |].
    eapply carries_weaken; [| exact C3]. apply cancel_is_mid. }
  destruct (carries_current _ _ _ _ _ C13 Hd) as (d3 & Hd3 & K3).
  rewrite (update_current_run _ _ _ Hd3).
  set (s4 := with_currentDeployment
               (Some (DeploymentResult.set_e2eResult r d3)) s3).
  assert (C34 : carries keeps_results mid_event s3 s4)
    by (apply update_carries; [exact Hd3 | now repeat split]).
  match goal with
  | |- context [emitEvent ?t ?x s4] =>
      destruct (emitEvent_run t x s4)
        as (s5 & -> & C5 & (F5 & Ch5 & Ft5 & R5) & L5 & _)
  end.
  assert (C : carries keeps_results mid_event s s5).
  { eapply carries_results_trans; [exact C13 |].
    eapply carries_results_trans; [exact C34 |].
    eapply carries_weaken; [| exact C5]. intros t <-. repeat split; discriminate. }
  assert (Hch : exists extra, children s5 = children s ++ extra).
  { rewrite Ch5. unfold s4. simpl. rewrite He2e in Hcases.
    destruct Hcases as [Hl | Hr].
    - destruct Hl as [Hc _]. exists []. rewrite app_nil_r, Hc, Ch2. reflexivity.
    - destruct Hr as (value & child & Hr). cbv zeta in Hr.
      destruct Hr as [Hc _]. exists [child]. rewrite Hc, Ch2. reflexivity. }
  destruct Hch as (extra & Hch).
  exists (match E2ETestResult.status r with
          | E2EStatus.failed => Throw "E2E tests failed"
          | _ => Ok tt
          end), s5, extra.
  split; [now destruct (E2ETestResult.status r) |].
  split; [destruct (E2ETestResult.status r); discriminate |].
  split; [exact C |]. split; [exact Hch |].
  unfold s4, s1 in *; simpl in *; lia.
Qed.

(** The event that closes a run that went through. *)
Definition completed_event (d' : DeploymentResult.t) (now : Z)
  : DeploymentEvent.t :=
  {| DeploymentEvent.type := DeploymentEventType.deployment_completed;
     DeploymentEvent.deploymentId := DeploymentResult.id d';
     DeploymentEvent.timestamp := now;
     DeploymentEvent.data :=
       Some (EventData.mk None (Some "success") None None
               (Some (DeploymentResultOf d'))) |}.

(** The event that closes a run that was aborted. *)
Definition failed_event (d' : DeploymentResult.t) (now : Z) (message : string)
  : DeploymentEvent.t :=
  {| DeploymentEvent.type := DeploymentEventType.deployment_failed;
     DeploymentEvent.deploymentId := DeploymentResult.id d';
     DeploymentEvent.timestamp := now;
     DeploymentEvent.data :=
       Some (EventData.mk None (Some "failed") None (Some message)
               (Some (DeploymentResultOf d'))) |}.

(** The deployment as the end of a successful run leaves it. *)
Definition succeeded (d : DeploymentResult.t) (now : Z) : DeploymentResult.t :=
  DeploymentResult.set_finishedAt now
    (DeploymentResult.set_status DeploymentStatus.success d).

(** The deployment as the [catch] block leaves it. *)
Definition aborted (d : DeploymentResult.t) (now : Z) (message : string)
  : DeploymentResult.t :=
  DeploymentResult.set_error message
    (DeploymentResult.set_finishedAt now
       (DeploymentResult.set_status DeploymentStatus.failed d)).

Lemma success_phase_run s d :
  currentDeployment s = Some d ->
  exists s',
    success_phase s = (Ok tt, s') /\
    currentDeployment s' = Some (succeeded d (clock s)) /\
    published (completed_event (succeeded d (clock s)) (clock s)) s s' /\
    same_world s s' /\ clock s' = clock s.
Proof.
  intros Hd. unfold success_phase, update_current, Date_now, getCurrentDeployment.
  cbv beta iota zeta delta [mbind M_bind bind]. rewrite Hd. simpl.
  match goal with
  | |- context [emitEvent ?t ?x ?s0] =>
      destruct (emitEvent_current t x s0 (succeeded d (clock s)) eq_refl)
        as (s' & -> & Hd' & Hp & W & L & _)
  end.
  exists s'. split; [reflexivity |]. split; [exact Hd' |].
  split; [exact Hp |]. split; [exact W | exact L].
Qed.

Lemma on_failure_aborted message s d :
  currentDeployment s = Some d ->
  exists s',
    on_failure message s = (Ok tt, s') /\
    currentDeployment s' = Some (aborted d (clock s) message) /\
    published (failed_event (aborted d (clock s) message) (clock s) message) s s' /\
    same_world s s' /\ clock s' = clock s.
Proof. intros Hd. exact (on_failure_run message s d Hd). Qed.

Lemma carries_results_id T s s' :
  carries keeps_results T s s' -> carries keeps_id T s s'.
Proof. apply carries_relax. exact keeps_results_id. Qed.

(** The pipeline from the deploy steps on.  [sm] is the state in which
    the run comes to its end, before the closing event. *)
Lemma tail_run projectPath config s d :
  currentDeployment s = Some d ->
  let n := length (children s) in
  let steps := DeploymentConfig.deploySteps config in
  exists o s' sm dm rd cs extra,
    (run_steps E projectPath StepType.deploy steps ;;
     after_deploy E projectPath config) s = (o, s') /\
    carries keeps_id mid_event s sm /\
    currentDeployment sm = Some dm /\
    DeploymentResult.buildResults dm = DeploymentResult.buildResults d /\
    DeploymentResult.deployResults dm = DeploymentResult.deployResults d ++ rd /\
    recorded_from E n (executed E n steps) rd /\
    children sm = children s ++ cs ++ extra /\
    map shellArgs cs = map (shell_args E) (executed E n steps) /\
    clock s <= clock sm /\
    (forall step, first_abort E n steps = Some step ->
                  o = Throw (step_failed StepType.deploy step) /\ extra = []) /\
    (first_abort E n steps = None ->
     Js.truthy_opt (DeploymentConfig.healthCheckUrl config) = false ->
     DeploymentConfig.e2eTests config = None ->
     o = Ok tt) /\
    ((exists message, o = Throw message /\ s' = sm) \/
     (o = Ok tt /\ first_abort E n steps = None /\
      currentDeployment s' = Some (succeeded dm (clock sm)) /\
      published (completed_event (succeeded dm (clock sm)) (clock sm)) sm s' /\
      same_world sm s' /\ clock s' = clock sm)).
Proof.
  intros Hd. cbv zeta.
  cbv beta iota zeta delta [mbind M_bind bind].
  destruct (run_steps_run E projectPath StepType.deploy
              (DeploymentConfig.deploySteps config) s d Hd)
    as (rd & s1 & d1 & cs & -> & Hrec & Hd1 & Hres & Hoth & Hc & Hargs & C1
        & F1 & Ft1 & R1 & L1).
  simpl in Hres, Hoth.
  assert (C1' : carries keeps_id mid_event s s1)
    by (eapply carries_weaken; [| exact C1]; apply step_is_mid).
  destruct (first_abort E (length (children s))
              (DeploymentConfig.deploySteps config)) as [step|] eqn:Hfa.
  { exists (Throw (step_failed StepType.deploy step)), s1, s1, d1, rd, cs, [].
    rewrite app_nil_r. split; [reflexivity |]. split; [exact C1' |].
    split; [exact Hd1 |]. split; [exact Hoth |]. split; [exact Hres |].
    split; [exact Hrec |]. split; [exact Hc |]. split; [exact Hargs |].
    split; [exact L1 |].
    split; [intros step' Heq; injection Heq as Heq; subst step'; now split |].
    split; [discriminate |].
    left. eauto. }
  rewrite after_deploy_phases.
  cbv beta iota zeta delta [mbind M_bind bind].
  destruct (health_phase_run config s1 d1 Hd1)
    as (o2 & s2 & x2 & Hh & Ho2 & C2 & Hc2 & L2).
  rewrite Hh.
  destruct (carries_current _ _ _ _ _ C2 Hd1) as (d2 & Hd2 & (_ & Kb2 & Kd2)).
  assert (C12 : carries keeps_id mid_event s s2)
    by (eapply carries_id_trans; [exact C1' | now apply carries_results_id]).
  destruct o2 as [[]|message|]; [| | congruence].
  2:{ exists (Throw message), s2, s2, d2, rd, cs, x2.
      split; [reflexivity |]. split; [exact C12 |]. split; [exact Hd2 |].
      split; [congruence |]. split; [congruence |]. split; [exact Hrec |].
      split; [rewrite Hc2, Hc, <- app_assoc; reflexivity |].
      split; [exact Hargs |]. split; [lia |].
      split; [discriminate |].
      split; [intros _ Hoff _; unfold health_phase in Hh; rewrite Hoff in Hh;
              discriminate |].
      left. eauto. }
  destruct (e2e_phase_run projectPath config s2 d2 Hd2)
    as (o3 & s3 & x3 & Ht & Ho3 & C3 & Hc3 & L3).
  rewrite Ht.
  destruct (carries_current _ _ _ _ _ C3 Hd2) as (d3 & Hd3 & (_ & Kb3 & Kd3)).
  assert (C13 : carries keeps_id mid_event s s3)
    by (eapply carries_id_trans; [exact C12 | now apply carries_results_id]).
  assert (Hch : children s3 = children s ++ cs ++ (x2 ++ x3))
    by (rewrite Hc3, Hc2, Hc, <- !app_assoc; reflexivity).
  destruct o3 as [[]|message|]; [| | congruence].
  2:{ exists (Throw message), s3, s3, d3, rd, cs, (x2 ++ x3).
      split; [reflexivity |]. split; [exact C13 |]. split; [exact Hd3 |].
      split; [congruence |]. split; [congruence |]. split; [exact Hrec |].
      split; [exact Hch |]. split; [exact Hargs |]. split; [lia |].
      split; [discriminate |].
      split; [intros _ _ Hoff; unfold e2e_phase in Ht; rewrite Hoff in Ht;
              discriminate |].
      left. eauto. }
  destruct (success_phase_run s3 d3 Hd3) as (s4 & -> & Hd4 & Hp & W & L4).
  exists (Ok tt), s4, s3, d3, rd, cs, (x2 ++ x3).
  split; [reflexivity |]. split; [exact C13 |]. split; [exact Hd3 |].
  split; [congruence |]. split; [congruence |]. split; [exact Hrec |].
  split; [exact Hch |]. split; [exact Hargs |]. split; [lia |].
  split; [discriminate |]. split; [reflexivity |]. right. auto 10.
Qed.

(** The event that marks the entry into the deploy phase. *)
Definition deploying_event (d : DeploymentResult.t) (now : Z)
  : DeploymentEvent.t :=
  {| DeploymentEvent.type := DeploymentEventType.deployment_started;
     DeploymentEvent.deploymentId := DeploymentResult.id d;
     DeploymentEvent.timestamp := now;
     DeploymentEvent.data := Some (EventData.of_status "deploying") |}.

(** How a run ends, from the state [sm] and the deployment [dm] it has
    come to: with the [catch] block, or with the end of the [try]
    block. *)
Definition closes (sm s' : State) (dm d' : DeploymentResult.t)
    (went_through : Prop) : Prop :=
  ((exists message,
       d' = aborted dm (clock sm) message /\
       published (failed_event d' (clock sm) message) sm s') \/
   (went_through /\
    d' = succeeded dm (clock sm) /\
    published (completed_event d' (clock sm)) sm s')) /\
  same_world sm s' /\ clock s' = clock sm.

(** The [try] block and its [catch]: the whole run, once the current
    deployment is set up. *)
Lemma attempt_run projectPath config s d :
  currentDeployment s = Some d ->
  exists s' d' sb db rb cb,
    try_catch (pipeline E projectPath config) on_failure s = (Ok tt, s') /\
    currentDeployment s' = Some d' /\
    carries keeps_id (step_event E StepType.build) s sb /\
    currentDeployment sb = Some db /\
    DeploymentResult.buildResults db = DeploymentResult.buildResults d ++ rb /\
    DeploymentResult.deployResults db = DeploymentResult.deployResults d /\
    recorded_from E (length (children s))
      (executed E (length (children s)) (DeploymentConfig.buildSteps config)) rb /\
    children sb = children s ++ cb /\
    map shellArgs cb =
      map (shell_args E)
          (executed E (length (children s)) (DeploymentConfig.buildSteps config)) /\
    match first_abort E (length (children s)) (DeploymentConfig.buildSteps config) with
    | Some step =>
        d' = aborted db (clock sb) (step_failed StepType.build step) /\
        published (failed_event d' (clock sb) (step_failed StepType.build step))
          sb s' /\
        same_world sb s' /\ clock s' = clock sb
    | None =>
        exists sd sm dm rd cd extra,
          published (deploying_event db (clock sb)) sb sd /\
          currentDeployment sd =
            Some (DeploymentResult.set_status DeploymentStatus.deploying db) /\
          children sd = children sb /\
          carries keeps_id mid_event sd sm /\
          currentDeployment sm = Some dm /\
          DeploymentResult.buildResults dm = DeploymentResult.buildResults db /\
          DeploymentResult.deployResults dm =
            DeploymentResult.deployResults db ++ rd /\
          recorded_from E (length (children sb))
            (executed E (length (children sb))
               (DeploymentConfig.deploySteps config)) rd /\
          children sm = children sb ++ cd ++ extra /\
          map shellArgs cd =
            map (shell_args E)
                (executed E (length (children sb))
                   (DeploymentConfig.deploySteps config)) /\
          (forall step,
              first_abort E (length (children sb))
                (DeploymentConfig.deploySteps config) = Some step ->
              d' = aborted dm (clock sm) (step_failed StepType.deploy step) /\
              extra = []) /\
          (first_abort E (length (children sb))
             (DeploymentConfig.deploySteps config) = None ->
           Js.truthy_opt (DeploymentConfig.healthCheckUrl config) = false ->
           DeploymentConfig.e2eTests config = None ->
           d' = succeeded dm (clock sm)) /\
          closes sm s' dm d'
            (first_abort E (length (children sb))
               (DeploymentConfig.deploySteps config) = None)
    end.
Proof.
  intros Hd. rewrite pipeline_phases. unfold try_catch.
  cbv beta iota zeta delta [mbind M_bind bind].
  destruct (run_steps_run E projectPath StepType.build
              (DeploymentConfig.buildSteps config) s d Hd)
    as (rb & sb & db & cb & -> & Hrec & Hdb & Hres & Hoth & Hc & Hargs & C1
        & F1 & Ft1 & R1 & L1).
  simpl in Hres, Hoth.
  destruct (first_abort E (length (children s))
              (DeploymentConfig.buildSteps config)) as [step|] eqn:Hfa.
  { destruct (on_failure_aborted (step_failed StepType.build step) sb db Hdb)
      as (s' & -> & Hd' & Hp & W & L).
    exists s', (aborted db (clock sb) (step_failed StepType.build step)), sb, db, rb, cb.
    split; [reflexivity |]. split; [exact Hd' |]. split; [exact C1 |].
    split; [exact Hdb |]. split; [exact Hres |]. split; [exact Hoth |].
    split; [exact Hrec |]. split; [exact Hc |]. split; [exact Hargs |].
    auto. }
  unfold after_build.
  cbv beta iota zeta delta [mbind M_bind bind].
  rewrite (update_current_run _ _ _ Hdb).
  set (d1 := DeploymentResult.set_status DeploymentStatus.deploying db).
  set (s1 := with_currentDeployment (Some d1) sb).
  destruct (emitEvent_current DeploymentEventType.deployment_started
              (Some (EventData.of_status "deploying")) s1 d1 eq_refl)
    as (sd & -> & Hdd & Hp1 & (Fd & Chd & Ftd & Rd) & Ld & _).
  destruct (tail_run projectPath config sd d1 Hdd)
    as (o & s2 & sm & dm & rd & cd & extra & Htail & Cm & Hdm & Hbm & Hdpm
        & Hrecd & Hchm & Hargsd & Lm & Habort & Hthrough & Hend).
  cbv beta iota zeta delta [mbind M_bind bind] in Htail. rewrite Htail.
  assert (Hlen : length (children sd) = length (children sb))
    by (rewrite Chd; reflexivity).
  rewrite Hlen in *.
  assert (Hfinal : exists s' d',
             (match o with
              | Throw e => on_failure e s2
              | _ => (o, s2)
              end) = (Ok tt, s') /\
             currentDeployment s' = Some d' /\
             (forall step,
                 first_abort E (length (children sb))
                   (DeploymentConfig.deploySteps config) = Some step ->
                 d' = aborted dm (clock sm) (step_failed StepType.deploy step) /\
                 extra = []) /\
             (first_abort E (length (children sb))
                (DeploymentConfig.deploySteps config) = None ->
              Js.truthy_opt (DeploymentConfig.healthCheckUrl config) = false ->
              DeploymentConfig.e2eTests config = None ->
              d' = succeeded dm (clock sm)) /\
             closes sm s' dm d'
               (first_abort E (length (children sb))
                  (DeploymentConfig.deploySteps config) = None)).
  { destruct Hend as [(message & -> & ->) | (-> & Hnone & Hd' & Hp & W & L)].
    - destruct (on_failure_aborted message sm dm Hdm) as (s' & -> & Hd' & Hp & W & L).
      exists s', (aborted dm (clock sm) message).
      split; [reflexivity |]. split; [exact Hd' |]. split.
      + intros step Hs. destruct (Habort step Hs) as [Heq ->].
        injection Heq as ->. now split.
      + split; [intros H1 H2 H3; discriminate (Hthrough H1 H2 H3) |].
        split; [left; eauto | now split].
    - exists s2, (succeeded dm (clock sm)).
      split; [reflexivity |]. split; [exact Hd' |]. split.
      + intros step Hs. congruence.
      + split; [reflexivity |]. split; [right; auto | now split]. }
  destruct Hfinal as (s' & d' & Hrun & Hd' & Hab & Hth & Hcl).
  exists s', d', sb, db, rb, cb.
  split; [destruct o; exact Hrun |]. split; [exact Hd' |]. split; [exact C1 |].
  split; [exact Hdb |]. split; [exact Hres |]. split; [exact Hoth |].
  split; [exact Hrec |]. split; [exact Hc |]. split; [exact Hargs |].
  exists sd, sm, dm, rd, cd, extra.
  split; [exact Hp1 |]. split; [exact Hdd |]. split; [exact Chd |].
  split; [exact Cm |].
  split; [exact Hdm |]. split; [exact Hbm |]. split; [exact Hdpm |].
  split; [exact Hrecd |].
  split; [rewrite Hchm, Chd; reflexivity |]. split; [exact Hargsd |].
  split; [exact Hab |]. split; [exact Hth | exact Hcl].
Qed.

End Run.

(* ================================================================== *)
(** * [deploy] *)
(* ================================================================== *)

Section Deploy.

Variable E : Env.

(** While nothing is in flight a cancellation does nothing. *)
Lemma cancelDeployment_idle s :
  running s = false -> cancelDeployment s = (Ok tt, s).
Proof.
  unfold cancelDeployment, isDeploymentRunning, getCurrentDeployment.
  cbv beta iota zeta delta [mbind M_bind bind]. intros ->.
  now destruct (currentDeployment s).
Qed.

(** ... and a suspension only lets time pass. *)
Definition idles (s s' : State) : Prop :=
  currentDeployment s' = currentDeployment s /\
  eventEmitter s' = eventEmitter s /\ same_world s s' /\ clock s <= clock s'.

Lemma idles_running s s' : idles s s' -> running s' = running s.
Proof. intros (H & _). unfold running. now rewrite H. Qed.

Lemma suspend_idle ms s :
  running s = false ->
  exists s', suspend E ms s = (Ok tt, s') /\ idles s s'.
Proof.
  intros Hidle. unfold suspend. eexists. split; [reflexivity |].
  set (s1 := elapse _ s).
  assert (H1 : idles s s1) by (unfold idles, s1, same_world; simpl; repeat split; lia).
  assert (Hr : running s1 = false) by (rewrite (idles_running _ _ H1); exact Hidle).
  enough (G : forall rs, fold_left (fun s r => serve r s) rs s1 = s1) by now rewrite G.
  induction rs as [|[] rs IH]; [reflexivity |].
  simpl. now rewrite (cancelDeployment_idle _ Hr).
Qed.

Lemma getDeploymentConfig_idle projectPath s :
  running s = false ->
  exists config s',
    getDeploymentConfig E projectPath s = (Ok config, s') /\ idles s s'.
Proof.
  intros Hidle.
  unfold getDeploymentConfig, readJsonFile, secureFs_readFile, secureFs_guard,
    try_catch.
  cbv beta iota zeta delta [mbind M_bind bind get ret throw].
  destruct (suspend_idle 0 s Hidle) as (s' & -> & Hi).
  destruct (allowed E (getDeploymentConfigPath projectPath));
    [| eexists _, s'; split; [reflexivity | exact Hi]].
  destruct (files s' !! getDeploymentConfigPath projectPath) as [content|];
    [| eexists _, s'; split; [reflexivity | exact Hi]].
  destruct (Json.parse content); eexists _, s'; (split; [reflexivity | exact Hi]).
Qed.

(** The deployment [deploy] creates in state [s0], where the
    configuration has just been read. *)
Definition created (trigger : Trigger) (featureIds : option (list string))
    (s0 : State) : DeploymentResult.t :=
  {| DeploymentResult.id :=
       "deploy_" +:+ Js.toString36 (clock s0) +:+ "_" +:+ random E (randoms s0);
     DeploymentResult.startedAt := clock s0;
     DeploymentResult.finishedAt := None;
     DeploymentResult.status := DeploymentStatus.building;
     DeploymentResult.buildResults := [];
     DeploymentResult.deployResults := [];
     DeploymentResult.e2eResult := None;
     DeploymentResult.error := None;
     DeploymentResult.trigger := trigger;
     DeploymentResult.featureIds := featureIds |}.

(** The event that opens a run. *)
Definition building_event (d : DeploymentResult.t) (now : Z)
  : DeploymentEvent.t :=
  {| DeploymentEvent.type := DeploymentEventType.deployment_started;
     DeploymentEvent.deploymentId := DeploymentResult.id d;
     DeploymentEvent.timestamp := now;
     DeploymentEvent.data := Some (EventData.of_status "building") |}.

(** [deploy], when nothing is in flight: it reads the configuration,
    sets up the deployment, says so, and runs the [try] block. *)
Lemma deploy_starts projectPath trigger featureIds s :
  running s = false ->
  exists config s0 s1,
    getDeploymentConfig E projectPath s = (Ok config, s0) /\
    idles s s0 /\
    currentDeployment s1 = Some (created trigger featureIds s0) /\
    published (building_event (created trigger featureIds s0) (clock s0)) s0 s1 /\
    children s1 = children s0 /\ clock s1 = clock s0 /\
    forall s',
      try_catch (pipeline E projectPath config) on_failure s1 = (Ok tt, s') ->
      deploy E projectPath trigger featureIds s = (Ok (currentDeployment s'), s').
Proof.
  intros Hidle.
  destruct (getDeploymentConfig_idle projectPath s Hidle) as (config & s0 & Hget & Hi).
  set (d0 := created trigger featureIds s0).
  set (sa := with_currentDeployment (Some d0) (with_randoms (S (randoms s0)) s0)).
  destruct (emitEvent_current DeploymentEventType.deployment_started
              (Some (EventData.of_status "building")) sa d0 eq_refl)
    as (s1 & Hemit & Hd1 & Hp & (F & Ch & Ft & R) & L & _).
  exists config, s0, s1.
  split; [exact Hget |]. split; [exact Hi |]. split; [exact Hd1 |].
  split; [exact Hp |]. split; [exact Ch |]. split; [exact L |].
  intros s' Hrun.
  unfold deploy, isDeploymentRunning, generateDeploymentId, random_suffix,
    getCurrentDeployment.
  cbv beta iota zeta delta [mbind M_bind bind get modify ret Date_now].
  rewrite Hidle, Hget.
  change (with_currentDeployment _ (with_randoms _ s0)) with sa.
  now rewrite Hemit, Hrun.
Qed.

(** C1. A call of [deploy] made while [isDeploymentRunning()] is true
    fails with "A deployment is already in progress" and changes
    nothing: the deployment in flight is as it was, no other one has
    been created and the emitter has been given no event. *)
Theorem deploy_refused_while_running projectPath trigger featureIds s :
  isDeploymentRunning s = (Ok true, s) ->
  deploy E projectPath trigger featureIds s =
    (Throw "A deployment is already in progress", s) /\
  forall s',
    snd (deploy E projectPath trigger featureIds s) = s' ->
    getCurrentDeployment s' = (Ok (currentDeployment s), s') /\
    eventEmitter s' = eventEmitter s.
Proof.
  intros Hrun.
  assert (H : deploy E projectPath trigger featureIds s =
              (Throw "A deployment is already in progress", s)).
  { unfold deploy. cbv beta iota zeta delta [mbind M_bind bind].
    now rewrite Hrun. }
  split; [exact H |]. intros s' <-. rewrite H. now split.
Qed.

Lemma emitted_carries K T s s' emitted :
  carries K T s s' -> eventEmitter s = Some emitted ->
  exists new,
    eventEmitter s' = Some (emitted ++ new) /\
    Forall (fun e => Some (DeploymentEvent.deploymentId e) = current_id s /\
                     T (DeploymentEvent.type e)) new.
Proof.
  intros [_ H] He. rewrite He in H.
  destruct (eventEmitter s') as [emitted'|]; [| contradiction].
  destruct H as (new & -> & F). eauto.
Qed.

Lemma emitted_published e s s' emitted :
  published e s s' -> eventEmitter s = Some emitted ->
  eventEmitter s' = Some (emitted ++ [e]).
Proof. unfold published. now intros -> ->. Qed.






(** None of [steps] aborts its phase, the first being run by the
    [n]-th child: each one succeeds, or has [continueOnError] set. *)
Fixpoint all_pass (n : nat) (steps : list DeploymentStep.t) : Prop :=
  match steps with
  | [] => True
  | step :: rest => aborts E n step = false /\ all_pass (S n) rest
  end.

Lemma executed_all n steps :
  all_pass n steps -> executed E n steps = steps /\ first_abort E n steps = None.
Proof.
  revert n. induction steps as [|step steps IH]; intros n H; [now split |].
  destruct H as [Hs H]. simpl. rewrite Hs.
  destruct (IH _ H) as [-> ->]. now split.
Qed.




End Deploy.

(* ================================================================== *)
(** * The claims on concrete runs *)
(* ================================================================== *)

Definition project : string := "/srv/app".

Definition step (name command : string) : DeploymentStep.t :=
  DeploymentStep.mk name command None None None None.

(** A configuration with no optional part. *)
Definition config_of (build deploy_steps : list DeploymentStep.t)
  : DeploymentConfig.t :=
  {| DeploymentConfig.version := 1;
     DeploymentConfig.autoDeployOnComplete := false;
     DeploymentConfig.buildSteps := build;
     DeploymentConfig.deploySteps := deploy_steps;
     DeploymentConfig.e2eTests := None;
     DeploymentConfig.healthCheckUrl := None;
     DeploymentConfig.healthCheckTimeout := None |}.

(** The server just started, in a project whose configuration has been
    saved. *)
Definition configured (config : DeploymentConfig.t) : State :=
  with_files
    {[ getDeploymentConfigPath project := Json.stringify (Document.of_config config) ]}
    fresh.

(** A child that says nothing and exits with [code] after 50 ms. *)
Definition exits (code : Z) : Exec.ChildRun := [(50, Exec.Close (Some code))].

(** The server with a deployment in flight. *)
Definition busy : State :=
  with_currentDeployment
    (Some {| DeploymentResult.id := "deploy_lq1z8k00_k3x9q1";
             DeploymentResult.startedAt := 1700000000000;
             DeploymentResult.finishedAt := None;
             DeploymentResult.status := DeploymentStatus.building;
             DeploymentResult.buildResults := [];
             DeploymentResult.deployResults := [];
             DeploymentResult.e2eResult := None;
             DeploymentResult.error := None;
             DeploymentResult.trigger := manual;
             DeploymentResult.featureIds := None |})
    fresh.

(** C1, witness: a second [deploy] while the first one is building. *)
Lemma deploy_refused_while_running_witness :
  deploy silent_world project manual None busy =
  (Throw "A deployment is already in progress", busy).
Proof.
  exact (proj1 (deploy_refused_while_running silent_world project manual None
                  busy eq_refl)).
Defined.






(** A configuration with one build step and one deploy step. *)
Definition build_and_deploy : DeploymentConfig.t :=
  config_of [step "build" "npm run build"] [step "up" "docker compose up -d"].


(** A configuration with step lists, an environment and a health check. *)
Definition full_config : DeploymentConfig.t :=
  {| DeploymentConfig.version := 1;
     DeploymentConfig.autoDeployOnComplete := true;
     DeploymentConfig.buildSteps := [];
     DeploymentConfig.deploySteps :=
       [DeploymentStep.mk "up" "docker compose up -d" (Some "deploy")
          (Some {[ "NODE_ENV" := "production";
                   "GREETING" := "say " +:+ Json.quote "hi" ]})
          (Some 120000) (Some true)];
     DeploymentConfig.e2eTests :=
       Some (E2ETestConfig.mk "npx playwright test" None
               (Some "http://localhost:3000") (Some 30000) None None);
     DeploymentConfig.healthCheckUrl := Some "http://localhost:3000/health";
     DeploymentConfig.healthCheckTimeout := Some 15000 |}.

(** C5, witness: saved, then read back. *)
Lemma save_then_get_witness :
  exists s2,
    getDeploymentConfig silent_world project
      (snd (saveDeploymentConfig silent_world project full_config fresh)) =
    (Ok full_config, s2).
Proof.
  destruct (save_then_get silent_world project full_config fresh
              (snd (saveDeploymentConfig silent_world project full_config fresh)))
    as (merged & s2 & Hget & _ & _ & Htyped).
  - vm_compute. reflexivity.
  - exists s2. rewrite Htyped in Hget. exact Hget.
Defined.

(** A world in which a client asks to cancel while the first command of
    the run (the second suspension of the service, after the reading of
    the configuration) is still running. *)
Definition cancelled_midway : Env :=
  world_of (fun _ => exits 0)
           (fun n => match n with 1%nat => [CancelRequest] | _ => [] end).

(** C2 fails on the code: [cancelDeployment], called while the build step
    is running, publishes [deployment_failed]; the run goes on all the
    same, publishes five more events under the same identifier, the last
    of which is a second closing event, [deployment_completed], and ends
    with status [success]. *)
Theorem events_after_cancellation :
  exists d s' events,
    deploy cancelled_midway project manual None (configured build_and_deploy) =
      (Ok (Some d), s') /\
    eventEmitter s' = Some events /\
    map DeploymentEvent.type events =
      [DeploymentEventType.deployment_started;
       DeploymentEventType.build_step_started;
       DeploymentEventType.deployment_failed;
       DeploymentEventType.build_step_completed;
       DeploymentEventType.deployment_started;
       DeploymentEventType.deploy_step_started;
       DeploymentEventType.deploy_step_completed;
       DeploymentEventType.deployment_completed] /\
    map DeploymentEvent.deploymentId events =
      repeat (DeploymentResult.id d) 8 /\
    DeploymentResult.status d = DeploymentStatus.success /\
    DeploymentResult.error d = Some "Deployment cancelled by user".
Proof.
  eexists _, _, _. split; [vm_compute; reflexivity |].
  split; [reflexivity |]. now vm_compute.
Qed.

Section Undisturbed.

Variable E : Env.
Hypothesis quiet : undisturbed E.

Lemma terminal_mid t : mid_event E t -> DeploymentEventType.terminal t = false.
Proof.
  intros (_ & Hc & Hf). destruct t; try reflexivity; [congruence |].
  exfalso. now apply Hf.
Qed.

Lemma terminal_step stepType t :
  step_event E stepType t -> DeploymentEventType.terminal t = false.
Proof. intros H. now apply terminal_mid, step_is_mid with stepType. Qed.

(** When nobody cancels, the closing event of a run is the last event
    published and the only closing one. *)
Lemma closing_event_last projectPath trigger featureIds s emitted :
  running s = false ->
  eventEmitter s = Some emitted ->
  exists d s' earlier closing,
    deploy E projectPath trigger featureIds s = (Ok (Some d), s') /\
    eventEmitter s' = Some (emitted ++ earlier ++ [closing]) /\
    Forall (fun e => DeploymentEventType.terminal (DeploymentEvent.type e) = false)
           earlier /\
    DeploymentEventType.terminal (DeploymentEvent.type closing) = true.
Proof.
  intros Hidle He.
  destruct (deploy_starts E projectPath trigger featureIds s Hidle)
    as (config & s0 & s1 & Hget & Hi & Hd1 & Hp1 & Hc1 & L1 & Hdeploy).
  destruct (attempt_run E projectPath config s1 _ Hd1)
    as (s' & d' & sb & db & rb & cb & Hrun & Hd' & Cb & Hdb & _ & _ & _ & _ & _
        & Hcases).
  exists d', s'. rewrite (Hdeploy s' Hrun), Hd'.
  destruct Hi as (_ & Hi & _). rewrite <- Hi in He.
  pose proof (emitted_published _ _ _ _ Hp1 He) as He1.
  destruct (emitted_carries _ _ _ _ _ Cb He1) as (nb & Heb & Fb).
  assert (Fb' : Forall (fun e => DeploymentEventType.terminal
                                   (DeploymentEvent.type e) = false) nb).
  { eapply Forall_impl; [exact Fb |]. intros e [_ H].
    now apply terminal_step with StepType.build. }
  destruct (first_abort E (length (children s1))
              (DeploymentConfig.buildSteps config)) as [step|].
  - destruct Hcases as (-> & Hp & _).
    eexists (_ :: nb), _. split; [reflexivity |].
    rewrite (emitted_published _ _ _ _ Hp Heb).
    split; [rewrite <- !app_assoc; reflexivity |].
    split; [constructor; [reflexivity | exact Fb'] | reflexivity].
  - destruct Hcases as (sd & sm & dm & rd & cd & extra & Hpd & _ & _ & Cm & _
                        & _ & _ & _ & _ & _ & _ & _ & (Hend & _)).
    pose proof (emitted_published _ _ _ _ Hpd Heb) as Hed.
    destruct (emitted_carries _ _ _ _ _ Cm Hed) as (nm & Hem & Fm).
    assert (Fm' : Forall (fun e => DeploymentEventType.terminal
                                     (DeploymentEvent.type e) = false) nm).
    { eapply Forall_impl; [exact Fm |]. intros e [_ H]. now apply terminal_mid. }
    destruct Hend as [(message & -> & Hp) | (_ & -> & Hp)];
      eexists (_ :: nb ++ _ :: nm), _; (split; [reflexivity |]);
      rewrite (emitted_published _ _ _ _ Hp Hem);
      (split; [simpl; rewrite <- !app_assoc; reflexivity |]);
      (split; [| reflexivity]);
      (constructor; [reflexivity |]); apply Forall_app;
      (split; [exact Fb' |]); (constructor; [reflexivity | exact Fm']).
Qed.

End Undisturbed.

(* ================================================================== *)
(** * Beyond the pipeline: cancelling, and what a run leaves behind *)
(* ================================================================== *)

(** The event [cancelDeployment] publishes for the deployment [d]. *)
Definition cancelled_event (d : DeploymentResult.t) (now : Z)
  : DeploymentEvent.t :=
  {| DeploymentEvent.type := DeploymentEventType.deployment_failed;
     DeploymentEvent.deploymentId := DeploymentResult.id d;
     DeploymentEvent.timestamp := now;
     DeploymentEvent.data :=
       Some (EventData.mk None (Some "failed") None (Some "Cancelled by user")
               None) |}.

(** What a cancellation does to a deployment in flight. *)
Lemma cancel_in_flight s d :
  currentDeployment s = Some d ->
  in_flight (DeploymentResult.status d) = true ->
  exists s',
    cancelDeployment s = (Ok tt, s') /\
    currentDeployment s' =
      Some (aborted d (clock s) "Deployment cancelled by user") /\
    published (cancelled_event d (clock s)) s s' /\
    same_world s s' /\ clock s' = clock s /\ suspensions s' = suspensions s.
Proof.
  intros Hd Hf.
  unfold cancelDeployment, isDeploymentRunning, getCurrentDeployment, running.
  cbv beta iota zeta delta [mbind M_bind bind update_current Date_now].
  rewrite Hd, Hf. simpl. rewrite Hd. simpl.
  unfold emitEvent. simpl.
  destruct (eventEmitter s) as [emitted|] eqn:He;
    eexists; (split; [reflexivity |]); unfold published; simpl; rewrite ?He;
    repeat split.
Qed.

(** X1. [cancelDeployment], called while a deployment is in flight,
    marks it [failed], stamps [finishedAt] with the current time and sets
    its error to "Deployment cancelled by user", everything else in the
    result being kept; it publishes one [deployment_failed] event, whose
    error reads "Cancelled by user" and which carries no result; after
    it the service is no longer running, and nothing else has changed. *)
Theorem cancelDeployment_marks_failed s d :
  currentDeployment s = Some d ->
  in_flight (DeploymentResult.status d) = true ->
  exists s',
    cancelDeployment s = (Ok tt, s') /\
    currentDeployment s' =
      Some (aborted d (clock s) "Deployment cancelled by user") /\
    DeploymentResult.buildResults (aborted d (clock s) "Deployment cancelled by user")
      = DeploymentResult.buildResults d /\
    DeploymentResult.deployResults (aborted d (clock s) "Deployment cancelled by user")
      = DeploymentResult.deployResults d /\
    published (cancelled_event d (clock s)) s s' /\
    isDeploymentRunning s' = (Ok false, s') /\
    same_world s s' /\ clock s' = clock s.
Proof.
  intros Hd Hf.
  destruct (cancel_in_flight s d Hd Hf) as (s' & Hrun & Hd' & Hp & W & L & _).
  exists s'. split; [exact Hrun |]. split; [exact Hd' |].
  split; [reflexivity |]. split; [reflexivity |]. split; [exact Hp |].
  split; [| split; [exact W | exact L]].
  unfold isDeploymentRunning, running. now rewrite Hd'.
Qed.

(** X1, witness: the deployment in flight of [busy] is cancelled. *)
Lemma cancelDeployment_marks_failed_witness :
  exists s',
    cancelDeployment busy = (Ok tt, s') /\
    option_map DeploymentResult.status (currentDeployment s') =
      Some DeploymentStatus.failed.
Proof.
  destruct (cancelDeployment_marks_failed busy _ eq_refl eq_refl)
    as (s' & Hrun & Hd & _).
  exists s'. split; [exact Hrun |]. now rewrite Hd.
Defined.

(** X2. A second [cancelDeployment] does nothing: whatever the state,
    after one cancellation the service is not running and another
    cancellation returns without changing anything or publishing
    anything.  The same holds of any state in which nothing is
    running. *)
Theorem cancelDeployment_idempotent s :
  exists s1,
    cancelDeployment s = (Ok tt, s1) /\
    running s1 = false /\
    cancelDeployment s1 = (Ok tt, s1) /\
    (running s = false -> s1 = s).
Proof.
  destruct (currentDeployment s) as [d|] eqn:Hd.
  - destruct (in_flight (DeploymentResult.status d)) eqn:Hf.
    + destruct (cancel_in_flight s d Hd Hf) as (s1 & Hrun & Hd1 & _).
      exists s1. split; [exact Hrun |].
      assert (Hr1 : running s1 = false) by (unfold running; now rewrite Hd1).
      split; [exact Hr1 |]. split; [now apply cancelDeployment_idle |].
      unfold running. rewrite Hd, Hf. discriminate.
    + assert (Hr : running s = false) by (unfold running; now rewrite Hd).
      exists s. rewrite (cancelDeployment_idle s Hr). auto.
  - assert (Hr : running s = false) by (unfold running; now rewrite Hd).
    exists s. rewrite (cancelDeployment_idle s Hr). auto.
Qed.

Section AfterRun.

Variable E : Env.

(** A call of [deploy] made while nothing is running returns the
    deployment it has created, finished one way or the other. *)
Lemma deploy_run projectPath trigger featureIds s :
  running s = false ->
  exists d s' s0,
    deploy E projectPath trigger featureIds s = (Ok (Some d), s') /\
    currentDeployment s' = Some d /\
    in_flight (DeploymentResult.status d) = false /\
    idles s s0 /\
    DeploymentResult.id d = DeploymentResult.id (created E trigger featureIds s0).
Proof.
  intros Hidle.
  destruct (deploy_starts E projectPath trigger featureIds s Hidle)
    as (config & s0 & s1 & Hget & Hi & Hd1 & Hp1 & Hc1 & L1 & Hdeploy).
  destruct (attempt_run E projectPath config s1 _ Hd1)
    as (s' & d' & sb & db & rb & cb & Hrun & Hd' & Cb & Hdb & _ & _ & _ & _ & _
        & Hcases).
  exists d', s', s0. rewrite (Hdeploy s' Hrun), Hd'.
  split; [reflexivity |]. split; [reflexivity |].
  assert (Hidb : DeploymentResult.id db =
                 DeploymentResult.id (created E trigger featureIds s0)).
  { destruct Cb as [Hk _]. now rewrite Hd1, Hdb in Hk. }
  destruct (first_abort E (length (children s1))
              (DeploymentConfig.buildSteps config)) as [step|].
  - destruct Hcases as (-> & _).
    split; [reflexivity |]. split; [exact Hi | exact Hidb].
  - destruct Hcases as (sd & sm & dm & rd & cd & extra & _ & Hdd & _ & Cm & Hdm
                        & _ & _ & _ & _ & _ & _ & _ & (Hend & _)).
    assert (Hidm : DeploymentResult.id dm = DeploymentResult.id db).
    { destruct Cm as [Hk _]. now rewrite Hdd, Hdm in Hk. }
    destruct Hend as [(message & -> & _) | (_ & -> & _)];
      (split; [reflexivity |]); (split; [exact Hi |]);
      (transitivity (DeploymentResult.id dm); [reflexivity | congruence]).
Qed.

(** X3. Once [deploy] has returned, the service is no longer running:
    [getCurrentDeployment] and [getDeploymentHistory] (whatever the
    project and the limit asked for) give the deployment just returned,
    and a further call of [deploy] is accepted and returns in turn. *)
Theorem deploy_leaves_service_idle projectPath trigger featureIds s :
  running s = false ->
  exists d s',
    deploy E projectPath trigger featureIds s = (Ok (Some d), s') /\
    isDeploymentRunning s' = (Ok false, s') /\
    getCurrentDeployment s' = (Ok (Some d), s') /\
    (forall projectPath' limit,
        getDeploymentHistory projectPath' limit s' = (Ok [d], s')) /\
    (forall projectPath' trigger' featureIds',
        exists d2 s2,
          deploy E projectPath' trigger' featureIds' s' = (Ok (Some d2), s2)).
Proof.
  intros Hidle.
  destruct (deploy_run projectPath trigger featureIds s Hidle)
    as (d & s' & s0 & Hrun & Hd & Hf & _).
  assert (Hidle' : running s' = false) by (unfold running; now rewrite Hd).
  exists d, s'. split; [exact Hrun |].
  split; [unfold isDeploymentRunning; now rewrite Hidle' |].
  split; [unfold getCurrentDeployment; now rewrite Hd |].
  split.
  - intros projectPath' limit. unfold getDeploymentHistory, getCurrentDeployment.
    cbv beta iota zeta delta [mbind M_bind bind ret]. now rewrite Hd.
  - intros projectPath' trigger' featureIds'.
    destruct (deploy_run projectPath' trigger' featureIds' s' Hidle')
      as (d2 & s2 & _ & Hrun2 & _).
    eauto.
Qed.

End AfterRun.

(** X3, witness: a deployment in a project with nothing configured. *)
Lemma deploy_leaves_service_idle_witness :
  exists d s',
    deploy silent_world project manual None fresh = (Ok (Some d), s') /\
    isDeploymentRunning s' = (Ok false, s').
Proof.
  destruct (deploy_leaves_service_idle silent_world project manual None fresh
              eq_refl) as (d & s' & Hrun & Hidle & _).
  exists d, s'. now split.
Defined.

(* ================================================================== *)
(** * Beyond the round trip: the configuration store *)
(* ================================================================== *)

Section StoreEdges.

Variable E : Env.




(** X5. [hasDeploymentConfig] never throws and changes no file: it
    returns [true] exactly when the configuration path is one the server
    may use and a file exists there. *)
Theorem hasDeploymentConfig_iff projectPath s :
  let path := getDeploymentConfigPath projectPath in
  exists b s',
    hasDeploymentConfig E projectPath s = (Ok b, s') /\
    files s' = files s /\
    (b = true <-> allowed E path = true /\ is_Some (files s !! path)).
Proof.
  intros path. unfold hasDeploymentConfig, secureFs_access, try_catch. fold path.
  cbv beta iota zeta delta [mbind M_bind bind get ret throw].
  destruct (secureFs_guard_run E path s) as (s' & R & ->).
  pose proof (resumes_files _ _ _ R) as Hf.
  destruct (allowed E path) eqn:Ha.
  - rewrite Hf. destruct (files s !! path) as [content|] eqn:Hfile;
      eexists _, s'; (split; [reflexivity |]); (split; [exact Hf |]).
    + split; [eauto | reflexivity].
    + split; [discriminate |]. intros [_ [x Hx]]. discriminate.
  - eexists _, s'. split; [reflexivity |]. split; [exact Hf |].
    split; [discriminate |]. intros [? _]. discriminate.
Qed.

(** X6. After a successful [saveDeploymentConfig], [hasDeploymentConfig]
    returns [true] for the same project. *)
Theorem save_then_has projectPath config s s1 :
  saveDeploymentConfig E projectPath config s = (Ok tt, s1) ->
  exists s2, hasDeploymentConfig E projectPath s1 = (Ok true, s2).
Proof.
  intros Hsave.
  destruct (saveDeploymentConfig_stores _ _ _ _ _ Hsave) as (Hfile & Hallowed).
  unfold hasDeploymentConfig, secureFs_access, try_catch.
  cbv beta iota zeta delta [mbind M_bind bind get ret throw].
  destruct (secureFs_guard_run E (getDeploymentConfigPath projectPath) s1)
    as (s2 & R & ->).
  rewrite Hallowed, (resumes_files _ _ _ R), Hfile. eauto.
Qed.

(** A successful write leaves the text at [filePath], which is therefore
    a path the server may use. *)
Lemma atomicWriteJson_store filePath data s s1 :
  atomicWriteJson E filePath data s = (Ok tt, s1) ->
  files s1 !! filePath = Some (Json.stringify data) /\
  allowed E filePath = true.
Proof.
  unfold atomicWriteJson. intros H.
  apply bind_ok in H as (now & sb & _ & H).
  apply try_rethrow_ok in H.
  apply bind_ok in H as ([] & sc & Hw & Hr).
  apply secureFs_writeFile_ok in Hw as (s0 & _ & ->).
  apply secureFs_rename_ok in Hr as (Hallowed & s2 & content & R & Hc & ->).
  split; [| exact Hallowed].
  rewrite (resumes_files _ _ _ R) in Hc. simpl in Hc.
  rewrite lookup_insert_eq in Hc. injection Hc as <-.
  simpl. apply lookup_insert_eq.
Qed.


(** X8. What [atomicWriteJson] has written, [readJsonFile] reads back:
    for every value whose objects have each property name once, after a
    successful write to [filePath] reading that path gives the value
    itself and not the default. *)
Theorem write_then_read filePath data defaultValue s s1 :
  wf data ->
  atomicWriteJson E filePath data s = (Ok tt, s1) ->
  exists s2, readJsonFile E filePath defaultValue s1 = (Ok data, s2).
Proof.
  intros W Hwrite.
  destruct (atomicWriteJson_store filePath data s s1 Hwrite) as (Hfile & Hallowed).
  unfold readJsonFile, secureFs_readFile, try_catch.
  cbv beta iota zeta delta [mbind M_bind bind get ret].
  destruct (secureFs_guard_run E filePath s1) as (s2 & R & ->).
  rewrite Hallowed, (resumes_files _ _ _ R), Hfile, (parse_stringify data W).
  eauto.
Qed.

End StoreEdges.

(** X6, witness: the configuration saved in a fresh project is found. *)
Lemma save_then_has_witness :
  exists s2,
    hasDeploymentConfig silent_world project
      (snd (saveDeploymentConfig silent_world project full_config fresh)) =
    (Ok true, s2).
Proof.
  apply (save_then_has silent_world project full_config fresh).
  vm_compute. reflexivity.
Defined.

(** A small document. *)
Definition meta_document : Json.t :=
  Json.Obj [("name", Json.Str "app"); ("ports", Json.Arr [Json.Num 80])].

(** X8, witness: a small document written and read back. *)
Lemma write_then_read_witness :
  exists s2,
    readJsonFile silent_world "/srv/app/meta.json" Json.Null
      (snd (atomicWriteJson silent_world "/srv/app/meta.json" meta_document fresh)) =
    (Ok meta_document, s2).
Proof.
  apply (write_then_read silent_world "/srv/app/meta.json" meta_document
           Json.Null fresh).
  - split; [| simpl; auto].
    apply NoDup_cons_2; [| apply NoDup_singleton].
    rewrite not_elem_of_cons. split; [discriminate | apply not_elem_of_nil].
  - vm_compute. reflexivity.
Defined.

(* ================================================================== *)
(** * Deployment identifiers *)
(* ================================================================== *)

Section Identifiers.

(** The value of a digit of [toString(36)]. *)
Definition value36 (c : ascii) : Z :=
  let n := Z.of_nat (nat_of_ascii c) in
  if n <? 58 then n - 48 else n - 87.

(** Reading a numeral in base 36, most significant digit first. *)
Fixpoint parse36 (acc : Z) (s : string) : Z :=
  match s with
  | EmptyString => acc
  | String c s' => parse36 (acc * 36 + value36 c) s'
  end.

Fixpoint plain (s : string) : bool :=
  match s with
  | EmptyString => true
  | String c s' => negb (Ascii.eqb c "_") && plain s'
  end.

Lemma digit36_spec d :
  0 <= d < 36 ->
  value36 (Js.digit36 d) = d /\
  Ascii.eqb (Js.digit36 d) "_" = false /\ Ascii.eqb (Js.digit36 d) "-" = false.
Proof.
  intros Hd.
  assert (H : exists k, (k < 36)%nat /\ d = Z.of_nat k)
    by (exists (Z.to_nat d); lia).
  destruct H as (k & Hk & ->). clear Hd.
  do 36 (destruct k as [|k]; [now vm_compute |]). lia.
Qed.

Lemma to_radix36_parse fuel :
  forall n acc a,
    0 <= n < 36 ^ Z.of_nat fuel ->
    exists k, 0 <= k /\
      parse36 a (Js.to_radix36 fuel n acc) = parse36 (a * 36 ^ k + n) acc.
Proof.
  induction fuel as [|fuel IH]; intros n acc a Hn.
  - exists 0. simpl in *. split; [lia |]. f_equal. lia.
  - cbn [Js.to_radix36]. cbv zeta.
    assert (Hd : 0 <= n mod 36 < 36) by (apply Z.mod_pos_bound; lia).
    destruct (digit36_spec _ Hd) as (Hv & _).
    destruct (n / 36 =? 0) eqn:Hq.
    + apply Z.eqb_eq in Hq. exists 1. split; [lia |]. simpl parse36. rewrite Hv.
      f_equal. pose proof (Z.div_mod n 36 ltac:(lia)) as Hdm.
      rewrite Hq in Hdm. rewrite Z.pow_1_r. lia.
    + apply Z.eqb_neq in Hq.
      destruct (IH (n / 36) (String (Js.digit36 (n mod 36)) acc) a) as (k & Hk & ->).
      { split; [apply Z.div_pos; lia |].
        apply Z.div_lt_upper_bound; [lia |].
        rewrite Nat2Z.inj_succ, Z.pow_succ_r in Hn by lia. lia. }
      exists (k + 1). split; [lia |]. simpl parse36. rewrite Hv. f_equal.
      pose proof (Z.div_mod n 36 ltac:(lia)) as Hdm.
      rewrite Z.pow_add_r, Z.pow_1_r by lia. lia.
Qed.

Lemma to_radix36_plain fuel :
  forall n acc, 0 <= n -> plain acc = true -> plain (Js.to_radix36 fuel n acc) = true.
Proof.
  induction fuel as [|fuel IH]; intros n acc Hn Hacc; [exact Hacc |].
  cbn [Js.to_radix36]. cbv zeta.
  assert (Hd : 0 <= n mod 36 < 36) by (apply Z.mod_pos_bound; lia).
  destruct (digit36_spec _ Hd) as (_ & Hu & _).
  assert (Hacc' : plain (String (Js.digit36 (n mod 36)) acc) = true)
    by (simpl; now rewrite Hu).
  destruct (n / 36 =? 0); [exact Hacc' |].
  apply IH; [apply Z.div_pos; lia | exact Hacc'].
Qed.

Lemma to_radix36_head fuel :
  forall n acc,
    0 <= n ->
    exists d tail,
      0 <= d < 36 /\ Js.to_radix36 (S fuel) n acc = String (Js.digit36 d) tail.
Proof.
  induction fuel as [|fuel IH]; intros n acc Hn;
    assert (Hd : 0 <= n mod 36 < 36) by (apply Z.mod_pos_bound; lia).
  - exists (n mod 36), acc. split; [exact Hd |]. simpl. now destruct (n / 36 =? 0).
  - change (Js.to_radix36 (S (S fuel)) n acc) with
      (if n / 36 =? 0 then String (Js.digit36 (n mod 36)) acc
       else Js.to_radix36 (S fuel) (n / 36) (String (Js.digit36 (n mod 36)) acc)).
    destruct (n / 36 =? 0); [eauto |].
    apply IH. apply Z.div_pos; lia.
Qed.

(** The digits of a natural number. *)
Definition digits36 (m : Z) : string :=
  Js.to_radix36 (S (Z.to_nat (Z.log2 m))) m "".

Lemma toString36_unfold n :
  Js.toString36 n = if n <? 0 then String "-" (digits36 (- n)) else digits36 n.
Proof. reflexivity. Qed.

Lemma enough_fuel m : 0 <= m -> m < 36 ^ Z.of_nat (S (Z.to_nat (Z.log2 m))).
Proof.
  intros Hm. rewrite Nat2Z.inj_succ, Z2Nat.id by apply Z.log2_nonneg.
  destruct (Z.eq_dec m 0) as [-> | Hne]; [reflexivity |].
  destruct (Z.log2_spec m) as [_ Hlt]; [lia |].
  eapply Z.lt_le_trans; [exact Hlt |].
  apply Z.pow_le_mono_l. pose proof (Z.log2_nonneg m). lia.
Qed.

Lemma parse36_digits36 m : 0 <= m -> parse36 0 (digits36 m) = m.
Proof.
  intros Hm. unfold digits36.
  destruct (to_radix36_parse _ m "" 0 (conj Hm (enough_fuel m Hm))) as (k & _ & ->).
  simpl. lia.
Qed.

Lemma digits36_inj m n : 0 <= m -> 0 <= n -> digits36 m = digits36 n -> m = n.
Proof.
  intros Hm Hn H. rewrite <- (parse36_digits36 m Hm), <- (parse36_digits36 n Hn).
  now rewrite H.
Qed.

Lemma digits36_no_sign m tail : 0 <= m -> digits36 m <> String "-" tail.
Proof.
  intros Hm H. unfold digits36 in H.
  destruct (to_radix36_head (Z.to_nat (Z.log2 m)) m "" Hm) as (d & t & Hd & Heq).
  rewrite Heq in H. injection H as Hc _.
  destruct (digit36_spec d Hd) as (_ & _ & Hs).
  rewrite Hc in Hs. discriminate.
Qed.

(** [toString(36)] writes different integers differently. *)
Lemma toString36_inj m n : Js.toString36 m = Js.toString36 n -> m = n.
Proof.
  rewrite !toString36_unfold.
  destruct (Z.ltb_spec m 0) as [Hm|Hm], (Z.ltb_spec n 0) as [Hn|Hn]; intros H.
  - injection H as H'. apply digits36_inj in H'; lia.
  - symmetry in H. now apply digits36_no_sign in H.
  - now apply digits36_no_sign in H.
  - now apply digits36_inj.
Qed.

Lemma toString36_plain n : plain (Js.toString36 n) = true.
Proof.
  rewrite toString36_unfold. unfold digits36.
  destruct (Z.ltb_spec n 0) as [Hn|Hn];
    [change (plain (String "-" ?x)) with (plain x) |];
    apply to_radix36_plain; auto; lia.
Qed.

(** Two texts with no underscore, each followed by an underscore and a
    suffix: if the wholes are equal, so are the parts. *)
Lemma split_at_underscore a b r t :
  plain a = true -> plain b = true ->
  a +:+ String "_" r = b +:+ String "_" t -> a = b /\ r = t.
Proof.
  revert b. induction a as [|c a IH]; intros [|c' b] Ha Hb H;
    rewrite ?append_nil_l, ?append_cons in H.
  - injection H as ->. now split.
  - injection H as <- _. simpl in Hb. discriminate.
  - injection H as -> _. simpl in Ha. discriminate.
  - injection H as <- H. simpl in Ha, Hb.
    apply andb_true_iff in Ha as [_ Ha]. apply andb_true_iff in Hb as [_ Hb].
    destruct (IH b Ha Hb H) as [-> ->]. now split.
Qed.

(** X9. [generateDeploymentId] always returns an identifier of the form
    [deploy_<time in base 36>_<random part>], and two identifiers are
    equal only if they were generated at the same millisecond with the
    same random part: identifiers generated at different instants
    differ, whatever [Math.random] gave. *)
Theorem generateDeploymentId_distinct E1 E2 s1 s2 :
  exists id1 id2 s1' s2',
    generateDeploymentId E1 s1 = (Ok id1, s1') /\
    generateDeploymentId E2 s2 = (Ok id2, s2') /\
    id1 = "deploy_" +:+ Js.toString36 (clock s1) +:+ "_" +:+
          random E1 (randoms s1) /\
    (id1 = id2 ->
     clock s1 = clock s2 /\ random E1 (randoms s1) = random E2 (randoms s2)) /\
    (clock s1 <> clock s2 -> id1 <> id2).
Proof.
  eexists _, _, _, _. split; [reflexivity |]. split; [reflexivity |].
  split; [reflexivity |].
  assert (Hinj : forall r1 r2,
             "deploy_" +:+ Js.toString36 (clock s1) +:+ "_" +:+ r1 =
             "deploy_" +:+ Js.toString36 (clock s2) +:+ "_" +:+ r2 ->
             clock s1 = clock s2 /\ r1 = r2).
  { intros r1 r2 H.
    change ("deploy_" +:+ ?x) with
      (String "d" (String "e" (String "p" (String "l" (String "o"
         (String "y" (String "_" x))))))) in H.
    injection H as H.
    change ("_" +:+ ?x) with (String "_" x) in H.
    apply split_at_underscore in H as [H ->]; try apply toString36_plain.
    split; [now apply toString36_inj | reflexivity]. }
  split; [apply Hinj |].
  intros Hne Heq. now apply Hinj in Heq.
Qed.

End Identifiers.

(* ================================================================== *)
(** * Runs with nothing to do, and runs that stop after the steps *)
(* ================================================================== *)

Section Outcomes.

Variable E : Env.


(** [deploy], when nothing is in flight, up to the [try] block: what
    [deploy_starts] says, and that the world is as the reading of the
    configuration left it. *)
Lemma deploy_begins projectPath trigger featureIds s :
  running s = false ->
  exists config s0 s1,
    getDeploymentConfig E projectPath s = (Ok config, s0) /\
    idles s s0 /\
    currentDeployment s1 = Some (created E trigger featureIds s0) /\
    published (building_event (created E trigger featureIds s0) (clock s0)) s0 s1 /\
    children s1 = children s0 /\ fetches s1 = fetches s0 /\
    files s1 = files s0 /\ clock s1 = clock s0 /\
    forall s',
      try_catch (pipeline E projectPath config) on_failure s1 = (Ok tt, s') ->
      deploy E projectPath trigger featureIds s = (Ok (currentDeployment s'), s').
Proof.
  intros Hidle.
  destruct (getDeploymentConfig_idle E projectPath s Hidle)
    as (config & s0 & Hget & Hi).
  set (d0 := created E trigger featureIds s0).
  set (sa := with_currentDeployment (Some d0) (with_randoms (S (randoms s0)) s0)).
  destruct (emitEvent_current DeploymentEventType.deployment_started
              (Some (EventData.of_status "building")) sa d0 eq_refl)
    as (s1 & Hemit & Hd1 & Hp & (F & Ch & Ft & R) & L & _).
  exists config, s0, s1.
  split; [exact Hget |]. split; [exact Hi |]. split; [exact Hd1 |].
  split; [exact Hp |]. split; [exact Ch |]. split; [exact Ft |].
  split; [exact F |]. split; [exact L |].
  intros s' Hrun.
  unfold deploy, isDeploymentRunning, generateDeploymentId, random_suffix,
    getCurrentDeployment.
  cbv beta iota zeta delta [mbind M_bind bind get modify ret Date_now].
  rewrite Hidle, Hget.
  change (with_currentDeployment _ (with_randoms _ s0)) with sa.
  now rewrite Hemit, Hrun.
Qed.

(** When no step aborts, the pipeline comes to the health check with
    one child spawned per step and nothing else done to the world. *)
Lemma passing_steps_run projectPath config s1 d1 :
  currentDeployment s1 = Some d1 ->
  let n := length (children s1) in
  let build := DeploymentConfig.buildSteps config in
  let deploy_steps := DeploymentConfig.deploySteps config in
  all_pass E n build ->
  all_pass E (n + length build) deploy_steps ->
  exists sd dd cs,
    pipeline E projectPath config s1 = after_deploy E projectPath config sd /\
    currentDeployment sd = Some dd /\
    DeploymentResult.id dd = DeploymentResult.id d1 /\
    children sd = children s1 ++ cs /\
    map shellArgs cs = map (shell_args E) (build ++ deploy_steps) /\
    fetches sd = fetches s1 /\ files sd = files s1 /\ clock s1 <= clock sd.
Proof.
  intros Hd1 n build deploy_steps Hb Hd.
  rewrite pipeline_phases. unfold after_build.
  cbv beta iota zeta delta [mbind M_bind bind].
  destruct (run_steps_run E projectPath StepType.build build s1 d1 Hd1)
    as (rb & sb & db & cb & Hrun & _ & Hdb & _ & _ & Hcb & Hargs & Cb & Fb & Ftb
        & _ & Lb).
  fold n in Hrun, Hargs. destruct (executed_all E n build Hb) as [Hex Hfa].
  rewrite Hfa in Hrun. rewrite Hex in Hargs. fold build. rewrite Hrun.
  rewrite (update_current_run _ _ _ Hdb).
  set (dc := DeploymentResult.set_status DeploymentStatus.deploying db).
  set (sc := with_currentDeployment (Some dc) sb).
  destruct (emitEvent_current DeploymentEventType.deployment_started
              (Some (EventData.of_status "deploying")) sc dc eq_refl)
    as (se & -> & Hde & _ & (Fe & Ce & Fte & _) & Le & _).
  destruct (run_steps_run E projectPath StepType.deploy deploy_steps se dc Hde)
    as (rd & sd & dd & cd & Hrun2 & _ & Hdd & _ & _ & Hcd & Hargs2 & Cd & Fd & Ftd
        & _ & Ld).
  assert (Hlen : length (children se) = (n + length build)%nat).
  { rewrite Ce. unfold sc. simpl. rewrite Hcb, length_app.
    apply (f_equal (@length _)) in Hargs. rewrite !length_map in Hargs.
    unfold n. lia. }
  rewrite Hlen in Hrun2, Hargs2.
  destruct (executed_all E _ deploy_steps Hd) as [Hex2 Hfa2].
  rewrite Hfa2 in Hrun2. rewrite Hex2 in Hargs2. fold deploy_steps. rewrite Hrun2.
  exists sd, dd, (cb ++ cd).
  split; [reflexivity |]. split; [exact Hdd |].
  split.
  { destruct Cb as [Kb _]. rewrite Hd1, Hdb in Kb.
    destruct Cd as [Kd _]. rewrite Hde, Hdd in Kd.
    unfold keeps_id in *. rewrite Kd. unfold dc. simpl. exact Kb. }
  split; [rewrite Hcd, Ce; unfold sc; simpl; rewrite Hcb, app_assoc; reflexivity |].
  split; [rewrite !map_app; congruence |].
  unfold sc in *; simpl in *. repeat split; try congruence. lia.
Qed.

(** The message of a failed health check. *)
Definition health_failed (url : string) : string :=
  "Health check failed: " +:+ url +:+ " not available".

(** The health check, when one is configured. *)
Lemma health_phase_outcome config url s d :
  currentDeployment s = Some d ->
  DeploymentConfig.healthCheckUrl config = Some url -> url <> "" ->
  exists (b : bool) s' issued dh,
    health_phase E config s =
      (if b then Ok tt else Throw (health_failed url), s') /\
    (b = true <->
     exists j, (j < length issued)%nat /\ answered E (length (fetches s) + j)) /\
    fetches s' = fetches s ++ issued /\
    Forall (fun ut => fst ut = url) issued /\
    currentDeployment s' = Some dh /\
    DeploymentResult.id dh = DeploymentResult.id d /\
    children s' = children s /\ files s' = files s /\ clock s <= clock s'.
Proof.
  intros Hd Hurl Hne. unfold health_phase. rewrite Hurl.
  assert (Htruthy : Js.truthy_opt (Some url) = true).
  { simpl. unfold Js.truthy. destruct (String.eqb_spec url ""); [contradiction | reflexivity]. }
  rewrite Htruthy. cbv beta iota zeta delta [mbind M_bind bind].
  change (default "" (Some url)) with url.
  rewrite (update_current_run _ _ _ Hd).
  set (d1 := DeploymentResult.set_status DeploymentStatus.waiting_for_health d).
  set (s1 := with_currentDeployment (Some d1) s).
  destruct (emitEvent_current DeploymentEventType.health_check_started
              (Some (EventData.of_status "waiting")) s1 d1 eq_refl)
    as (s2 & -> & Hd2 & _ & (F2 & C2 & Ft2 & _) & L2 & _).
  destruct (waitForUrl_run E url
              (Js.num_or (DeploymentConfig.healthCheckTimeout config) 30000)
              2000 s2)
    as (b & s3 & issued & -> & Hf3 & Hall & _ & Hb & _ & C3 & F3 & Ch3 & _ & L3).
  destruct (carries_current _ _ _ _ _ C3 Hd2) as (d3 & Hd3 & (K3 & _)).
  match goal with
  | |- context [emitEvent ?t ?x s3] =>
      destruct (emitEvent_current t x s3 d3 Hd3)
        as (s4 & -> & Hd4 & _ & (F4 & C4 & Ft4 & _) & L4 & _)
  end.
  exists b, s4, issued, d3.
  split; [now destruct b |].
  split; [rewrite Hb, Ft2; reflexivity |].
  split; [rewrite Ft4, Hf3, Ft2; reflexivity |].
  split; [eapply Forall_impl; [exact Hall |]; now intros ut (? & _) |].
  split; [exact Hd4 |]. split; [rewrite K3; reflexivity |].
  unfold s1 in *; simpl in *. repeat split; try congruence; lia.
Qed.

(** X11. When no step aborts and no probe of the health-check URL is
    answered with a status below 500, the deployment fails with the
    error "Health check failed: <url> not available": the commands run
    are those of the build steps and of the deploy steps and no other
    (the E2E tests are not run), and every probe went to that URL. *)
Theorem failed_health_check_fails_deployment
    projectPath trigger featureIds s config s0 url :
  running s = false ->
  getDeploymentConfig E projectPath s = (Ok config, s0) ->
  let n := length (children s) in
  let build := DeploymentConfig.buildSteps config in
  let deploy_steps := DeploymentConfig.deploySteps config in
  all_pass E n build ->
  all_pass E (n + length build) deploy_steps ->
  DeploymentConfig.healthCheckUrl config = Some url -> url <> "" ->
  (forall j, ~ answered E (length (fetches s) + j)) ->
  exists d s' cs issued,
    deploy E projectPath trigger featureIds s = (Ok (Some d), s') /\
    DeploymentResult.status d = DeploymentStatus.failed /\
    DeploymentResult.error d = Some (health_failed url) /\
    children s' = children s ++ cs /\
    map shellArgs cs = map (shell_args E) (build ++ deploy_steps) /\
    fetches s' = fetches s ++ issued /\
    Forall (fun ut => fst ut = url) issued.
Proof.
  intros Hidle Hget n build deploy_steps Hb Hd Hurl Hne Hdown.
  destruct (deploy_begins projectPath trigger featureIds s Hidle)
    as (config' & s0' & s1 & Hget' & Hi & Hd1 & Hp1 & Hc1 & Hf1 & _ & L1 & Hdeploy).
  rewrite Hget in Hget'. injection Hget' as <- <-.
  destruct Hi as (_ & _ & (Hfi & Hci & Hfti & _) & _).
  assert (Hn : length (children s1) = n) by (unfold n; congruence).
  destruct (passing_steps_run projectPath config s1 _ Hd1)
    as (sd & dd & cs & Hpipe & Hdd & _ & Hcs & Hargs & Hfd & _ & _);
    [rewrite Hn; exact Hb | rewrite Hn; exact Hd |].
  destruct (health_phase_outcome config url sd dd Hdd Hurl Hne)
    as (b & sh & issued & dh & Hh & Hbiff & Hfh & Hall & Hdh & _ & Hch & _ & _).
  assert (Hft1 : fetches s1 = fetches s) by congruence.
  destruct b.
  { exfalso. destruct (proj1 Hbiff eq_refl) as (j & _ & Hj).
    rewrite Hfd, Hft1 in Hj. exact (Hdown j Hj). }
  destruct (on_failure_aborted (health_failed url) sh dh Hdh)
    as (s' & Hfail & Hd' & _ & (_ & Hc' & Hf' & _) & _).
  exists (aborted dh (clock sh) (health_failed url)), s', cs, issued.
  split.
  { rewrite <- Hd'. apply Hdeploy. unfold try_catch. rewrite Hpipe.
    rewrite after_deploy_phases. cbv beta iota zeta delta [mbind M_bind bind].
    rewrite Hh. exact Hfail. }
  split; [reflexivity |]. split; [reflexivity |].
  split; [rewrite Hc', Hch, Hcs; congruence |].
  split; [exact Hargs |].
  split; [rewrite Hf', Hfh, Hfd, Hft1; reflexivity | exact Hall].
Qed.

(** The time-out [runE2ETests] gives to the test command. *)
Definition e2e_timeout (e2e : E2ETestConfig.t) : Z :=
  Js.num_or (E2ETestConfig.timeout e2e) 600000.

(** [runE2ETests] when there is no URL to wait for: the command is run
    at once. *)
Lemma runE2ETests_direct projectPath config e2e s :
  DeploymentConfig.e2eTests config = Some e2e ->
  Js.truthy_opt (E2ETestConfig.waitForUrl e2e) = false ->
  let value := Exec.value (e2e_timeout e2e) (child_run E (length (children s))) in
  exists s' child,
    runE2ETests E projectPath config s =
      (Ok (e2e_result value (clock s' - clock s)), s') /\
    children s' = children s ++ [child] /\
    shellArgs child =
      (if is_windows E then ["/c"; E2ETestConfig.command e2e]
       else ["-c"; E2ETestConfig.command e2e]) /\
    carries keeps_results (cancel_event E) s s' /\
    files s' = files s /\ fetches s' = fetches s /\ clock s <= clock s'.
Proof.
  intros He Hw value. unfold runE2ETests. rewrite He.
  cbv beta iota zeta delta [mbind M_bind bind Date_now].
  assert (Hret :
            match E2ETestConfig.waitForUrl e2e with
            | Some url =>
                if Js.truthy url
                then waitForUrl E url
                       (Js.num_or (E2ETestConfig.waitTimeout e2e) 60000) 2000
                else ret true
            | None => ret true
            end s = (Ok true, s)).
  { destruct (E2ETestConfig.waitForUrl e2e) as [url|]; [| reflexivity].
    simpl in Hw. now rewrite Hw. }
  rewrite Hret.
  destruct (executeCommand_run E (E2ETestConfig.command e2e)
              (resolve_dir projectPath (E2ETestConfig.workingDirectory e2e))
              (default ∅ (E2ETestConfig.env e2e)) (e2e_timeout e2e) s)
    as (v & s' & Hx & Hv & Hc & C & F & Ft & _ & L).
  fold (e2e_timeout e2e). rewrite Hx.
  assert (Hval : value = v) by (unfold value, Exec.value; now rewrite Hv).
  rewrite Hval. eexists s', _. split; [reflexivity |].
  split; [exact Hc |]. split; [reflexivity |]. auto.
Qed.

(** The E2E phase, when tests are configured with no URL to wait for:
    the result of the test command is recorded, and decides. *)
Lemma e2e_phase_outcome projectPath config e2e s d :
  currentDeployment s = Some d ->
  DeploymentConfig.e2eTests config = Some e2e ->
  Js.truthy_opt (E2ETestConfig.waitForUrl e2e) = false ->
  let value := Exec.value (e2e_timeout e2e) (child_run E (length (children s))) in
  exists s' d' child duration,
    e2e_phase E projectPath config s =
      (if Exec.success value then Ok tt else Throw "E2E tests failed", s') /\
    currentDeployment s' = Some d' /\
    DeploymentResult.e2eResult d' = Some (e2e_result value duration) /\
    0 <= duration /\
    DeploymentResult.id d' = DeploymentResult.id d /\
    children s' = children s ++ [child] /\
    shellArgs child =
      (if is_windows E then ["/c"; E2ETestConfig.command e2e]
       else ["-c"; E2ETestConfig.command e2e]) /\
    fetches s' = fetches s.
Proof.
  intros Hd He Hw value. unfold e2e_phase. rewrite He.
  cbv beta iota zeta delta [mbind M_bind bind].
  rewrite (update_current_run _ _ _ Hd).
  set (d1 := DeploymentResult.set_status DeploymentStatus.running_tests d).
  set (s1 := with_currentDeployment (Some d1) s).
  destruct (emitEvent_current DeploymentEventType.e2e_started
              (Some (EventData.of_status "running")) s1 d1 eq_refl)
    as (s2 & -> & Hd2 & _ & (F2 & C2 & Ft2 & _) & L2 & _).
  destruct (runE2ETests_direct projectPath config e2e s2 He Hw)
    as (s3 & child & Hrun & Hc3 & Hargs & C3 & F3 & Ft3 & L3).
  assert (Hch2 : children s2 = children s) by (rewrite C2; reflexivity).
  rewrite Hch2 in Hrun. fold value in Hrun. rewrite Hrun.
  destruct (carries_current _ _ _ _ _ C3 Hd2) as (d3 & Hd3 & (K3 & _)).
  rewrite (update_current_run _ _ _ Hd3).
  set (r := e2e_result value (clock s3 - clock s2)).
  set (d4 := DeploymentResult.set_e2eResult r d3).
  set (s4 := with_currentDeployment (Some d4) s3).
  match goal with
  | |- context [emitEvent ?t ?x s4] =>
      destruct (emitEvent_current t x s4 d4 eq_refl)
        as (s5 & -> & Hd5 & _ & (F5 & C5 & Ft5 & _) & L5 & _)
  end.
  exists s5, d4, child, (clock s3 - clock s2).
  split; [unfold r, e2e_result; simpl; now destruct (Exec.success value) |].
  split; [exact Hd5 |]. split; [reflexivity |]. split; [lia |].
  split; [unfold d4; simpl; rewrite K3; reflexivity |].
  split; [rewrite C5; unfold s4; simpl; rewrite Hc3, Hch2; reflexivity |].
  split; [exact Hargs |].
  rewrite Ft5. unfold s4. simpl. rewrite Ft3, Ft2. reflexivity.
Qed.

(** X12. When no step aborts, no health check is configured and E2E
    tests are configured with no URL to wait for, the test command is
    run once, after the steps, and its result is recorded in
    [e2eResult], counts included; the deployment ends with status
    [success] when the command succeeded, and with status [failed] and
    the error "E2E tests failed" when it did not. *)
Theorem e2e_result_decides_deployment
    projectPath trigger featureIds s config s0 e2e :
  running s = false ->
  getDeploymentConfig E projectPath s = (Ok config, s0) ->
  let n := length (children s) in
  let build := DeploymentConfig.buildSteps config in
  let deploy_steps := DeploymentConfig.deploySteps config in
  all_pass E n build ->
  all_pass E (n + length build) deploy_steps ->
  Js.truthy_opt (DeploymentConfig.healthCheckUrl config) = false ->
  DeploymentConfig.e2eTests config = Some e2e ->
  Js.truthy_opt (E2ETestConfig.waitForUrl e2e) = false ->
  let value :=
    Exec.value (e2e_timeout e2e)
      (child_run E (n + length build + length deploy_steps)) in
  exists d s' cs child duration,
    deploy E projectPath trigger featureIds s = (Ok (Some d), s') /\
    DeploymentResult.e2eResult d = Some (e2e_result value duration) /\
    0 <= duration /\
    DeploymentResult.status d =
      (if Exec.success value then DeploymentStatus.success
       else DeploymentStatus.failed) /\
    (Exec.success value = false ->
     DeploymentResult.error d = Some "E2E tests failed") /\
    children s' = children s ++ cs ++ [child] /\
    map shellArgs cs = map (shell_args E) (build ++ deploy_steps) /\
    shellArgs child =
      (if is_windows E then ["/c"; E2ETestConfig.command e2e]
       else ["-c"; E2ETestConfig.command e2e]) /\
    fetches s' = fetches s.
Proof.
  intros Hidle Hget n build deploy_steps Hb Hd Hh He Hw value.
  destruct (deploy_begins projectPath trigger featureIds s Hidle)
    as (config' & s0' & s1 & Hget' & Hi & Hd1 & Hp1 & Hc1 & Hf1 & _ & L1 & Hdeploy).
  rewrite Hget in Hget'. injection Hget' as <- <-.
  destruct Hi as (_ & _ & (Hfi & Hci & Hfti & _) & _).
  assert (Hn : length (children s1) = n) by (unfold n; congruence).
  destruct (passing_steps_run projectPath config s1 _ Hd1)
    as (sd & dd & cs & Hpipe & Hdd & _ & Hcs & Hargs & Hfd & _ & _);
    [rewrite Hn; exact Hb | rewrite Hn; exact Hd |].
  assert (Hlen : length (children sd) =
                 (n + length build + length deploy_steps)%nat).
  { rewrite Hcs, length_app, Hn.
    apply (f_equal (@length _)) in Hargs.
    rewrite !length_map, length_app in Hargs. fold build deploy_steps in Hargs. lia. }
  destruct (e2e_phase_outcome projectPath config e2e sd dd Hdd He Hw)
    as (se & de & child & duration & Hphase & Hde & Hres & Hdur & _ & Hce & Hca & Hfe).
  rewrite Hlen in Hphase, Hres. fold value in Hphase, Hres.
  assert (Hbody : after_deploy E projectPath config sd =
                  match (if Exec.success value then Ok tt
                         else Throw "E2E tests failed") with
                  | Ok _ => success_phase se
                  | Throw e => (Throw e, se)
                  | Pending => (Pending, se)
                  end).
  { rewrite after_deploy_phases. unfold health_phase. rewrite Hh.
    cbv beta iota zeta delta [mbind M_bind bind ret]. now rewrite Hphase. }
  assert (Hchildren : forall s', children s' = children se ->
                                 children s' = children s ++ cs ++ [child])
    by (intros s' ->; rewrite Hce, Hcs, <- app_assoc; congruence).
  assert (Hfetches : forall s', fetches s' = fetches se -> fetches s' = fetches s)
    by (intros s' ->; congruence).
  destruct (Exec.success value) eqn:Hs.
  - destruct (success_phase_run se de Hde) as (s' & Hok & Hd' & _ & (_ & Hc' & Hf' & _) & _).
    exists (succeeded de (clock se)), s', cs, child, duration.
    split; [rewrite <- Hd'; apply Hdeploy; unfold try_catch;
            now rewrite Hpipe, Hbody, Hok |].
    split; [exact Hres |]. split; [exact Hdur |]. split; [reflexivity |].
    split; [discriminate |]. split; [now apply Hchildren |].
    split; [exact Hargs |]. split; [exact Hca | now apply Hfetches].
  - destruct (on_failure_aborted "E2E tests failed" se de Hde)
      as (s' & Hfail & Hd' & _ & (_ & Hc' & Hf' & _) & _).
    exists (aborted de (clock se) "E2E tests failed"), s', cs, child, duration.
    split; [rewrite <- Hd'; apply Hdeploy; unfold try_catch;
            now rewrite Hpipe, Hbody |].
    split; [exact Hres |]. split; [exact Hdur |]. split; [reflexivity |].
    split; [reflexivity |]. split; [now apply Hchildren |].
    split; [exact Hargs |]. split; [exact Hca | now apply Hfetches].
Qed.

End Outcomes.


(** A configuration with one build step and a health check. *)
Definition health_checked : DeploymentConfig.t :=
  {| DeploymentConfig.version := 1;
     DeploymentConfig.autoDeployOnComplete := false;
     DeploymentConfig.buildSteps := [step "compile" "make"];
     DeploymentConfig.deploySteps := [];
     DeploymentConfig.e2eTests := None;
     DeploymentConfig.healthCheckUrl := Some "http://localhost:3000/health";
     DeploymentConfig.healthCheckTimeout := None |}.

(** Every command exits with code 0; nothing listens on any port. *)
Definition nothing_listens : Env := world_of (fun _ => exits 0) (fun _ => []).

(** X11, witness: the build passes and the application never answers. *)
Lemma failed_health_check_fails_deployment_witness :
  exists d s',
    deploy nothing_listens project manual None (configured health_checked) =
      (Ok (Some d), s') /\
    DeploymentResult.status d = DeploymentStatus.failed /\
    DeploymentResult.error d =
      Some "Health check failed: http://localhost:3000/health not available".
Proof.
  destruct (failed_health_check_fails_deployment nothing_listens project manual
              None (configured health_checked) health_checked
              (snd (getDeploymentConfig nothing_listens project
                      (configured health_checked)))
              "http://localhost:3000/health")
    as (d & s' & cs & issued & Hrun & Hst & Herr & _).
  - reflexivity.
  - vm_compute. reflexivity.
  - split; [vm_compute; reflexivity | exact I].
  - exact I.
  - reflexivity.
  - discriminate.
  - intros j (status & Hresp & _). discriminate.
  - exists d, s'. split; [exact Hrun |]. split; [exact Hst | exact Herr].
Defined.

(** X12, witness: the only thing configured is a test run, which
    fails. *)
Lemma e2e_result_decides_deployment_witness :
  exists d s',
    deploy (world_of (fun _ => failing_tests) (fun _ => [])) project manual None
      (configured e2e_only) = (Ok (Some d), s') /\
    DeploymentResult.status d = DeploymentStatus.failed /\
    DeploymentResult.error d = Some "E2E tests failed" /\
    option_map E2ETestResult.passed (DeploymentResult.e2eResult d) =
      Some (Some 12).
Proof.
  destruct (e2e_result_decides_deployment
              (world_of (fun _ => failing_tests) (fun _ => [])) project manual None
              (configured e2e_only) e2e_only
              (snd (getDeploymentConfig
                      (world_of (fun _ => failing_tests) (fun _ => [])) project
                      (configured e2e_only)))
              (E2ETestConfig.mk "npx playwright test" None None None None None))
    as (d & s' & cs & child & duration & Hrun & Hres & _ & Hst & Herr & _).
  - reflexivity.
  - vm_compute. reflexivity.
  - exact I.
  - exact I.
  - reflexivity.
  - reflexivity.
  - reflexivity.
  - exists d, s'. split; [exact Hrun |]. split; [exact Hst |].
    split; [now apply Herr |]. now rewrite Hres.
Defined.

(* ================================================================== *)
(** * Beyond the result of a command: the child and the step *)
(* ================================================================== *)

Section ChildFacts.

Import Exec.

Variable timeoutMs : Z.

(** X13. The promise of [executeCommand] is settled once and for all:
    whatever the child does, the promise gets a value, and the callbacks
    that run after that (late output, a ['close'] after the time-out, an
    ['error'] after a ['close']) change neither the value nor the time
    it was settled at. *)
Theorem promise_settled_once (run : ChildRun) :
  exists v,
    settled (at_settle timeoutMs run) = Some v /\
    settled (finish timeoutMs run) = Some v /\
    settled_at (finish timeoutMs run) = settled_at (at_settle timeoutMs run).
Proof.
  destruct (at_settle_settled timeoutMs run) as (v & Hv).
  exists v. split; [exact Hv |].
  unfold at_settle, finish in *.
  generalize dependent start. intros c.
  generalize (schedule (Js.timer_delay timeoutMs) run). intros cbs. revert c.
  induction cbs as [|[t cb] cbs IH]; intros c Hv; [now split |].
  unfold run_callbacks in *. simpl in *.
  destruct (settled (handle timeoutMs t cb c)) as [v'|] eqn:Hs.
  - rewrite Hs in Hv. injection Hv as <-.
    apply (run_callbacks_settled timeoutMs cbs _ v' Hs).
  - now apply IH.
Qed.

Lemma stays_disarmed (cbs : list (Z * Callback)) (c : Closure) :
  timer_armed c = false -> timer_armed (run_callbacks timeoutMs cbs c) = false.
Proof.
  revert c. induction cbs as [|[t cb] cbs IH]; intros c H; [exact H |].
  unfold run_callbacks in *. simpl. apply IH. now apply handle_disarmed.
Qed.

(** The child ends, by exiting or by failing to start, before the timer
    is due, after writing [output]. *)
Definition ends_in_time (run output : ChildRun) : Prop :=
  exists t e later,
    run = output ++ (t, e) :: later /\
    is_data e = false /\
    Forall (fun te => is_data (snd te) = true) output /\
    in_time timeoutMs (output ++ [(t, e)]).

(** X14. A child that exits, or fails to start, before the timer is due
    is never sent a signal, neither before the promise is settled nor
    after: its handler clears the timer, which stays cleared. *)
Theorem child_in_time_never_signalled (run output : ChildRun) :
  ends_in_time run output ->
  signals (at_settle timeoutMs run) = [] /\
  signals (finish timeoutMs run) = [] /\
  timer_armed (finish timeoutMs run) = false.
Proof.
  intros (t & e & later & -> & He & Hdata & Htime).
  apply Forall_app in Htime as [Hout Ht]. apply Forall_inv in Ht. simpl in Ht.
  unfold at_settle, finish.
  rewrite (schedule_in_time timeoutMs output _ Hout).
  destruct (waiting_start_outputs timeoutMs output
              (schedule (Js.timer_delay timeoutMs) ((t, e) :: later)) Hdata)
    as (c & -> & -> & (Ha & Hs & Hx & Hn) & _).
  cbn [schedule]. destruct (Z.leb_spec (Js.timer_delay timeoutMs) t); [lia |].
  set (c' := handle timeoutMs t (callback_of e) c).
  assert (Hc' : timer_armed c' = false /\ signals c' = [] /\ settled c' <> None).
  { unfold c'. destruct e; try discriminate; simpl; unfold resolve; simpl;
      rewrite Hn; simpl; repeat split; auto; discriminate. }
  destruct Hc' as (Ha' & Hs' & Hn').
  change (run_callbacks timeoutMs ((t, callback_of e) :: ?cbs) c)
    with (run_callbacks timeoutMs cbs c').
  split.
  - simpl. fold c'. destruct (settled c'); [exact Hs' | contradiction].
  - rewrite (run_callbacks_disarmed timeoutMs _ c' Ha'). split; [exact Hs' |].
    now apply stays_disarmed.
Qed.

End ChildFacts.

(** X14, witness: the test run that exits with code 3 after 40 ms. *)
Lemma child_in_time_never_signalled_witness :
  Exec.signals (Exec.finish 600000 failing_tests) = [].
Proof.
  refine (proj1 (proj2 (child_in_time_never_signalled 600000 failing_tests
                          [(10, Exec.StdoutData "12 passed, 3 failed, 1 skipped");
                           (20, Exec.StderrData "Error: 3 tests failed")] _))).
  exists 40, (Exec.Close (Some 3)), [].
  split; [reflexivity |]. split; [reflexivity |].
  split; [repeat constructor |].
  repeat constructor; reflexivity.
Defined.

Section StepFacts.

Variable E : Env.


End StepFacts.

(* ================================================================== *)
(** * The event emitter *)
(* ================================================================== *)

Section EventFacts.

Import Events.

Variable World : Type.
Variable invoke : Call -> Emitter * World -> option string * (Emitter * World).

Abbreviation EState := (Events.State World).

(** The callbacks subscribed to [e] neither subscribe nor unsubscribe
    anybody when they are called. *)
Definition keep_to_themselves (e : Emitter) : Prop :=
  forall call w,
    callee call ∈ members (subscribers e) ++ members (userAwareSubscribers e) ->
    fst (snd (invoke call (e, w))) = e.

Lemma members_cons entry set :
  members (entry :: set) =
  match entry with
  | Some cb => cb :: members set
  | None => members set
  end.
Proof. now destruct entry. Qed.

Lemma has_members cb set : has cb set = true <-> cb ∈ members set.
Proof.
  induction set as [|entry set IH].
  - split; [discriminate | intros H; inversion H].
  - change (has cb (entry :: set)) with
      (match entry with
       | Some cb' => Nat.eqb cb cb'
       | None => false
       end || has cb set).
    rewrite orb_true_iff, IH, members_cons. destruct entry as [cb'|].
    + rewrite Nat.eqb_eq, elem_of_cons. tauto.
    + split; [intros [? | ?]; [discriminate | assumption] | auto].
Qed.

(** One loop of [emit], when the callbacks keep to themselves. *)
Lemma notify_run (select : Emitter -> CallbackSet) (call : Callback -> Call)
    (complaint : string) (e : Emitter) :
  (forall cb w, cb ∈ members (select e) ->
                fst (snd (invoke (call cb) (e, w))) = e) ->
  forall steps i (s : EState),
    emitter s = e ->
    (length (select e) - i < steps)%nat ->
    exists s' errors,
      notify World invoke steps select call complaint i s = Some s' /\
      emitter s' = e /\
      calls s' = calls s ++ map call (members (drop i (select e))) /\
      logged s' = logged s ++ map (pair complaint) errors /\
      (length errors <= length (members (drop i (select e))))%nat.
Proof.
  intros Hquiet. induction steps as [|steps IH]; intros i s He Hsteps; [lia |].
  cbn [notify]. rewrite He.
  destruct (select e !! i) as [[cb|]|] eqn:Hi.
  - assert (Hcb : cb ∈ members (select e)).
    { apply list_elem_of_omap. exists (Some cb). split; [| reflexivity].
      eapply list_elem_of_lookup_2. exact Hi. }
    pose proof (Hquiet cb (world s) Hcb) as Hq.
    destruct (invoke (call cb) (e, world s)) as [thrown [e' w']]. simpl in Hq.
    subst e'.
    apply lookup_lt_Some in Hi as Hlt.
    edestruct (IH (S i)) as (s' & errors & Hrun & He' & Hcalls & Hlog & Hlen);
      [| | rewrite Hrun]; [reflexivity | lia |].
    rewrite (drop_S _ _ _ Hi), members_cons. simpl in Hcalls, Hlog.
    exists s', (match thrown with Some m => m :: errors | None => errors end).
    split; [reflexivity |]. split; [exact He' |].
    split; [rewrite Hcalls, <- app_assoc; reflexivity |].
    destruct thrown; simpl; (split; [| lia]); rewrite Hlog, <- ?app_assoc;
      reflexivity.
  - apply lookup_lt_Some in Hi as Hlt.
    destruct (IH (S i) s He) as (s' & errors & Hrun & He' & Hcalls & Hlog & Hlen);
      [lia |].
    rewrite (drop_S _ _ _ Hi), members_cons.
    exists s', errors. auto.
  - apply lookup_ge_None in Hi. rewrite drop_ge by lia.
    exists s, []. simpl. rewrite !app_nil_r. auto.
Qed.

(** X16. When the subscribed callbacks keep to themselves, [emit]
    returns, having called every plain subscriber with the type and the
    payload, in the order of their subscription, and then every
    user-aware subscriber with the type, the payload and the payload's
    [targetUser], in the order of theirs, each exactly once, whether or
    not some of them threw: what they throw is logged and never stops
    the others or reaches the caller of [emit]. *)
Theorem emit_notifies_everyone steps type payload (s : EState) :
  keep_to_themselves (emitter s) ->
  (length (subscribers (emitter s)) < steps)%nat ->
  (length (userAwareSubscribers (emitter s)) < steps)%nat ->
  exists s' errors,
    emit World invoke steps type payload s = Some s' /\
    emitter s' = emitter s /\
    calls s' =
      calls s
      ++ map (fun cb => Notify cb type payload)
             (members (subscribers (emitter s)))
      ++ map (fun cb => NotifyUser cb type payload (targetUser_of payload))
             (members (userAwareSubscribers (emitter s))) /\
    logged s' = logged s ++ errors /\
    (length errors <= length (members (subscribers (emitter s)))
                      + length (members (userAwareSubscribers (emitter s))))%nat.
Proof.
  intros Hquiet Hs Hu. unfold emit.
  destruct (notify_run subscribers (fun cb => Notify cb type payload)
              "Error in event subscriber:" (emitter s)) with (steps := steps)
              (i := 0%nat) (s := s)
    as (s1 & errors1 & Hrun1 & He1 & Hcalls1 & Hlog1 & Hlen1);
    [| reflexivity | lia |].
  { intros cb w Hcb. apply Hquiet. simpl. apply elem_of_app. now left. }
  rewrite Hrun1. cbn [mbind option_bind].
  destruct (notify_run userAwareSubscribers
              (fun cb => NotifyUser cb type payload (targetUser_of payload))
              "Error in user-aware event subscriber:" (emitter s))
              with (steps := steps) (i := 0%nat) (s := s1)
    as (s2 & errors2 & Hrun2 & He2 & Hcalls2 & Hlog2 & Hlen2);
    [| exact He1 | lia |].
  { intros cb w Hcb. apply Hquiet. simpl. apply elem_of_app. now right. }
  rewrite Hrun2. rewrite drop_0 in *.
  eexists s2, _. split; [reflexivity |]. split; [exact He2 |].
  split; [rewrite Hcalls2, Hcalls1, <- app_assoc; reflexivity |].
  split; [rewrite Hlog2, Hlog1, <- app_assoc; reflexivity |].
  rewrite length_app, !length_map. lia.
Qed.

Lemma members_app a b : members (a ++ b) = members a ++ members b.
Proof. apply omap_app. Qed.

Lemma members_add cb set :
  members (add cb set) =
  if has cb set then members set else members set ++ [cb].
Proof.
  unfold add. destruct (has cb set); [reflexivity |]. now rewrite members_app.
Qed.

Lemma members_delete cb set :
  members (delete cb set) = List.filter (fun cb' => negb (Nat.eqb cb cb')) (members set).
Proof.
  induction set as [|[cb'|] set IH]; [reflexivity | |].
  - change (delete cb (Some cb' :: set)) with
      ((if Nat.eqb cb cb' then None else Some cb') :: delete cb set).
    rewrite !members_cons. cbn [List.filter].
    destruct (Nat.eqb cb cb'); simpl; now rewrite <- IH.
  - change (delete cb (None :: set)) with (None :: delete cb set).
    now rewrite !members_cons.
Qed.

Lemma delete_delete cb set : delete cb (delete cb set) = delete cb set.
Proof.
  unfold delete. rewrite map_map. apply map_ext. intros [cb'|]; [| reflexivity].
  destruct (Nat.eqb cb cb') eqn:H; [reflexivity |]. now rewrite H.
Qed.

(** X17. [subscribe] adds the callback to the set unless it is there
    already, so that a callback subscribed twice is called once; the
    function it returns removes the callback from the set, whichever
    call of [subscribe] it came from: after it the callback is no longer
    subscribed, even if it had been subscribed before, the others are
    as they were, and calling it again changes nothing.  The user-aware
    subscribers are not touched. *)
Theorem subscribe_then_unsubscribe cb (s : EState) :
  let before := members (subscribers (emitter s)) in
  let unsubscribe := fst (subscribe World cb s) in
  let s1 := snd (subscribe World cb s) in
  NoDup before ->
  members (subscribers (emitter s1)) =
    (if bool_decide (cb ∈ before) then before else before ++ [cb]) /\
  NoDup (members (subscribers (emitter s1))) /\
  members (subscribers (emitter (unsubscribe s1))) =
    List.filter (fun cb' => negb (Nat.eqb cb cb')) before /\
  (cb ∉ members (subscribers (emitter (unsubscribe s1)))) /\
  NoDup (members (subscribers (emitter (unsubscribe s1)))) /\
  unsubscribe (unsubscribe s1) = unsubscribe s1 /\
  userAwareSubscribers (emitter s1) = userAwareSubscribers (emitter s) /\
  userAwareSubscribers (emitter (unsubscribe s1)) =
    userAwareSubscribers (emitter s).
Proof.
  intros before unsubscribe s1 Hnd. unfold unsubscribe, s1. simpl.
  fold before. rewrite members_add.
  assert (Hadd : (if has cb (subscribers (emitter s))
                  then members (subscribers (emitter s))
                  else members (subscribers (emitter s)) ++ [cb]) =
                 (if bool_decide (cb ∈ before) then before else before ++ [cb])).
  { destruct (has cb (subscribers (emitter s))) eqn:Hh.
    - apply has_members in Hh. now rewrite bool_decide_eq_true_2.
    - rewrite bool_decide_eq_false_2; [reflexivity |].
      intros Hin. apply has_members in Hin. congruence. }
  rewrite Hadd.
  assert (Hnd1 : NoDup (if bool_decide (cb ∈ before) then before
                        else before ++ [cb])).
  { destruct (bool_decide (cb ∈ before)) eqn:Hb; [exact Hnd |].
    apply bool_decide_eq_false in Hb. apply NoDup_app.
    split; [exact Hnd |]. split; [| apply NoDup_singleton].
    intros x Hx Hx'. apply list_elem_of_singleton in Hx'. now subst. }
  assert (Hfilter :
            members (delete cb (add cb (subscribers (emitter s)))) =
            List.filter (fun cb' => negb (Nat.eqb cb cb')) before).
  { rewrite members_delete, members_add, Hadd.
    destruct (bool_decide (cb ∈ before)); [reflexivity |].
    rewrite List.filter_app. simpl. rewrite Nat.eqb_refl. simpl.
    now rewrite app_nil_r. }
  split; [reflexivity |]. split; [exact Hnd1 |].
  rewrite Hfilter.
  split; [reflexivity |].
  split.
  { intros Hin. apply list_elem_of_In, List.filter_In in Hin as [_ Hin].
    now rewrite Nat.eqb_refl in Hin. }
  split.
  { apply NoDup_ListNoDup, List.NoDup_filter, NoDup_ListNoDup. exact Hnd. }
  split; [| now split].
  unfold Events.unsubscribe, with_emitter. simpl. now rewrite delete_delete.
Qed.

End EventFacts.

(** A callback that throws whenever it is called, among others that do
    not; none of them touches the emitter. *)
Definition second_throws (call : Events.Call) (st : Events.Emitter * unit)
  : option string * (Events.Emitter * unit) :=
  (if Nat.eqb (Events.callee call) 2 then Some "socket closed" else None, st).

(** Three plain subscribers, the first of which has unsubscribed and
    subscribed again, and one user-aware subscriber. *)
Definition some_subscribers : Events.State unit :=
  Events.mkState
    (Events.mkEmitter [None; Some 2; Some 3; Some 1]%nat [Some 4]%nat) tt [] [].

(** X16, witness: the second subscriber throws; all four are called. *)
Lemma emit_notifies_everyone_witness :
  exists s',
    Events.emit unit second_throws 5 "deployment_event"
      (Json.Obj [("targetUser", Json.Str "ann")]) some_subscribers = Some s' /\
    map Events.callee (Events.calls s') = [2; 3; 1; 4]%nat /\
    length (Events.logged s') = 1%nat.
Proof.
  destruct (emit_notifies_everyone unit second_throws 5 "deployment_event"
              (Json.Obj [("targetUser", Json.Str "ann")]) some_subscribers)
    as (s' & errors & Hrun & _ & Hcalls & _).
  - intros call w _. reflexivity.
  - simpl. lia.
  - simpl. lia.
  - exists s'. split; [exact Hrun |]. rewrite Hcalls.
    split; [reflexivity |].
    vm_compute in Hrun. injection Hrun as <-. reflexivity.
Defined.

(** X17, witness: a callback already subscribed subscribes again and
    uses the function it got. *)
Lemma subscribe_then_unsubscribe_witness :
  Events.members
    (Events.subscribers
       (Events.emitter
          (fst (Events.subscribe unit 3%nat some_subscribers)
             (snd (Events.subscribe unit 3%nat some_subscribers))))) = [2; 1]%nat.
Proof.
  destruct (subscribe_then_unsubscribe unit 3%nat some_subscribers)
    as (_ & _ & H & _).
  - simpl.
    repeat (apply NoDup_cons_2;
            [rewrite ?not_elem_of_cons; repeat split; try discriminate;
             apply not_elem_of_nil |]).
    apply NoDup_nil_2.
  - exact H.
Defined.

(* ================================================================== *)
(** * The handlers of [/api/deployment] *)
(* ================================================================== *)

Section RouteFacts.

Variable E : Env.




(** [hasDeploymentConfig] returns. *)
Lemma hasDeploymentConfig_run projectPath s :
  exists b s',
    hasDeploymentConfig E projectPath s = (Ok b, s') /\ resumes E s s' /\
    b = allowed E (getDeploymentConfigPath projectPath)
        && bool_decide (is_Some (files s !! getDeploymentConfigPath projectPath)).
Proof.
  unfold hasDeploymentConfig, secureFs_access, try_catch.
  cbv beta iota zeta delta [mbind M_bind bind get ret throw].
  destruct (secureFs_guard_run E (getDeploymentConfigPath projectPath) s)
    as (s' & R & ->).
  rewrite <- (resumes_files _ _ _ R).
  destruct (allowed E _);
    [| eexists _, s'; split; [reflexivity |]; split; [exact R | reflexivity]].
  destruct (files s' !! _) as [content|]; eexists _, s';
    (split; [reflexivity |]); (split; [exact R |]).
  - symmetry. apply bool_decide_eq_true. eauto.
  - symmetry. apply bool_decide_eq_false. intros [x Hx]. discriminate.
Qed.


(** X19. [POST /cancel] answers 400 "No deployment is running" and
    does nothing when nothing is running; otherwise it answers 200, the
    deployment in flight has been marked failed with the error
    "Deployment cancelled by user", and the service is no longer
    running. *)
Theorem post_cancel_answers s :
  exists r s',
    post_cancel s = (Ok r, s') /\
    running s' = false /\
    (running s = false ->
     r = Http.respond 400 (Http.Failure "No deployment is running") /\ s' = s) /\
    (running s = true ->
     r = Http.respond 200 (Http.Message "Deployment cancelled") /\
     exists d,
       currentDeployment s = Some d /\
       currentDeployment s' =
         Some (aborted d (clock s) "Deployment cancelled by user") /\
       published (cancelled_event d (clock s)) s s').
Proof.
  unfold post_cancel, guarded, try_catch.
  cbv beta iota zeta delta [mbind M_bind bind isDeploymentRunning ret].
  destruct (running s) eqn:Hr; cbn [negb].
  - unfold running in Hr.
    destruct (currentDeployment s) as [d|] eqn:Hd; [| discriminate].
    destruct (cancel_in_flight s d Hd Hr) as (s' & -> & Hd' & Hp & _).
    eexists _, s'. split; [reflexivity |].
    split; [unfold running; now rewrite Hd' |].
    split; [discriminate |]. intros _. split; [reflexivity |]. eauto.
  - eexists _, s. split; [reflexivity |]. split; [exact Hr |].
    split; [now split | discriminate].
Qed.

(** X20. A configuration saved through [POST /config] is the one
    [GET /config] then returns, with [exists: true]: when the first
    answers 200 for a project path and a configuration, the second
    answers 200 with that configuration for the same path. *)
Theorem post_config_then_get_config projectPath config s r s1 :
  Js.truthy projectPath = true ->
  post_config E (Some projectPath) (Some config) s = (Ok r, s1) ->
  Http.status r = 200 ->
  exists s2,
    get_config E (Some projectPath) s1 =
    (Ok (Http.respond 200 (Http.ConfigFound config true)), s2).
Proof.
  intros Hp Hpost H200.
  unfold post_config, guarded, try_catch in Hpost.
  cbn [Js.truthy_opt default] in Hpost. rewrite Hp in Hpost. cbn [negb] in Hpost.
  cbv beta iota zeta delta [mbind M_bind bind ret] in Hpost.
  unfold id in Hpost.
  destruct (saveDeploymentConfig E projectPath config s) as [[[]|message|] sa] eqn:Hsave;
    [| injection Hpost as <- _; discriminate | discriminate].
  injection Hpost as _ <-.
  destruct (saveDeploymentConfig_stores _ _ _ _ _ Hsave) as (Hfile & Hallowed).
  destruct (getDeploymentConfig_reads E projectPath (Document.of_config config) sa
              Hallowed) as (sb & Hget & R);
    [exists (Json.stringify (Document.of_config config));
     split; [exact Hfile | apply serializable_config] |].
  rewrite typed_spread in Hget.
  destruct (hasDeploymentConfig_run projectPath sb) as (b & sc & Hhas & _ & Hb).
  rewrite (resumes_files _ _ _ R), Hfile, Hallowed in Hb. simpl in Hb. subst b.
  exists sc. unfold get_config, guarded, try_catch.
  cbn [Js.truthy_opt default]. rewrite Hp. cbn [negb].
  cbv beta iota zeta delta [mbind M_bind bind ret id from_option].
  now rewrite Hget, Hhas.
Qed.


(** What a 200 from [POST /deploy] means. *)
Lemma post_deploy_started projectPath featureIds s r s' :
  post_deploy E projectPath featureIds s = (Ok r, s') ->
  Http.status r = 200 ->
  exists d,
    r = Http.respond 200
          (Http.Started "Deployment started" (DeploymentResult.id d)) /\
    currentDeployment s' = Some d /\
    in_flight (DeploymentResult.status d) = false.
Proof.
  unfold post_deploy, guarded, try_catch.
  destruct (Js.truthy_opt projectPath); cbn [negb];
    [| intros [= <- _]; discriminate].
  cbv beta iota zeta delta [mbind M_bind bind isDeploymentRunning ret].
  destruct (hasDeploymentConfig_run (default "" projectPath) s)
    as (b & s1 & Hhas & _ & _).
  rewrite Hhas. destruct b; cbn [negb]; [| intros [= <- _]; discriminate].
  destruct (running s1) eqn:Hr; [intros [= <- _]; discriminate |].
  destruct (deploy_run E (default "" projectPath) manual featureIds s1 Hr)
    as (d & s2 & s0 & Hrun & Hd & Hf & _).
  rewrite Hrun. intros [= <- <-] _. exists d. now repeat split.
Qed.

(** X22. Once [POST /deploy] has answered 200 with a deployment
    identifier, [GET /status] answers with the deployment of that
    identifier and [isRunning: false], and [GET /history] answers, for
    every project path and whatever the limit, with that deployment
    alone: the history is the last deployment of the server, of whatever
    project, and nothing of an earlier one.  Neither request changes
    anything. *)
Theorem deployed_then_status_and_history projectPath featureIds s r s' :
  post_deploy E projectPath featureIds s = (Ok r, s') ->
  Http.status r = 200 ->
  exists d,
    r = Http.respond 200
          (Http.Started "Deployment started" (DeploymentResult.id d)) /\
    get_status s' =
      (Ok (Http.respond 200 (Http.Status false (Some d))), s') /\
    forall otherProject limit,
      Js.truthy_opt otherProject = true ->
      get_history otherProject limit s' =
        (Ok (Http.respond 200 (Http.History [d])), s').
Proof.
  intros Hpost H200.
  destruct (post_deploy_started _ _ _ _ _ Hpost H200) as (d & -> & Hd & Hf).
  exists d. split; [reflexivity |]. split.
  - unfold get_status, guarded, try_catch.
    cbv beta iota zeta delta
      [mbind M_bind bind isDeploymentRunning getCurrentDeployment ret running].
    now rewrite Hd, Hf.
  - intros otherProject limit Ht.
    unfold get_history, guarded, try_catch, getDeploymentHistory.
    rewrite Ht. cbn [negb].
    cbv beta iota zeta delta [mbind M_bind bind getCurrentDeployment ret].
    now rewrite Hd.
Qed.

End RouteFacts.

(** X20, witness: a configuration posted for a fresh project. *)
Lemma post_config_then_get_config_witness :
  exists s2,
    get_config silent_world (Some project)
      (snd (post_config silent_world (Some project) (Some full_config) fresh)) =
    (Ok (Http.respond 200 (Http.ConfigFound full_config true)), s2).
Proof.
  apply (post_config_then_get_config silent_world project full_config fresh
           (Http.respond 200 (Http.Message "Deployment config saved"))).
  - reflexivity.
  - vm_compute. reflexivity.
  - reflexivity.
Defined.

(** A project configured with nothing to run. *)
Definition nothing_to_run : State := configured (config_of [] []).

(** X22, witness: a deployment of one project, then the history asked
    for another. *)
Lemma deployed_then_status_and_history_witness :
  exists d,
    get_history (Some "/srv/other") (Some 5)
      (snd (post_deploy silent_world (Some project) None nothing_to_run)) =
    (Ok (Http.respond 200 (Http.History [d])),
     snd (post_deploy silent_world (Some project) None nothing_to_run)) /\
    DeploymentResult.id d = "deploy_loyw3v28_k3x9q1".
Proof.
  destruct (deployed_then_status_and_history silent_world (Some project) None
              nothing_to_run
              (Http.respond 200
                 (Http.Started "Deployment started" "deploy_loyw3v28_k3x9q1"))
              (snd (post_deploy silent_world (Some project) None nothing_to_run)))
    as (d & Hr & _ & Hhistory).
  - vm_compute. reflexivity.
  - reflexivity.
  - exists d. split; [now apply Hhistory |]. now injection Hr.
Defined.

(* ================================================================== *)
(** * The generated configuration *)
(* ================================================================== *)

Section GenerateFacts.

Variable E : Env.

(** What the server can read at [path]. *)
Definition readable (path : string) (s : State) : option string :=
  if allowed E path then files s !! path else None.

(** The document of [package.json], [null] when there is none that can
    be read and parsed. *)
Definition package_of (projectPath : string) (s : State) : Json.t :=
  match readable (Js.path_join projectPath "package.json") s with
  | Some content =>
      match Json.parse content with
      | Some value => value
      | None => Json.Null
      end
  | None => Json.Null
  end.

(** The content of the first of the files [names] that can be read. *)
Fixpoint first_readable (projectPath : string) (names : list string)
    (s : State) : option string :=
  match names with
  | [] => None
  | name :: names =>
      match readable (Js.path_join projectPath name) s with
      | Some content => Some content
      | None => first_readable projectPath names s
      end
  end.

Lemma readable_resumes path s s' :
  resumes E s s' -> readable path s' = readable path s.
Proof. intros R. unfold readable. now rewrite (resumes_files _ _ _ R). Qed.

Lemma first_readable_resumes projectPath names s s' :
  resumes E s s' ->
  first_readable projectPath names s' = first_readable projectPath names s.
Proof.
  intros R. induction names as [|name names IH]; [reflexivity |].
  simpl. now rewrite (readable_resumes _ _ _ R), IH.
Qed.

Lemma secureFs_readFile_run path s :
  exists s',
    resumes E s s' /\
    match readable path s with
    | Some content => secureFs_readFile E path s = (Ok content, s')
    | None => exists message, secureFs_readFile E path s = (Throw message, s')
    end.
Proof.
  unfold secureFs_readFile, readable.
  cbv beta iota zeta delta [mbind M_bind bind get ret throw].
  destruct (secureFs_guard_run E path s) as (s' & R & ->).
  exists s'. split; [exact R |]. rewrite <- (resumes_files _ _ _ R).
  destruct (allowed E path); [| eauto].
  destruct (files s' !! path); eauto.
Qed.

Lemma secureFs_access_run path s :
  exists s',
    resumes E s s' /\
    match readable path s with
    | Some _ => secureFs_access E path s = (Ok tt, s')
    | None => exists message, secureFs_access E path s = (Throw message, s')
    end.
Proof.
  unfold secureFs_access, readable.
  cbv beta iota zeta delta [mbind M_bind bind get ret throw].
  destruct (secureFs_guard_run E path s) as (s' & R & ->).
  exists s'. split; [exact R |]. rewrite <- (resumes_files _ _ _ R).
  destruct (allowed E path); [| eauto].
  destruct (files s' !! path); eauto.
Qed.

Lemma read_packageJson_run projectPath s :
  exists s',
    resumes E s s' /\
    read_packageJson E projectPath s = (Ok (package_of projectPath s), s').
Proof.
  unfold read_packageJson, package_of, try_catch.
  cbv beta iota zeta delta [mbind M_bind bind ret throw].
  destruct (secureFs_readFile_run (Js.path_join projectPath "package.json") s)
    as (s' & R & H).
  exists s'. split; [exact R |].
  destruct (readable _ s) as [content|].
  - rewrite H. now destruct (Json.parse content).
  - destruct H as (message & ->). reflexivity.
Qed.

Lemma find_compose_run projectPath names s :
  exists s',
    resumes E s s' /\
    find_compose E projectPath names s =
    (Ok (first_readable projectPath names s), s').
Proof.
  revert s. induction names as [|name names IH]; intros s.
  - exists s. split; [apply resumes_refl | reflexivity].
  - cbn [find_compose first_readable]. unfold try_catch.
    cbv beta iota zeta delta [mbind M_bind bind ret].
    destruct (secureFs_access_run (Js.path_join projectPath name) s)
      as (s1 & R1 & Ha).
    destruct (secureFs_readFile_run (Js.path_join projectPath name) s1)
      as (s2 & R2 & Hr).
    rewrite (readable_resumes _ _ _ R1) in Hr.
    destruct (readable (Js.path_join projectPath name) s) as [content|].
    + rewrite Ha, Hr. exists s2. split; [| reflexivity].
      now apply resumes_trans with s1.
    + destruct Ha as (message & ->).
      destruct (IH s1) as (s3 & R3 & ->).
      exists s3. split; [now apply resumes_trans with s1 |].
      now rewrite (first_readable_resumes _ _ _ _ R1).
Qed.

(** What the generator does once it has looked at the files. *)
Definition plan (packageJson : Json.t) (compose : option string)
    (hasDockerfile : bool) : M DeploymentConfig.t :=
  config ←
    match compose with
    | Some dockerComposeContent =>
        ret {| DeploymentConfig.version := 1;
               DeploymentConfig.autoDeployOnComplete := false;
               DeploymentConfig.buildSteps := [];
               DeploymentConfig.deploySteps :=
                 [named "Build Docker images" "docker compose build --no-cache";
                  named "Start services" "docker compose up -d"];
               DeploymentConfig.e2eTests := None;
               DeploymentConfig.healthCheckUrl :=
                 Some (localhost (compose_port dockerComposeContent));
               DeploymentConfig.healthCheckTimeout := Some 120000 |}
    | None =>
        if hasDockerfile : bool then
          ret {| DeploymentConfig.version := 1;
                 DeploymentConfig.autoDeployOnComplete := false;
                 DeploymentConfig.buildSteps := [];
                 DeploymentConfig.deploySteps :=
                   [named "Build Docker image" "docker build -t app .";
                    named "Start container" "docker run -d -p 3000:3000 app"];
                 DeploymentConfig.e2eTests := None;
                 DeploymentConfig.healthCheckUrl := Some "http://localhost:3000";
                 DeploymentConfig.healthCheckTimeout := Some 60000 |}
        else
          match scripts_of packageJson with
          | Some scripts => from_scripts packageJson scripts
          | None =>
              ret {| DeploymentConfig.version := 1;
                     DeploymentConfig.autoDeployOnComplete := false;
                     DeploymentConfig.buildSteps := [];
                     DeploymentConfig.deploySteps := [];
                     DeploymentConfig.e2eTests := None;
                     DeploymentConfig.healthCheckUrl := None;
                     DeploymentConfig.healthCheckTimeout := None |}
          end
    end;
  ret (with_some_deploy_step (with_e2eTests packageJson config)).

Lemma generateDeploymentConfig_run projectPath s :
  exists s',
    resumes E s s' /\
    generateDeploymentConfig E projectPath s =
    plan (package_of projectPath s)
         (first_readable projectPath COMPOSE_NAMES s)
         (bool_decide (is_Some (readable (Js.path_join projectPath "Dockerfile") s)))
         s'.
Proof.
  unfold generateDeploymentConfig.
  change (generateDeploymentConfig E projectPath s) with
    ((packageJson ← read_packageJson E projectPath;
      compose ← find_compose E projectPath COMPOSE_NAMES;
      hasDockerfile ←
        try_catch
          (secureFs_access E (Js.path_join projectPath "Dockerfile") ;; ret true)
          (fun _ => ret false);
      plan packageJson compose hasDockerfile) s).
  unfold try_catch.
  cbv beta iota zeta delta [mbind M_bind bind ret].
  destruct (read_packageJson_run projectPath s) as (s1 & R1 & ->).
  destruct (find_compose_run projectPath COMPOSE_NAMES s1) as (s2 & R2 & ->).
  rewrite (first_readable_resumes _ _ _ _ R1).
  destruct (secureFs_access_run (Js.path_join projectPath "Dockerfile") s2)
    as (s3 & R3 & Ha).
  rewrite (readable_resumes _ _ _ (resumes_trans _ _ _ _ R1 R2)) in Ha.
  exists s3.
  split; [apply resumes_trans with s2; [now apply resumes_trans with s1 | exact R3] |].
  destruct (readable (Js.path_join projectPath "Dockerfile") s) as [content|].
  - rewrite Ha. reflexivity.
  - destruct Ha as (message & ->). reflexivity.
Qed.

(** [scripts.dev || scripts.start] is truthy and is not a string. *)
Definition unmatchable (scripts : Json.t) : bool :=
  match Value.or (Value.prop "dev" scripts) (Value.prop "start" scripts) with
  | Some (Json.Str _) => false
  | chosen => Value.truthy chosen
  end.

Lemma from_scripts_cases packageJson scripts s :
  (unmatchable scripts = true /\
   from_scripts packageJson scripts s = (Throw not_a_function, s)) \/
  (unmatchable scripts = false /\
   exists config,
     from_scripts packageJson scripts s = (Ok config, s) /\
     DeploymentConfig.version config = 1 /\
     DeploymentConfig.autoDeployOnComplete config = false /\
     DeploymentConfig.e2eTests config = None /\
     DeploymentConfig.healthCheckTimeout config = Some 60000 /\
     exists url,
       DeploymentConfig.healthCheckUrl config = Some url /\
       (DeploymentConfig.deploySteps config = [] ->
        url = "http://localhost:3000")).
Proof.
  unfold from_scripts, unmatchable, Value.or.
  generalize (if (Value.truthy (Value.prop "dependencies" packageJson)
                  || Value.truthy (Value.prop "devDependencies" packageJson))%bool
              then [named "Install dependencies" "npm install"] else []).
  intros install.
  generalize (if Value.truthy (Value.prop "build" scripts)
              then [named "Build application" "npm run build"]
              else if Value.truthy (Value.prop "build:packages" scripts)
              then [named "Build packages" "npm run build:packages"]
              else []).
  intros build.
  destruct (Value.truthy (Value.prop "dev" scripts)) eqn:Hdev.
  - rewrite Hdev.
    destruct (Value.prop "dev" scripts) as [[| b | n | script | items | fields]|];
      try discriminate; try (left; split; [exact Hdev | reflexivity]).
    right. split; [reflexivity |]. eexists. split; [reflexivity |].
    cbn [DeploymentConfig.version DeploymentConfig.autoDeployOnComplete
         DeploymentConfig.e2eTests DeploymentConfig.healthCheckTimeout
         DeploymentConfig.healthCheckUrl DeploymentConfig.deploySteps].
    do 4 (split; [reflexivity |]). eexists. split; [reflexivity |].
    now destruct (Value.truthy (Value.prop "start" scripts)).
  - destruct (Value.truthy (Value.prop "start" scripts)) eqn:Hstart.
    + destruct (Value.prop "start" scripts)
        as [[| b | n | script | items | fields]|];
        try discriminate; try (left; split; [exact Hstart | reflexivity]).
      right. split; [reflexivity |]. eexists. split; [reflexivity |].
      cbn [DeploymentConfig.version DeploymentConfig.autoDeployOnComplete
           DeploymentConfig.e2eTests DeploymentConfig.healthCheckTimeout
           DeploymentConfig.healthCheckUrl DeploymentConfig.deploySteps].
      do 4 (split; [reflexivity |]). eexists. split; [reflexivity |].
      discriminate.
    + right.
      assert (Hchosen :
        (match Value.prop "start" scripts with
         | Some (Json.Str _) => false
         | chosen => Value.truthy chosen
         end) = false).
      { destruct (Value.prop "start" scripts) as [[]|]; auto. }
      split; [exact Hchosen |]. eexists. split; [reflexivity |].
      cbn [DeploymentConfig.version DeploymentConfig.autoDeployOnComplete
           DeploymentConfig.e2eTests DeploymentConfig.healthCheckTimeout
           DeploymentConfig.healthCheckUrl DeploymentConfig.deploySteps].
      do 4 (split; [reflexivity |]). eexists. split; [reflexivity |].
      intros _. reflexivity.
Qed.

(** What every generated configuration satisfies. *)
Definition deployable (config : DeploymentConfig.t) : Prop :=
  DeploymentConfig.version config = 1 /\
  DeploymentConfig.autoDeployOnComplete config = false /\
  DeploymentConfig.deploySteps config <> [] /\
  (DeploymentConfig.healthCheckTimeout config = Some 60000 \/
   DeploymentConfig.healthCheckTimeout config = Some 120000) /\
  exists url,
    DeploymentConfig.healthCheckUrl config = Some url /\
    forall tests,
      DeploymentConfig.e2eTests config = Some tests ->
      E2ETestConfig.waitForUrl tests = Some url.

Lemma finished packageJson config :
  DeploymentConfig.version config = 1 ->
  DeploymentConfig.autoDeployOnComplete config = false ->
  DeploymentConfig.e2eTests config = None ->
  (DeploymentConfig.deploySteps config = [] ->
   DeploymentConfig.healthCheckUrl config = Some "http://localhost:3000" \/
   scripts_of packageJson = None) ->
  (DeploymentConfig.deploySteps config <> [] ->
   (DeploymentConfig.healthCheckTimeout config = Some 60000 \/
    DeploymentConfig.healthCheckTimeout config = Some 120000) /\
   exists url, DeploymentConfig.healthCheckUrl config = Some url) ->
  deployable (with_some_deploy_step (with_e2eTests packageJson config)).
Proof.
  intros Hv Ha He Hempty Hsteps.
  unfold with_e2eTests.
  destruct (scripts_of packageJson) as [scripts|] eqn:Hs.
  - destruct (Value.truthy (Value.prop "test:e2e" scripts)
              || Value.truthy (Value.prop "e2e" scripts)
              || Value.truthy (Value.prop "test:playwright" scripts))%bool.
    + unfold with_some_deploy_step, deployable.
      cbn [DeploymentConfig.deploySteps].
      destruct (DeploymentConfig.deploySteps config) as [|step steps] eqn:Hd;
        cbn [length Nat.eqb DeploymentConfig.version
             DeploymentConfig.autoDeployOnComplete DeploymentConfig.deploySteps
             DeploymentConfig.healthCheckTimeout DeploymentConfig.healthCheckUrl
             DeploymentConfig.e2eTests].
      * destruct (Hempty eq_refl) as [Hurl | Hnone]; [| discriminate].
        split; [exact Hv |]. split; [exact Ha |]. split; [discriminate |].
        split; [now left |]. eexists. split; [reflexivity |].
        intros tests [= <-]. exact Hurl.
      * destruct Hsteps as (Ht & url & Hurl); [discriminate |].
        split; [exact Hv |]. split; [exact Ha |]. split; [discriminate |].
        split; [exact Ht |]. exists url. split; [exact Hurl |].
        intros tests [= <-]. exact Hurl.
    + unfold with_some_deploy_step, deployable.
      destruct (DeploymentConfig.deploySteps config) as [|step steps] eqn:Hd;
        cbn [length Nat.eqb DeploymentConfig.version
             DeploymentConfig.autoDeployOnComplete DeploymentConfig.deploySteps
             DeploymentConfig.healthCheckTimeout DeploymentConfig.healthCheckUrl
             DeploymentConfig.e2eTests].
      * split; [exact Hv |]. split; [exact Ha |]. split; [discriminate |].
        split; [now left |]. eexists. split; [reflexivity |].
        rewrite He. discriminate.
      * rewrite Hd. destruct Hsteps as (Ht & url & Hurl); [discriminate |].
        split; [exact Hv |]. split; [exact Ha |]. split; [discriminate |].
        split; [exact Ht |]. exists url. split; [exact Hurl |].
        rewrite He. discriminate.
  - unfold with_some_deploy_step, deployable.
    destruct (DeploymentConfig.deploySteps config) as [|step steps] eqn:Hd;
      cbn [length Nat.eqb DeploymentConfig.version
           DeploymentConfig.autoDeployOnComplete DeploymentConfig.deploySteps
           DeploymentConfig.healthCheckTimeout DeploymentConfig.healthCheckUrl
           DeploymentConfig.e2eTests].
    + split; [exact Hv |]. split; [exact Ha |]. split; [discriminate |].
      split; [now left |]. eexists. split; [reflexivity |].
      rewrite He. discriminate.
    + rewrite Hd. destruct Hsteps as (Ht & url & Hurl); [discriminate |].
      split; [exact Hv |]. split; [exact Ha |]. split; [discriminate |].
      split; [exact Ht |]. exists url. split; [exact Hurl |].
      rewrite He. discriminate.
Qed.

(** The plan changes nothing; it gives a deployable configuration, or
    throws the [TypeError] of a script that is not a string. *)
Lemma plan_cases packageJson compose hasDockerfile s :
  exists outcome,
    plan packageJson compose hasDockerfile s = (outcome, s) /\
    match outcome with
    | Ok config => deployable config
    | Throw message => message = not_a_function
    | Pending => False
    end.
Proof.
  unfold plan. cbv beta iota zeta delta [mbind M_bind bind ret].
  destruct compose as [dockerComposeContent|].
  { eexists. split; [reflexivity |]. apply finished; try reflexivity.
    - discriminate.
    - intros _. split; [now right | eauto]. }
  destruct hasDockerfile.
  { eexists. split; [reflexivity |]. apply finished; try reflexivity.
    - discriminate.
    - intros _. split; [now left | eauto]. }
  destruct (scripts_of packageJson) as [scripts|] eqn:Hs.
  - destruct (from_scripts_cases packageJson scripts s)
      as [(_ & ->) | (_ & config & -> & Hv & Ha & He & Ht & url & Hurl & Hempty)].
    + eexists. split; [reflexivity | reflexivity].
    + eexists. split; [reflexivity |]. apply finished; try assumption.
      * intros Hd. left. rewrite Hurl. f_equal. now apply Hempty.
      * intros _. split; [now left | eauto].
  - eexists. split; [reflexivity |]. apply finished; try reflexivity.
    + intros _. now right.
    + intros Hd. now contradiction Hd.
Qed.

(** X23. [generateDeploymentConfig] reads and never writes, and starts
    no process.  Whatever the project holds, the configuration it
    returns can be deployed: it has version 1, is not deployed
    automatically, has at least one deploy step, a health-check URL and
    a health-check timeout of one or two minutes; and when it has E2E
    tests, they wait for that same URL.  The only way it fails is the
    [TypeError] of a start script that is not a string. *)
Theorem generateDeploymentConfig_deployable projectPath s :
  exists outcome s',
    generateDeploymentConfig E projectPath s = (outcome, s') /\
    files s' = files s /\ children s' = children s /\
    match outcome with
    | Ok config =>
        DeploymentConfig.version config = 1 /\
        DeploymentConfig.autoDeployOnComplete config = false /\
        DeploymentConfig.deploySteps config <> [] /\
        (DeploymentConfig.healthCheckTimeout config = Some 60000 \/
         DeploymentConfig.healthCheckTimeout config = Some 120000) /\
        exists url,
          DeploymentConfig.healthCheckUrl config = Some url /\
          forall tests,
            DeploymentConfig.e2eTests config = Some tests ->
            E2ETestConfig.waitForUrl tests = Some url
    | Throw message => message = not_a_function
    | Pending => False
    end.
Proof.
  destruct (generateDeploymentConfig_run projectPath s) as (s' & R & Hrun).
  destruct (plan_cases (package_of projectPath s)
              (first_readable projectPath COMPOSE_NAMES s)
              (bool_decide
                 (is_Some (readable (Js.path_join projectPath "Dockerfile") s)))
              s') as (outcome & Hplan & Hout).
  exists outcome, s'. rewrite Hrun, Hplan. split; [reflexivity |].
  destruct R as (_ & (Hf & Hc & _) & _).
  split; [exact Hf |]. split; [exact Hc |]. exact Hout.
Qed.

Lemma first_readable_at projectPath names s i name content :
  names !! i = Some name ->
  readable (Js.path_join projectPath name) s = Some content ->
  (forall j earlier,
      (j < i)%nat -> names !! j = Some earlier ->
      readable (Js.path_join projectPath earlier) s = None) ->
  first_readable projectPath names s = Some content.
Proof.
  revert i. induction names as [|first names IH]; intros i Hi Hr Hearlier.
  - discriminate.
  - destruct i as [|i]; cbn [first_readable].
    + injection Hi as ->. now rewrite Hr.
    + rewrite (Hearlier 0%nat first); [| lia | reflexivity].
      apply (IH i); [exact Hi | exact Hr |].
      intros j earlier Hj Hl. apply (Hearlier (S j)); [lia | exact Hl].
Qed.

Lemma first_readable_none projectPath names s :
  first_readable projectPath names s = None <->
  forall name, In name names ->
               readable (Js.path_join projectPath name) s = None.
Proof.
  induction names as [|first names IH]; cbn [first_readable].
  - split; [intros _ name [] | reflexivity].
  - destruct (readable (Js.path_join projectPath first) s) as [content|] eqn:Hr.
    + split; [discriminate |]. intros H.
      specialize (H first (or_introl eq_refl)). congruence.
    + rewrite IH. split.
      * intros H name [<- | Hin]; [exact Hr | now apply H].
      * intros H name Hin. apply H. now right.
Qed.

Lemma with_e2eTests_keeps packageJson config :
  DeploymentConfig.buildSteps (with_e2eTests packageJson config) =
    DeploymentConfig.buildSteps config /\
  DeploymentConfig.deploySteps (with_e2eTests packageJson config) =
    DeploymentConfig.deploySteps config /\
  DeploymentConfig.healthCheckUrl (with_e2eTests packageJson config) =
    DeploymentConfig.healthCheckUrl config /\
  DeploymentConfig.healthCheckTimeout (with_e2eTests packageJson config) =
    DeploymentConfig.healthCheckTimeout config.
Proof.
  unfold with_e2eTests. destruct (scripts_of packageJson) as [scripts|];
    [| now repeat split].
  destruct (Value.truthy (Value.prop "test:e2e" scripts)
            || Value.truthy (Value.prop "e2e" scripts)
            || Value.truthy (Value.prop "test:playwright" scripts))%bool;
    now repeat split.
Qed.

Lemma with_some_deploy_step_keeps config :
  DeploymentConfig.deploySteps config <> [] ->
  with_some_deploy_step config = config.
Proof.
  unfold with_some_deploy_step.
  now destruct (DeploymentConfig.deploySteps config).
Qed.

(** X24. A compose file takes precedence over everything else.  When
    one of [docker-compose.yml], [docker-compose.yaml], [compose.yml]
    and [compose.yaml] can be read, the generator returns, whatever
    [package.json] and a [Dockerfile] say, a configuration with no
    build step, the two steps [docker compose build --no-cache] and
    [docker compose up -d], a health check of two minutes, and the port
    read off the first of these files that can be read. *)
Theorem compose_file_takes_precedence projectPath s i name content :
  COMPOSE_NAMES !! i = Some name ->
  readable (Js.path_join projectPath name) s = Some content ->
  (forall j earlier,
      (j < i)%nat -> COMPOSE_NAMES !! j = Some earlier ->
      readable (Js.path_join projectPath earlier) s = None) ->
  exists config s',
    generateDeploymentConfig E projectPath s = (Ok config, s') /\
    DeploymentConfig.buildSteps config = [] /\
    DeploymentConfig.deploySteps config =
      [named "Build Docker images" "docker compose build --no-cache";
       named "Start services" "docker compose up -d"] /\
    DeploymentConfig.healthCheckUrl config =
      Some (localhost (compose_port content)) /\
    DeploymentConfig.healthCheckTimeout config = Some 120000.
Proof.
  intros Hi Hr Hearlier.
  destruct (generateDeploymentConfig_run projectPath s) as (s' & _ & Hrun).
  rewrite (first_readable_at _ _ _ _ _ _ Hi Hr Hearlier) in Hrun.
  eexists _, s'. split; [exact Hrun |].
  rewrite with_some_deploy_step_keeps;
    [| rewrite (proj1 (proj2 (with_e2eTests_keeps _ _))); discriminate].
  destruct (with_e2eTests_keeps (package_of projectPath s)
              {| DeploymentConfig.version := 1;
                 DeploymentConfig.autoDeployOnComplete := false;
                 DeploymentConfig.buildSteps := [];
                 DeploymentConfig.deploySteps :=
                   [named "Build Docker images" "docker compose build --no-cache";
                    named "Start services" "docker compose up -d"];
                 DeploymentConfig.e2eTests := None;
                 DeploymentConfig.healthCheckUrl :=
                   Some (localhost (compose_port content));
                 DeploymentConfig.healthCheckTimeout := Some 120000 |})
    as (Hb & Hd & Hu & Ht).
  now repeat split.
Qed.

(** X25. Without a compose file, a [Dockerfile] decides: the generator
    returns, whatever [package.json] says, a configuration with no
    build step, the two steps [docker build -t app .] and
    [docker run -d -p 3000:3000 app], and a health check of one minute
    on port 3000. *)
Theorem dockerfile_comes_second projectPath s :
  (forall name, In name COMPOSE_NAMES ->
                readable (Js.path_join projectPath name) s = None) ->
  is_Some (readable (Js.path_join projectPath "Dockerfile") s) ->
  exists config s',
    generateDeploymentConfig E projectPath s = (Ok config, s') /\
    DeploymentConfig.buildSteps config = [] /\
    DeploymentConfig.deploySteps config =
      [named "Build Docker image" "docker build -t app .";
       named "Start container" "docker run -d -p 3000:3000 app"] /\
    DeploymentConfig.healthCheckUrl config = Some "http://localhost:3000" /\
    DeploymentConfig.healthCheckTimeout config = Some 60000.
Proof.
  intros Hnone Hfile.
  destruct (generateDeploymentConfig_run projectPath s) as (s' & _ & Hrun).
  rewrite (proj2 (first_readable_none _ _ _) Hnone) in Hrun.
  rewrite (bool_decide_eq_true_2 _ Hfile) in Hrun.
  eexists _, s'. split; [exact Hrun |].
  rewrite with_some_deploy_step_keeps;
    [| rewrite (proj1 (proj2 (with_e2eTests_keeps _ _))); discriminate].
  destruct (with_e2eTests_keeps (package_of projectPath s)
              {| DeploymentConfig.version := 1;
                 DeploymentConfig.autoDeployOnComplete := false;
                 DeploymentConfig.buildSteps := [];
                 DeploymentConfig.deploySteps :=
                   [named "Build Docker image" "docker build -t app .";
                    named "Start container" "docker run -d -p 3000:3000 app"];
                 DeploymentConfig.e2eTests := None;
                 DeploymentConfig.healthCheckUrl := Some "http://localhost:3000";
                 DeploymentConfig.healthCheckTimeout := Some 60000 |})
    as (Hb & Hd & Hu & Ht).
  now repeat split.
Qed.

(** X26. [generateDeploymentConfig] throws exactly for a project
    without a compose file and without a [Dockerfile] whose
    [package.json] has scripts of which the one looked at for a port,
    [scripts.dev || scripts.start], is truthy and is not a string: the
    generator calls [.match] on it. *)
Theorem generateDeploymentConfig_throws_iff projectPath s :
  (exists message s',
      generateDeploymentConfig E projectPath s = (Throw message, s')) <->
  (forall name, In name COMPOSE_NAMES ->
                readable (Js.path_join projectPath name) s = None) /\
  readable (Js.path_join projectPath "Dockerfile") s = None /\
  exists scripts,
    scripts_of (package_of projectPath s) = Some scripts /\
    unmatchable scripts = true.
Proof.
  destruct (generateDeploymentConfig_run projectPath s) as (s' & _ & Hrun).
  rewrite <- first_readable_none.
  unfold plan in Hrun. cbv beta iota zeta delta [mbind M_bind bind ret] in Hrun.
  destruct (first_readable projectPath COMPOSE_NAMES s) as [content|].
  { split.
    - intros (message & s2 & H). rewrite Hrun in H. discriminate.
    - intros (H & _). discriminate. }
  destruct (readable (Js.path_join projectPath "Dockerfile") s) as [file|].
  { rewrite bool_decide_eq_true_2 in Hrun by eauto. split.
    - intros (message & s2 & H). rewrite Hrun in H. discriminate.
    - intros (_ & H & _). discriminate. }
  rewrite bool_decide_eq_false_2 in Hrun by (intros [x Hx]; discriminate).
  destruct (scripts_of (package_of projectPath s)) as [scripts|].
  - destruct (from_scripts_cases (package_of projectPath s) scripts s')
      as [(Hu & Hthrow) | (Hu & config & Hok & _)]; rewrite ?Hthrow, ?Hok in Hrun.
    + split; [| eauto]. intros _. split; [reflexivity |].
      split; [reflexivity |]. eauto.
    + split.
      * intros (message & s2 & H). rewrite Hrun in H. discriminate.
      * intros (_ & _ & scripts' & [= <-] & Hu'). congruence.
  - split.
    + intros (message & s2 & H). rewrite Hrun in H. discriminate.
    + intros (_ & _ & scripts' & Hs & _). discriminate.
Qed.

(** X27. The E2E tests of a generated configuration come from the
    scripts of [package.json] alone, whatever the kind of project: none
    when there is no script [test:e2e], [e2e] or [test:playwright];
    otherwise [npm run] of the first of these three that exists, in
    that order, waiting one minute for the health-check URL of the
    configuration, with ten minutes to run. *)
Theorem e2e_tests_follow_scripts projectPath s config s' :
  generateDeploymentConfig E projectPath s = (Ok config, s') ->
  let has key :=
    match scripts_of (package_of projectPath s) with
    | Some scripts => Value.truthy (Value.prop key scripts)
    | None => false
    end in
  DeploymentConfig.e2eTests config =
    if (has "test:e2e" || has "e2e" || has "test:playwright")%bool then
      Some {| E2ETestConfig.command :=
                if has "test:e2e" then "npm run test:e2e"
                else if has "e2e" then "npm run e2e"
                else "npm run test:playwright";
              E2ETestConfig.workingDirectory := None;
              E2ETestConfig.waitForUrl := DeploymentConfig.healthCheckUrl config;
              E2ETestConfig.waitTimeout := Some 60000;
              E2ETestConfig.env := None;
              E2ETestConfig.timeout := Some 600000 |}
    else None.
Proof.
  intros Hgen has.
  destruct (generateDeploymentConfig_run projectPath s) as (s2 & _ & Hrun).
  rewrite Hrun in Hgen. clear Hrun.
  unfold plan in Hgen. cbv beta iota zeta delta [mbind M_bind bind ret] in Hgen.
  set (packageJson := package_of projectPath s) in *.
  assert (Hfinish : forall draft,
    DeploymentConfig.e2eTests draft = None ->
    (DeploymentConfig.deploySteps draft = [] ->
     DeploymentConfig.healthCheckUrl draft = Some "http://localhost:3000" \/
     scripts_of packageJson = None) ->
    config = with_some_deploy_step (with_e2eTests packageJson draft) ->
    DeploymentConfig.e2eTests config =
      if (has "test:e2e" || has "e2e" || has "test:playwright")%bool then
        Some {| E2ETestConfig.command :=
                  if has "test:e2e" then "npm run test:e2e"
                  else if has "e2e" then "npm run e2e"
                  else "npm run test:playwright";
                E2ETestConfig.workingDirectory := None;
                E2ETestConfig.waitForUrl := DeploymentConfig.healthCheckUrl config;
                E2ETestConfig.waitTimeout := Some 60000;
                E2ETestConfig.env := None;
                E2ETestConfig.timeout := Some 600000 |}
      else None).
  { intros draft He Hempty ->. subst has. unfold with_e2eTests.
    destruct (scripts_of packageJson) as [scripts|].
    - destruct (Value.truthy (Value.prop "test:e2e" scripts)
                || Value.truthy (Value.prop "e2e" scripts)
                || Value.truthy (Value.prop "test:playwright" scripts))%bool.
      + unfold with_some_deploy_step. cbn [DeploymentConfig.deploySteps].
        destruct (DeploymentConfig.deploySteps draft) eqn:Hd;
          cbn [length Nat.eqb DeploymentConfig.e2eTests
               DeploymentConfig.healthCheckUrl]; [| reflexivity].
        destruct (Hempty eq_refl) as [-> | ?]; [reflexivity | discriminate].
      + unfold with_some_deploy_step.
        destruct (DeploymentConfig.deploySteps draft);
          cbn [length Nat.eqb DeploymentConfig.e2eTests]; exact He.
    - unfold with_some_deploy_step.
      destruct (DeploymentConfig.deploySteps draft);
        cbn [length Nat.eqb DeploymentConfig.e2eTests orb]; exact He. }
  destruct (first_readable projectPath COMPOSE_NAMES s) as [content|].
  { injection Hgen as Hgen _. symmetry in Hgen.
    refine (Hfinish _ _ _ Hgen); [reflexivity | discriminate]. }
  destruct (bool_decide _).
  { injection Hgen as Hgen _. symmetry in Hgen.
    refine (Hfinish _ _ _ Hgen); [reflexivity | discriminate]. }
  destruct (scripts_of packageJson) as [scripts|] eqn:Hs.
  - destruct (from_scripts_cases packageJson scripts s2)
      as [(_ & Hthrow) | (_ & draft & Hok & _ & _ & He & _ & url & Hurl & Hempty)].
    + rewrite Hthrow in Hgen. discriminate.
    + rewrite Hok in Hgen. injection Hgen as Hgen _. symmetry in Hgen.
      apply (Hfinish draft He); [| exact Hgen].
      intros Hd. left. rewrite Hurl. f_equal. now apply Hempty.
  - injection Hgen as Hgen _. symmetry in Hgen.
    refine (Hfinish _ _ _ Hgen); [reflexivity |]. intros _. now right.
Qed.

End GenerateFacts.

(** The [package.json] of a Node project with a build, a start script
    that names its port, and two scripts of end-to-end tests. *)
Definition package_json : string :=
  Json.stringify
    (Json.Obj
       [("name", Json.Str "app");
        ("scripts",
         Json.Obj [("build", Json.Str "tsc");
                   ("start", Json.Str "node server.js --port 4000");
                   ("e2e", Json.Str "playwright test");
                   ("test:playwright", Json.Str "playwright test --ui")]);
        ("dependencies", Json.Obj [("express", Json.Str "^4.18.0")])]).

(** That project, with a compose file under the second of the names. *)
Definition compose_project : State :=
  with_files
    {[ Js.path_join project "package.json" := package_json;
       Js.path_join project "docker-compose.yaml" := "ports: [ 5173:80 ]" ]}
    fresh.

(** That project, with a [Dockerfile] and no compose file. *)
Definition dockerfile_project : State :=
  with_files
    {[ Js.path_join project "package.json" := package_json;
       Js.path_join project "Dockerfile" := "FROM node:20" ]}
    fresh.

(** That project, without Docker. *)
Definition node_project : State :=
  with_files {[ Js.path_join project "package.json" := package_json ]} fresh.

(** X24, witness: the compose file is found under its second name; the
    scripts of [package.json] give no step. *)
Lemma compose_file_takes_precedence_witness :
  exists config s',
    generateDeploymentConfig silent_world project compose_project =
      (Ok config, s') /\
    DeploymentConfig.buildSteps config = [] /\
    DeploymentConfig.healthCheckUrl config = Some "http://localhost:5173".
Proof.
  destruct (compose_file_takes_precedence silent_world project compose_project
              1 "docker-compose.yaml" "ports: [ 5173:80 ]")
    as (config & s' & Hrun & Hbuild & _ & Hurl & _).
  - reflexivity.
  - vm_compute. reflexivity.
  - intros j earlier Hj Hl. destruct j as [|j]; [| lia].
    injection Hl as <-. vm_compute. reflexivity.
  - exists config, s'. split; [exact Hrun |]. split; [exact Hbuild |].
    rewrite Hurl. vm_compute. reflexivity.
Defined.

(** X25, witness: a [Dockerfile] beside the [package.json]. *)
Lemma dockerfile_comes_second_witness :
  exists config s',
    generateDeploymentConfig silent_world project dockerfile_project =
      (Ok config, s') /\
    DeploymentConfig.buildSteps config = [] /\
    DeploymentConfig.healthCheckUrl config = Some "http://localhost:3000".
Proof.
  destruct (dockerfile_comes_second silent_world project dockerfile_project)
    as (config & s' & Hrun & Hbuild & _ & Hurl & _).
  - intros name [<- | [<- | [<- | [<- | []]]]]; vm_compute; reflexivity.
  - eexists. vm_compute. reflexivity.
  - exists config, s'. split; [exact Hrun |]. split; [exact Hbuild | exact Hurl].
Defined.

(** What the generator returns for the Node project. *)
Definition generated_for_node : DeploymentConfig.t :=
  {| DeploymentConfig.version := 1;
     DeploymentConfig.autoDeployOnComplete := false;
     DeploymentConfig.buildSteps :=
       [named "Install dependencies" "npm install";
        named "Build application" "npm run build"];
     DeploymentConfig.deploySteps := [named "Start application" "npm run start"];
     DeploymentConfig.e2eTests :=
       Some {| E2ETestConfig.command := "npm run e2e";
               E2ETestConfig.workingDirectory := None;
               E2ETestConfig.waitForUrl := Some "http://localhost:4000";
               E2ETestConfig.waitTimeout := Some 60000;
               E2ETestConfig.env := None;
               E2ETestConfig.timeout := Some 600000 |};
     DeploymentConfig.healthCheckUrl := Some "http://localhost:4000";
     DeploymentConfig.healthCheckTimeout := Some 60000 |}.

(** X27, witness: of the scripts [e2e] and [test:playwright], the first
    is run. *)
Lemma e2e_tests_follow_scripts_witness :
  option_map E2ETestConfig.command
    (DeploymentConfig.e2eTests generated_for_node) = Some "npm run e2e".
Proof.
  rewrite (e2e_tests_follow_scripts silent_world project node_project
             generated_for_node
             (snd (generateDeploymentConfig silent_world project node_project))).
  - vm_compute. reflexivity.
  - vm_compute. reflexivity.
Defined.

(* ================================================================== *)
(** * The ports the generator finds *)
(* ================================================================== *)

Section PortFacts.

Import PortPattern.
















End PortFacts.

Section ScriptPort.

Variable E : Env.

Import PortPattern.



End ScriptPort.

Section ComposePort.

Import PortPattern.




End ComposePort.


